(** * Share Analytic Dashboard: prediction loader, filter pipeline,
      latest-row reduction, report metrics and report-file selection,
      price files and price windows, feature importances, sidebar callbacks

    A shallow embedding of [utils/data_loaders.py], [tabs/probability_tab.py],
    [tabs/share_tab.py], [tabs/classification_tab.py] and the callbacks of
    [app.py].

    Python values are modelled as follows.
    - [str]: [string] (the UTF-8 bytes; equality and code-point order of
      Python strings coincide with equality and byte order of their UTF-8
      encodings).  The report text, which is scanned with [\s], is a list of
      code points instead.
    - [float]: [f64], the extended rationals with a NaN.  Every finite double
      is a rational and the comparisons of doubles are those of the rationals
      they denote; the rounding of [float(s)] is a parameter, with the
      rounding to the nearest double as its instance.
    - [dict]: an association list in insertion order with distinct keys.
    - library calls whose result the repository does not determine
      ([pd.to_datetime], [pd.to_numeric], the date offsets) are taken
      through their documented contract.  [DataFrame.sort_values] is taken
      through its contract where a property holds of every sort, and as
      the introsort of NumPy where the order of rows with equal keys
      matters.
    - what a call does outside the part of its domain that is modelled is
      the outcome [NotModelled], never a value. *)

From Stdlib Require Import List String Ascii ZArith NArith QArith Bool Lia.
From Stdlib Require Import Permutation Sorted.
From Stdlib Require FinFun.
Import ListNotations.

Set Implicit Arguments.
Close Scope Q_scope.
Open Scope string_scope.
Open Scope list_scope.

(** ** Floats *)

Inductive f64 : Type :=
| NaN
| NegInf
| Fin (q : Q)
| PosInf.

(** ** Parsed JSON ([json.load]) *)

#[warnings="-register-all"]
Inductive json : Type :=
| JNull
| JBool (b : bool)
| JInt (z : Z)
| JFloat (x : f64)
| JStr (s : string)
| JList (l : list json)
| JDict (d : list (string * json)).

Definition pydict : Type := list (string * json).

Fixpoint dict_get (k : string) (d : pydict) : option json :=
  match d with
  | [] => None
  | (k', v) :: d' => if String.eqb k k' then Some v else dict_get k d'
  end.

(** [d[k] = v]: an existing key keeps its position, a new key goes last. *)
Fixpoint dict_set (k : string) (v : json) (d : pydict) : pydict :=
  match d with
  | [] => [(k, v)]
  | (k', v') :: d' =>
      if String.eqb k k' then (k', v) :: d' else (k', v') :: dict_set k v d'
  end.

(** [{**d, **e}] *)
Definition dict_update (d e : pydict) : pydict :=
  fold_left (fun acc kv => dict_set (fst kv) (snd kv) acc) e d.

Definition dict_keys (d : pydict) : list string := map fst d.

(** A dictionary as Python holds it: no key twice. *)
Definition wf_dict (d : pydict) : Prop := NoDup (dict_keys d).

(** ** Outcomes of a call *)

Inductive result (A : Type) : Type :=
| Returns (a : A)
| Raises
| NotModelled.

Arguments Raises {A}.
Arguments NotModelled {A}.

(** ** Data frames *)

(** A cell holds a value; the dtype pandas gives its column is not part of
    the model. *)
Inductive cell : Type :=
| CObj (v : json)          (* the value taken from the JSON *)
| CMissing                 (* NaN left by the constructor for an absent key *)
| CNA                      (* pd.NA *)
| CTime (t : option Z)     (* datetime64 in milliseconds, [None] is NaT *)
| CNum (x : f64).          (* what to_numeric left: a number, or NaN *)

(** Rows are stored in order; the index is the default [RangeIndex]. *)
Record DataFrame : Type := mkFrame {
  columns : list string;
  rows : list (list cell)
}.

Definition has_column (name : string) (cols : list string) : bool :=
  existsb (String.eqb name) cols.

(** Column labels of [pd.DataFrame(list_of_dicts)]: the keys in order of
    first appearance. *)
Definition add_key (acc : list string) (k : string) : list string :=
  if has_column k acc then acc else acc ++ [k].

Definition union_keys (recs : list pydict) : list string :=
  fold_left (fun acc d => fold_left add_key (dict_keys d) acc) recs [].

Definition record_row (cols : list string) (d : pydict) : list cell :=
  map (fun c => match dict_get c d with
                | Some v => CObj v
                | None => CMissing
                end) cols.

(** [pd.DataFrame(recs)], value by value.  The constructor then infers a
    dtype for each column, which changes how some values are held: an
    integer becomes a float in a column that also holds floats or misses a
    value, [None] becomes NaN in a column of numbers.  That step is not
    modelled; strings and floats are held as they are. *)
Definition frame_of_records (recs : list pydict) : DataFrame :=
  let cols := union_keys recs in
  mkFrame cols (map (record_row cols) recs).

(** [{"Ticker": tk, **e}] *)
Definition with_ticker (tk : string) (e : pydict) : pydict :=
  dict_update [("Ticker", JStr tk)] e.

(** Lines 21-26: the records one key of the root mapping contributes. *)
Definition entry_records (tk : string) (entries : json) : list pydict :=
  match entries with
  | JList es =>
      flat_map (fun e => match e with
                         | JDict d => [with_ticker tk d]
                         | _ => []
                         end) es
  | JDict d => [with_ticker tk d]
  | _ => []
  end.

(** Lines 18-27. *)
Definition normalize_root (raw : json) : json :=
  match raw with
  | JDict d =>
      JList (map JDict (flat_map (fun kv => entry_records (fst kv) (snd kv)) d))
  | _ => raw
  end.

Fixpoint as_records (l : list json) : option (list pydict) :=
  match l with
  | [] => Some []
  | JDict d :: l' =>
      match as_records l' with
      | Some ds => Some (d :: ds)
      | None => None
      end
  | _ => None
  end.

(** [pd.DataFrame(raw)] for the shapes the loader documents.  A list that
    holds something else than objects, and a mapping (which line 27 has
    replaced by a list before the call), are left out of the model; a scalar
    root makes the constructor raise. *)
Definition DataFrame_of (raw : json) : result DataFrame :=
  match raw with
  | JNull => Returns (mkFrame [] [])
  | JList l =>
      match as_records l with
      | Some recs => Returns (frame_of_records recs)
      | None => NotModelled
      end
  | JDict _ => NotModelled
  | _ => Raises
  end.

(** [df[col] = pd.NA] when the column is absent (lines 30-32). *)
Definition ensure_column (df : DataFrame) (col : string) : DataFrame :=
  if has_column col (columns df) then df
  else mkFrame (columns df ++ [col]) (map (fun r => r ++ [CNA]) (rows df)).

(** [df[name] = f(df[name])], cell by cell. *)
Fixpoint map_col (name : string) (f : cell -> cell)
         (cols : list string) (r : list cell) : list cell :=
  match cols, r with
  | c :: cols', x :: r' =>
      if String.eqb c name then f x :: r' else x :: map_col name f cols' r'
  | _, _ => r
  end.

Definition assign_column (name : string) (f : cell -> cell)
           (df : DataFrame) : DataFrame :=
  mkFrame (columns df) (map (map_col name f (columns df)) (rows df)).

Definition required_columns : list string :=
  ["Ticker"; "Date"; "ProbUp"; "Signal"].

Inductive file : Type :=
| NotJson                  (* the file exists, json.load rejects it *)
| Json (root : json).

(** [None]: no file at that path. *)
Definition filesystem : Type := string -> option file.

Section Loader.

(** [pd.to_datetime(_, unit="ms", errors="coerce")] and
    [pd.to_numeric(_, errors="coerce")] on one cell. *)
Variable to_datetime_ms : cell -> option Z.
Variable to_numeric : cell -> f64.

(** Lines 30-35.  [CNum] marks the cells of ProbUp after [to_numeric], whose
    dtype (float64, or int64 or bool where no value was coerced) is not
    modelled. *)
Definition coerce_frame (df : DataFrame) : DataFrame :=
  let df := fold_left ensure_column required_columns df in
  let df := assign_column "Date" (fun c => CTime (to_datetime_ms c)) df in
  assign_column "ProbUp" (fun c => CNum (to_numeric c)) df.

Definition load_predictions (fs : filesystem) (json_path : string)
  : result DataFrame :=
  match fs json_path with
  | None => Returns (mkFrame required_columns [])
  | Some NotJson => Raises
  | Some (Json raw) =>
      match DataFrame_of (normalize_root raw) with
      | Returns df => Returns (coerce_frame df)
      | Raises => Raises
      | NotModelled => NotModelled
      end
  end.

End Loader.

(** *** The two shapes of section 8.1 of the specification *)

(** A mapping from ticker to a list of record objects. *)
Definition nested_root (m : list (string * list pydict)) : json :=
  JDict (map (fun kv => (fst kv, JList (map JDict (snd kv)))) m).

(** The same records as one flat list with an explicit Ticker field. *)
Definition flat_root (m : list (string * list pydict)) : json :=
  JList (flat_map (fun kv =>
                     map (fun r => JDict (("Ticker", JStr (fst kv)) :: r))
                         (snd kv)) m).

(** ** Orders on sort keys *)

(** Finite and infinite floats in their numeric order; NaN is given the
    lowest rank only to make the function total: no caller compares it. *)
Definition f64_rank (x : f64) : nat :=
  match x with
  | NaN => 0
  | NegInf => 1
  | Fin _ => 2
  | PosInf => 3
  end.

Definition f64_compare (x y : f64) : comparison :=
  match x, y with
  | Fin p, Fin q => Qcompare p q
  | _, _ => Nat.compare (f64_rank x) (f64_rank y)
  end.

Definition f64_isnan (x : f64) : bool :=
  match x with
  | NaN => true
  | _ => false
  end.

(** [x <= y] on floats: false as soon as one side is NaN. *)
Definition f64_leb (x y : f64) : bool :=
  if f64_isnan x || f64_isnan y then false
  else match f64_compare x y with
       | Gt => false
       | _ => true
       end.

(** [x >= y] *)
Definition f64_geb (x y : f64) : bool := f64_leb y x.

(** The order [sort_values] uses on one column: nulls last whatever the
    direction ([na_position="last"]), the rest by [cmp] or its converse. *)
Definition cmp_nulls_last (A : Type) (cmp : A -> A -> comparison)
           (ascending : bool) (x y : option A) : comparison :=
  match x, y with
  | Some a, Some b => if ascending then cmp a b else cmp b a
  | Some _, None => Lt
  | None, Some _ => Gt
  | None, None => Eq
  end.

Definition lex (c1 c2 : comparison) : comparison :=
  match c1 with
  | Eq => c2
  | _ => c1
  end.

Definition not_gt (c : comparison) : bool :=
  match c with
  | Gt => false
  | _ => true
  end.

(** A comparison that orders its arguments: antisymmetric, with an
    equivalence for [Eq] and a transitive [Lt]. *)
Record weak_order (A : Type) (cmp : A -> A -> comparison) : Prop := {
  wo_antisym : forall a b, cmp b a = CompOpp (cmp a b);
  wo_eq : forall a b c, cmp a b = Eq -> cmp a c = cmp b c;
  wo_lt : forall a b c, cmp a b = Lt -> cmp b c = Lt -> cmp a c = Lt
}.

Arguments weak_order {A} cmp.
Arguments wo_antisym {A cmp} _ a b.
Arguments wo_eq {A cmp} _ a b c _.
Arguments wo_lt {A cmp} _ a b c _ _.

(** ** Insertion sorts *)

Section Insertion.

Variable A : Type.
(** [before x y]: [x], met earlier in the input, is put in front of [y]. *)
Variable before : A -> A -> bool.

Fixpoint insert (x : A) (l : list A) : list A :=
  match l with
  | [] => [x]
  | y :: l' => if before x y then x :: l else y :: insert x l'
  end.

Definition insertion_sort (l : list A) : list A := fold_right insert [] l.

End Insertion.

(** ** The prediction table as the tabs read it *)

(** One row of the frame [load_predictions] returns: its index label and the
    four columns the tabs use.  Ticker is a string or null. *)
Record Row : Type := mkRow {
  index : nat;
  Ticker : option string;
  Date : option Z;
  ProbUp : f64;
  Signal : cell
}.

Inductive sort_by : Type :=
| ByProbUp                 (* sort_values('ProbUp', ...) *)
| ByTicker                 (* sort_values('Ticker', ...) *)
| ByTickerDate.            (* sort_values(["Ticker", "Date"]) *)

Definition notna (x : f64) : option f64 :=
  if f64_isnan x then None else Some x.

Definition row_compare (by_ : sort_by) (ascending : bool) (a b : Row)
  : comparison :=
  match by_ with
  | ByProbUp =>
      cmp_nulls_last f64_compare ascending (notna (ProbUp a)) (notna (ProbUp b))
  | ByTicker =>
      cmp_nulls_last String.compare ascending (Ticker a) (Ticker b)
  | ByTickerDate =>
      lex (cmp_nulls_last String.compare ascending (Ticker a) (Ticker b))
          (cmp_nulls_last Z.compare ascending (Date a) (Date b))
  end.

Definition row_leb (by_ : sort_by) (ascending : bool) (a b : Row) : bool :=
  not_gt (row_compare by_ ascending a b).

Definition row_le (by_ : sort_by) (ascending : bool) (a b : Row) : Prop :=
  row_leb by_ ascending a b = true.

(** [DataFrame.sort_values(by, ascending=...)] with the default
    [kind="quicksort"] and [na_position="last"]. *)
Definition sorter : Type := sort_by -> bool -> list Row -> list Row.

(** What pandas documents of it: the rows come back reordered by the key,
    nulls last.  Of the kinds only "mergesort" and "stable" are documented
    as stable; the tabs pass no [kind], so nothing is said of rows with
    equal keys. *)
Definition sort_values_contract (sv : sorter) : Prop :=
  forall (by_ : sort_by) (ascending : bool) (t : list Row),
    Permutation t (sv by_ ascending t) /\
    StronglySorted (row_le by_ ascending) (sv by_ ascending t).

(** Two sorts that meet the contract, for comparison: one keeps rows with
    equal keys in input order, the other reverses them.  Neither stands for
    the sort of pandas, which is [quicksort_values] below. *)
Definition stable_sort_values : sorter :=
  fun by_ ascending => insertion_sort (row_leb by_ ascending).

Definition tie_reversing_sort_values : sorter :=
  fun by_ ascending =>
    insertion_sort (fun x y => negb (row_leb by_ ascending y x)).

Definition same_key (by_ : sort_by) (ascending : bool) (a b : Row) : bool :=
  match row_compare by_ ascending a b with
  | Eq => true
  | _ => false
  end.

(** Stability: the rows of each key are in [after] in the order they have in
    [before]. *)
Definition ties_in_order (by_ : sort_by) (ascending : bool)
           (before after : list Row) : Prop :=
  forall r, filter (same_key by_ ascending r) after
            = filter (same_key by_ ascending r) before.

(** ** The default sort as pandas and NumPy carry it out

    [sort_values] on one column calls pandas' [nargsort], which sets the
    nulls apart, sorts the rest with [ndarray.argsort(kind="quicksort")]
    and puts the nulls last; for descending order it reverses the rows
    before and after.  NumPy's quicksort is the introsort of
    [npysort/quicksort.cpp] with the heap sort of [npysort/heapsort.cpp]
    behind it: a column of objects (Ticker) always takes it; for a column
    of floats a build with vector instructions takes another sort, which
    differs in the order of rows with equal keys only. *)

Section Npysort.

Variable A : Type.
(** [Tag::less(a, b)], or [cmp(a, b) < 0] of the generic sort. *)
Variable less : A -> A -> bool.

Fixpoint store (a : list A) (i : nat) (x : A) : list A :=
  match a, i with
  | [], _ => []
  | _ :: a', O => x :: a'
  | y :: a', S i' => y :: store a' i' x
  end.

Section Partition.

(** What a read outside the array gives; the sort makes none. *)
Variable d : A.

Definition elt (a : list A) (i : nat) : A := nth i a d.

Definition INTP_SWAP (a : list A) (i j : nat) : list A :=
  store (store a i (elt a j)) j (elt a i).

(** [do { ++pi; } while (less(v[*pi], vp));] *)
Fixpoint scan_up (fuel : nat) (a : list A) (vp : A) (pi : nat) : nat :=
  match fuel with
  | O => S pi
  | S fuel' =>
      if less (elt a (S pi)) vp then scan_up fuel' a vp (S pi) else S pi
  end.

(** [do { --pj; } while (less(vp, v[*pj]));] *)
Fixpoint scan_down (fuel : nat) (a : list A) (vp : A) (pj : nat) : nat :=
  match fuel with
  | O => pred pj
  | S fuel' =>
      if less vp (elt a (pred pj)) then scan_down fuel' a vp (pred pj)
      else pred pj
  end.

(** The loop [for (;;)] of the partition. *)
Fixpoint hoare (fuel : nat) (a : list A) (vp : A) (pi pj : nat)
  : list A * nat :=
  match fuel with
  | O => (a, pi)
  | S fuel' =>
      let pi := scan_up (List.length a) a vp pi in
      let pj := scan_down (List.length a) a vp pj in
      if (pj <=? pi)%nat then (a, pi)
      else hoare fuel' (INTP_SWAP a pi pj) vp pi pj
  end.

(** The partition of [a[pl..pr]], with [pl = 0]: the median of three, the
    pivot put at [pr - 1], the loop, the pivot put in its place [pi]. *)
Definition partition_at (a : list A) (pr : nat) : list A * nat :=
  let pl := 0%nat in
  let pm := (pl + Nat.div2 (pr - pl))%nat in
  let a := if less (elt a pm) (elt a pl) then INTP_SWAP a pm pl else a in
  let a := if less (elt a pr) (elt a pm) then INTP_SWAP a pr pm else a in
  let a := if less (elt a pm) (elt a pl) then INTP_SWAP a pm pl else a in
  let vp := elt a pm in
  let a := INTP_SWAP a pm (pr - 1) in
  let (a, pi) := hoare (List.length a) a vp pl (pr - 1) in
  (INTP_SWAP a pi (pr - 1), pi).

End Partition.

Definition npy_partition (a : list A) : list A * nat :=
  match a with
  | [] => ([], 0%nat)
  | d :: _ => partition_at d a (List.length a - 1)
  end.

(** The longest run of elements at the end of [l] that [vi] is less than,
    and what stands before it. *)
Fixpoint greater_end (vi : A) (l : list A) : list A * list A :=
  match l with
  | [] => ([], [])
  | e :: l' =>
      let (keep, moved) := greater_end vi l' in
      match keep with
      | [] => if less vi e then ([], e :: moved) else ([e], moved)
      | _ => (e :: keep, moved)
      end
  end.

(** The insertion sort of the small parts: each element in turn moves left
    past the elements it is less than. *)
Definition insert_back (sorted : list A) (vi : A) : list A :=
  let (keep, moved) := greater_end vi sorted in keep ++ vi :: moved.

Definition npy_insertion (a : list A) : list A := fold_left insert_back a [].

(** *** The heap sort the introsort falls back on ([npysort/heapsort.cpp]) *)

Section Heap.

Variable d : A.

(** [a = tosort - 1]: the heap is indexed from one. *)
Definition heap_get (a : list A) (k : nat) : A := nth (k - 1) a d.

Definition heap_set (a : list A) (k : nat) (x : A) : list A :=
  store a (k - 1) x.

(** The loop [for (i, j; j <= n;)] that lets [tmp] sink from [i], and the
    store [a[i] = tmp] after it. *)
Fixpoint sift (fuel : nat) (a : list A) (tmp : A) (i j n : nat) : list A :=
  match fuel with
  | O => heap_set a i tmp
  | S fuel' =>
      if (j <=? n)%nat then
        let j := if (j <? n)%nat && less (heap_get a j) (heap_get a (j + 1))
                 then (j + 1)%nat else j in
        if less tmp (heap_get a j)
        then sift fuel' (heap_set a i (heap_get a j)) tmp j (j + j) n
        else heap_set a i tmp
      else heap_set a i tmp
  end.

(** [for (l = n >> 1; l > 0; --l)] *)
Fixpoint heapify (l : nat) (a : list A) (n : nat) : list A :=
  match l with
  | O => a
  | S l' => heapify l' (sift n a (heap_get a l) l (l + l) n) n
  end.

(** [for (; n > 1;)] *)
Fixpoint sort_down (n : nat) (a : list A) : list A :=
  match n with
  | O => a
  | S n' =>
      if (1 <? n)%nat then
        let tmp := heap_get a n in
        let a := heap_set a n (heap_get a 1) in
        sort_down n' (sift n' a tmp 1 2 n')
      else a
  end.

Definition heapsort_at (a : list A) : list A :=
  let n := List.length a in
  sort_down n (heapify (Nat.div2 n) a n).

End Heap.

(** [npy_aheapsort] *)
Definition npy_aheapsort (a : list A) : list A :=
  match a with
  | [] => []
  | d :: _ => heapsort_at d a
  end.

(** The loop of [aquicksort] on one part of the array.  A part of more than
    [SMALL_QUICKSORT + 1 = 17] elements is partitioned; the loop goes on
    with the smaller side and leaves the larger one on the stack; a part
    taken from the stack is heap sorted when the depth is used up. *)
Fixpoint quick (fuel : nat) (cdepth : Z) (a : list A) : list A :=
  match fuel with
  | O => a
  | S fuel' =>
      if (17 <? List.length a)%nat then
        let (a', pi) := npy_partition a in
        let left := firstn pi a' in
        let pivot := firstn 1 (skipn pi a') in
        let right := skipn (S pi) a' in
        let cdepth := (cdepth - 1)%Z in
        let popped part := if (cdepth <? 0)%Z then npy_aheapsort part
                           else quick fuel' cdepth part in
        if (List.length left <? List.length right)%nat
        then quick fuel' cdepth left ++ pivot ++ popped right
        else popped left ++ pivot ++ quick fuel' cdepth right
      else npy_insertion a
  end.

(** [npy_aquicksort]: the depth allowed is twice the position of the
    highest bit of the length. *)
Definition npy_aquicksort (a : list A) : list A :=
  quick (List.length a) (2 * Z.of_nat (Nat.log2 (List.length a))) a.

End Npysort.

(** [a < b] on the keys of two rows that have one. *)
Definition row_less (by_ : sort_by) (a b : Row) : bool :=
  match row_compare by_ true a b with
  | Lt => true
  | _ => false
  end.

Definition has_key (by_ : sort_by) (r : Row) : bool :=
  match by_ with
  | ByProbUp => negb (f64_isnan (ProbUp r))
  | ByTicker | ByTickerDate =>
      match Ticker r with
      | Some _ => true
      | None => false
      end
  end.

(** pandas' [nargsort] with [na_position="last"], as the rows it selects. *)
Definition nargsort (by_ : sort_by) (ascending : bool) (t : list Row)
  : list Row :=
  let non_nans := filter (has_key by_) t in
  let nans := filter (fun r => negb (has_key by_ r)) t in
  let non_nans := if ascending then non_nans else rev non_nans in
  let sorted := npy_aquicksort (row_less by_) non_nans in
  (if ascending then sorted else rev sorted) ++ nans.

(** [sort_values] with the introsort.  Two columns are sorted by
    [np.lexsort], which is stable. *)
Definition quicksort_values : sorter :=
  fun by_ ascending t =>
    match by_ with
    | ByTickerDate => stable_sort_values by_ ascending t
    | _ => nargsort by_ ascending t
    end.

(** ** Filter, sort, limit (probability_tab.py 29-50, share_tab.py 138-159) *)

Definition upper_ascii (c : ascii) : ascii :=
  let n := nat_of_ascii c in
  if (97 <=? n)%nat && (n <=? 122)%nat then ascii_of_nat (n - 32) else c.

(** [str.upper] on the ASCII letters.  A string that holds any other
    character does not upper-case to "UP" or "DOWN", in Python or here, so
    the membership test below is exact. *)
Fixpoint upper (s : string) : string :=
  match s with
  | EmptyString => EmptyString
  | String c s' => String (upper_ascii c) (upper s')
  end.

(** [df["Signal"].astype(str).str.upper()] on one row.  [None] stands for
    the text of a value that is not a string ("NONE", "NAN", "<NA>", "TRUE",
    digits, "[...]", "{...}"): none of them is "UP" or "DOWN". *)
Definition Signal_u (r : Row) : option string :=
  match Signal r with
  | CObj (JStr s) => Some (upper s)
  | _ => None
  end.

Definition isin (u : option string) (values : list string) : bool :=
  match u with
  | Some s => existsb (String.eqb s) values
  | None => false
  end.

(** [limit_option]: an int (the case of a bool, which Python counts as an
    int, is left out), or anything else. *)
Inductive limit : Type :=
| LimitInt (n : Z)         (* isinstance(limit_option, int) *)
| LimitAll.                (* "All", or anything that is not an int *)

(** The arguments of both render functions.  [prob_range] is [Some] for a
    list or tuple of two numbers, as [float] reads them, and [None] for a
    value that is not a list or tuple of length two; a pair that [float]
    rejects is outside the model. *)
Record filters : Type := mkFilters {
  include_up : bool;
  include_down : bool;
  prob_range : option (f64 * f64);
  limit_option : limit;
  sort_option : string
}.

Definition signals_selected (include_up include_down : bool) : list string :=
  let signals :=
    (if include_up then ["UP"] else []) ++
    (if include_down then ["DOWN"] else []) in
  match signals with
  | [] => ["UP"; "DOWN"]
  | _ => signals
  end.

Definition signal_filter (f : filters) (df : list Row) : list Row :=
  filter (fun r => isin (Signal_u r)
                        (signals_selected (include_up f) (include_down f))) df.

(** [pd.to_numeric(work_df["ProbUp"], errors="coerce").fillna(-1)]: the
    column is float64 already, so only the NaN are replaced. *)
Definition fillna_minus_one (x : f64) : f64 :=
  if f64_isnan x then Fin (-1)%Q else x.

Definition range_bounds (f : filters) : f64 * f64 :=
  match prob_range f with
  | Some (pmin, pmax) => (pmin, pmax)
  | None => (Fin 0%Q, Fin 1%Q)
  end.

Definition range_filter (f : filters) (df : list Row) : list Row :=
  let (pmin, pmax) := range_bounds f in
  filter (fun r => let _p := fillna_minus_one (ProbUp r) in
                   f64_geb _p pmin && f64_leb _p pmax) df.

(** [DataFrame.head(n)]: the first [n] rows, or all but the last [-n]. *)
Definition head (n : Z) (df : list Row) : list Row :=
  if (0 <=? n)%Z then firstn (Z.to_nat n) df
  else firstn (List.length df - Z.to_nat (- n)) df.

Definition apply_limit (f : filters) (df : list Row) : list Row :=
  match limit_option f with
  | LimitInt n => head n df
  | LimitAll => df
  end.

(** The column and direction the chain of tests on [sort_option] selects
    (lines 43-48): anything but the two ProbUp options sorts by Ticker. *)
Definition sort_mode (f : filters) : sort_by * bool :=
  if String.eqb (sort_option f) "ProbUp descending" then (ByProbUp, false)
  else if String.eqb (sort_option f) "ProbUp ascending" then (ByProbUp, true)
       else (ByTicker, true).

Section Tabs.

Variable sort_values : sorter.

Definition sort_rows (f : filters) (df : list Row) : list Row :=
  let (by_, ascending) := sort_mode f in sort_values by_ ascending df.

Definition filter_sort_limit (f : filters) (df : list Row) : list Row :=
  apply_limit f (sort_rows f (range_filter f (signal_filter f df))).

(** [result_df] of [render_probability_tab]; [None] when the tab stops at
    the warning for an empty table. *)
Definition render_probability_tab (f : filters) (df : list Row)
  : option (list Row) :=
  match df with
  | [] => None
  | _ => Some (filter_sort_limit f df)
  end.

Definition dropna_Ticker (df : list Row) : list Row :=
  filter (fun r => match Ticker r with
                   | Some _ => true
                   | None => false
                   end) df.

Definition same_ticker (a b : Row) : bool :=
  match Ticker a, Ticker b with
  | Some x, Some y => String.eqb x y
  | _, _ => false
  end.

(** [groupby("Ticker", as_index=False).tail(1)]: the rows that are last in
    their group, in the order of the frame; null keys form no group. *)
Fixpoint groupby_Ticker_tail1 (df : list Row) : list Row :=
  match df with
  | [] => []
  | r :: rest =>
      match Ticker r with
      | None => groupby_Ticker_tail1 rest
      | Some _ =>
          if existsb (same_ticker r) rest then groupby_Ticker_tail1 rest
          else r :: groupby_Ticker_tail1 rest
      end
  end.

(** share_tab.py 132-135 *)
Definition latest_df (pred_df : list Row) : list Row :=
  groupby_Ticker_tail1 (dropna_Ticker (sort_values ByTickerDate true pred_df)).

(** [work_df] of [render_share_tab] after line 159. *)
Definition render_share_tab (f : filters) (pred_df : list Row)
  : option (list Row) :=
  match pred_df with
  | [] => None
  | _ => Some (filter_sort_limit f (latest_df pred_df))
  end.

End Tabs.

(** ** Regular expressions of classification_tab.py *)

(** A character of a Python string is a code point. *)
Definition char : Type := N.
Definition text : Type := list char.

Definition chars (s : string) : text :=
  map N_of_ascii (list_ascii_of_string s).

Definition unchars (t : text) : string :=
  string_of_list_ascii (map ascii_of_N t).

Definition in_range (lo hi c : N) : bool := (lo <=? c)%N && (c <=? hi)%N.

(** [\s] of a [str] pattern: the characters for which [str.isspace] holds. *)
Definition is_space (c : char) : bool :=
  in_range 9 13 c || in_range 28 32 c || (c =? 133)%N || (c =? 160)%N ||
  (c =? 5760)%N || in_range 8192 8202 c || (c =? 8232)%N || (c =? 8233)%N ||
  (c =? 8239)%N || (c =? 8287)%N || (c =? 12288)%N.

Definition is_digit (c : char) : bool := in_range 48 57 c.

Inductive charset : Type :=
| Lit (c : char)           (* the character itself *)
| Space                    (* \s *)
| Digit.                   (* [0-9]; \d on ASCII text *)

Definition mem (cs : charset) (c : char) : bool :=
  match cs with
  | Lit a => (a =? c)%N
  | Space => is_space c
  | Digit => is_digit c
  end.

Inductive item : Type :=
| One (cs : charset)
| Many (cs : charset) (lo : nat) (hi : option nat)   (* greedy cs{lo,hi} *)
| Open                     (* ( of group 1 *)
| Close.                   (* ) of group 1 *)

Definition regex : Type := list item.

Definition lit (s : string) : regex := map (fun c => One (Lit c)) (chars s).
Definition star (cs : charset) : item := Many cs 0 None.
Definition plus (cs : charset) : item := Many cs 1 None.
Definition opt (cs : charset) : item := Many cs 0 (Some 1).
Definition exactly (n : nat) (cs : charset) : item := Many cs n (Some n).

Definition room (hi : option nat) : bool :=
  match hi with
  | Some O => false
  | _ => true
  end.

(** A greedy repetition followed by the continuation [k]: as many characters
    as possible first, one fewer on each backtrack. *)
Fixpoint greedy (k : text -> option (text * text)) (cs : charset)
         (lo : nat) (hi : option nat) (s : text) : option (text * text) :=
  let stop := match lo with
              | O => k s
              | S _ => None
              end in
  match s with
  | c :: s' =>
      if mem cs c && room hi
      then match greedy k cs (pred lo) (option_map pred hi) s' with
           | Some res => Some res
           | None => stop
           end
      else stop
  | [] => stop
  end.

(** A match that starts at the head of [s]: group 1 and the text left after
    the match.  [opened] is the input as it was at the opening parenthesis,
    [grp] the group as captured so far. *)
Fixpoint match_here (r : regex) (s opened grp : text) : option (text * text) :=
  match r with
  | [] => Some (grp, s)
  | One cs :: r' =>
      match s with
      | c :: s' => if mem cs c then match_here r' s' opened grp else None
      | [] => None
      end
  | Many cs lo hi :: r' =>
      greedy (fun s' => match_here r' s' opened grp) cs lo hi s
  | Open :: r' => match_here r' s s grp
  | Close :: r' =>
      match_here r' s opened
                 (firstn (List.length opened - List.length s) opened)
  end.

(** [re.search(r, s)]: [m.group(1)] of the leftmost match. *)
Fixpoint search (r : regex) (s : text) : option text :=
  match match_here r s [] [] with
  | Some (g, _) => Some g
  | None =>
      match s with
      | [] => None
      | _ :: s' => search r s'
      end
  end.

Definition within (hi : option nat) (n : nat) : Prop :=
  match hi with
  | Some h => (n <= h)%nat
  | None => True
  end.

(** The matches a pattern admits, with no order among them: [run r s opened
    grp g rest] when [r] matches a prefix of [s] that leaves [rest] and
    group 1 ends as [g]. *)
Inductive run : regex -> text -> text -> text -> text -> text -> Prop :=
| run_nil : forall s opened grp, run [] s opened grp grp s
| run_one : forall cs c r s opened grp g rest,
    mem cs c = true -> run r s opened grp g rest ->
    run (One cs :: r) (c :: s) opened grp g rest
| run_many : forall cs lo hi r m s opened grp g rest,
    forallb (mem cs) m = true -> (lo <= List.length m)%nat ->
    within hi (List.length m) -> run r s opened grp g rest ->
    run (Many cs lo hi :: r) (m ++ s) opened grp g rest
| run_open : forall r s opened grp g rest,
    run r s s grp g rest -> run (Open :: r) s opened grp g rest
| run_close : forall r s opened grp g rest,
    run r s opened (firstn (List.length opened - List.length s) opened) g rest ->
    run (Close :: r) s opened grp g rest.

(** The pattern matches somewhere in the text. *)
Definition matches_in (r : regex) (s : text) : Prop :=
  exists pre s' g rest, s = pre ++ s' /\ run r s' [] [] g rest.

Definition paren_free (r : regex) : bool :=
  forallb (fun i => match i with
                    | Open | Close => false
                    | _ => true
                    end) r.

(** [([0-9]*\.?[0-9]+)] *)
Definition number_group : regex :=
  [Open; star Digit; opt (Lit 46%N); plus Digit; Close].

(** classification_tab.py 73-78 *)
Definition metric_patterns : list (string * regex) :=
  [ ("ROC-AUC", lit "ROC-AUC:" ++ [star Space] ++ number_group);
    ("Accuracy",
     lit "Accuracy" ++ [star Space] ++ lit ":" ++ [star Space] ++ number_group);
    ("Precision", lit "Precision:" ++ [star Space] ++ number_group);
    ("Recall",
     lit "Recall" ++ [star Space] ++ lit ":" ++ [star (Lit 32%N)]
       ++ number_group) ].

Definition digit_value (c : char) : Z := Z.of_N c - 48.

Definition digits_value (ds : text) : Z :=
  fold_left (fun acc c => acc * 10 + digit_value c)%Z ds 0%Z.

Fixpoint split_dot (s : text) : text * option text :=
  match s with
  | [] => ([], None)
  | c :: s' =>
      if (c =? 46)%N then ([], Some s')
      else let (a, b) := split_dot s' in (c :: a, b)
  end.

Section Metrics.

(** The double nearest to a rational, infinity when it is beyond the range
    of the doubles: [float] rounds the number its literal denotes. *)
Variable nearest_double : Q -> f64.

(** [float(s)] on decimal literals: digits, at most one point, at least one
    digit.  The value is the double nearest to the number the literal
    denotes.  The empty string and a lone point raise ValueError; other
    literals that Python reads are not modelled. *)
Definition py_float (s : text) : result f64 :=
  let (ip, rest) := split_dot s in
  let fp := match rest with
            | Some fp => fp
            | None => []
            end in
  if forallb is_digit ip && forallb is_digit fp then
    match ip ++ fp with
    | [] => Raises
    | ds => Returns (nearest_double
                       (Qmake (digits_value ds)
                              (Z.to_pos (10 ^ Z.of_nat (List.length fp)))))
    end
  else NotModelled.

(** Lines 79-83: [extracted_metrics], in insertion order. *)
Fixpoint extract_metrics (patterns : list (string * regex)) (raw_report : text)
  : result (list (string * f64)) :=
  match patterns with
  | [] => Returns []
  | (label, pattern) :: rest =>
      match search pattern raw_report with
      | Some g =>
          match py_float g with
          | Returns v =>
              match extract_metrics rest raw_report with
              | Returns m => Returns ((label, v) :: m)
              | Raises => Raises
              | NotModelled => NotModelled
              end
          | Raises => Raises
          | NotModelled => NotModelled
          end
      | None => extract_metrics rest raw_report
      end
  end.

Definition extracted_metrics (raw_report : text) : result (list (string * f64)) :=
  extract_metrics metric_patterns raw_report.

End Metrics.

(** What is assumed of the rounding where a property needs it: a number
    that is not negative rounds to a double that is not negative, or to
    infinity. *)
Definition rounds_to_nonnegative (nearest_double : Q -> f64) : Prop :=
  forall q : Q, (0 <= q)%Q ->
    nearest_double q = PosInf \/
    exists x : Q, nearest_double q = Fin x /\ (0 <= x)%Q.

(** The rounding of CPython's [float]: to the nearest binary64 number, a tie
    to the even significand, the subnormal numbers included, and to
    infinity from [2^1024 - 2^970] on. *)
Definition round_half_even (n d : Z) : Z :=
  let q := (n / d)%Z in
  match (2 * (n mod d) ?= d)%Z with
  | Lt => q
  | Eq => if Z.even q then q else (q + 1)%Z
  | Gt => (q + 1)%Z
  end.

(** [(n / d) / 2^e] as a fraction. *)
Definition scaled (n d e : Z) : Z * Z :=
  if (0 <=? e)%Z then (n, (d * 2 ^ e)%Z) else ((n * 2 ^ (- e))%Z, d).

(** The [e] with [2^e <= n / d < 2^(e+1)], for [n] and [d] positive. *)
Definition binade (n d : Z) : Z :=
  let e := (Z.log2 n - Z.log2 d)%Z in
  let (n', d') := scaled n d e in
  if (n' <? d')%Z then (e - 1)%Z else e.

(** [n / d], not negative, to 53 bits above [2^-1074]; [None] is an
    overflow. *)
Definition round_magnitude (n d : Z) : option Q :=
  if (n =? 0)%Z then Some (0 # 1)%Q
  else
    let e := Z.max (binade n d - 52) (-1074) in
    let (n', d') := scaled n d e in
    let m := round_half_even n' d' in
    if (0 <=? e)%Z
    then if (2 ^ 1024 <=? m * 2 ^ e)%Z then None
         else Some (inject_Z (m * 2 ^ e))
    else Some (Qmake m (Z.to_pos (2 ^ (- e)))).

Definition round_binary64 (q : Q) : f64 :=
  let n := Qnum q in
  let d := Zpos (Qden q) in
  if (0 <=? n)%Z
  then match round_magnitude n d with
       | Some x => Fin x
       | None => PosInf
       end
  else match round_magnitude (- n) d with
       | Some x => Fin (- x)%Q
       | None => NegInf
       end.

Fixpoint metric_get (label : string) (m : list (string * f64)) : option f64 :=
  match m with
  | [] => None
  | (l, v) :: m' => if String.eqb label l then Some v else metric_get label m'
  end.

(** ** Report-file selection (classification_tab.py 19-37) *)

Definition startswith (s p : string) : bool := String.prefix p s.

Definition endswith (s suffix : string) : bool :=
  (String.length suffix <=? String.length s)%nat &&
  String.eqb (substring (String.length s - String.length suffix)
                        (String.length suffix) s) suffix.

(** Line 20 *)
Definition is_report_file (f : string) : bool :=
  startswith f "Klassifikationsreport_" && endswith f ".txt".

Definition report_files (listing : list string) : list string :=
  filter is_report_file listing.

(** [Klassifikationsreport_(\d{8}_\d{6})\.txt] *)
Definition timestamp_regex : regex :=
  lit "Klassifikationsreport_"
    ++ [Open; exactly 8 Digit; One (Lit 95%N); exactly 6 Digit; Close]
    ++ lit ".txt".

(** A name of ASCII characters only.  [os.listdir] returns [str] names, and
    on a [str] the class [\d] holds every decimal digit of Unicode, the
    full-width and the Arabic-Indic digits among them; on a name of ASCII
    characters it is [[0-9]]. *)
Definition is_ascii (c : char) : bool := (c <? 128)%N.

Definition ascii_name (fname : string) : bool :=
  forallb is_ascii (chars fname).

(** Group 1 of the first match, [\d] read as [[0-9]]. *)
Definition ascii_timestamp (fname : string) : string :=
  match search timestamp_regex (chars fname) with
  | Some g => unchars g
  | None => ""
  end.

(** Lines 30-32.  What the pattern finds in a name with a character
    outside ASCII is not modelled. *)
Definition extract_timestamp (fname : string) : result string :=
  if ascii_name fname then Returns (ascii_timestamp fname) else NotModelled.

Definition text_eqb (a b : text) : bool :=
  (List.length a =? List.length b)%nat &&
  forallb (fun p => (fst p =? snd p)%N) (combine a b).

(** The words of the specification: the whole name is
    [Klassifikationsreport_<8 digits>_<6 digits>.txt]. *)
Definition report_name_pattern (f : string) : bool :=
  let t := chars f in
  (List.length t =? 41)%nat &&
  text_eqb (firstn 22 t) (chars "Klassifikationsreport_") &&
  forallb is_digit (firstn 8 (skipn 22 t)) &&
  text_eqb (firstn 1 (skipn 30 t)) (chars "_") &&
  forallb is_digit (firstn 6 (skipn 31 t)) &&
  text_eqb (skipn 37 t) (chars ".txt").

(** The fifteen characters [YYYYMMDD_HHMMSS] of such a name. *)
Definition embedded_timestamp (f : string) : string :=
  unchars (firstn 15 (skipn 22 (chars f))).

(** Python's [<] on the sort keys: every comparison with NaT is false. *)
Definition key_lt (a b : option Z) : bool :=
  match a, b with
  | Some x, Some y => (x <? y)%Z
  | _, _ => false
  end.

Definition has_key_date (A : Type) (p : option Z * A) : bool :=
  match fst p with
  | Some _ => true
  | None => false
  end.

(** No key of the list is below another one. *)
Definition unordered_keys (A : Type) (l : list (option Z * A)) : bool :=
  forallb (fun p => forallb (fun q => negb (key_lt (fst p) (fst q))) l) l.

(** [sorted(l, key=...)] on the decorated list.  [sorted] is stable, which
    fixes its result where [<] is a strict weak order on the keys: when no
    key is NaT, and when no key is below another one (the list then comes
    back as it is).  With NaT beside keys that differ, [<] is no such
    order and the result of CPython depends on the runs and merges of
    [list.sort], which differ between versions: not modelled. *)
Definition py_sorted (A : Type) (l : list (option Z * A))
  : result (list (option Z * A)) :=
  if forallb (@has_key_date A) l || unordered_keys l
  then Returns (insertion_sort (fun x y => negb (key_lt (fst y) (fst x))) l)
  else NotModelled.

Inductive selection : Type :=
| NoReportsFolder          (* warning "Reports folder not found" *)
| NoReportFiles            (* warning "No classification report files found" *)
| Selected (latest_file : string).

(** What [os.listdir(reports_dir)] does. *)
Inductive listdir_result : Type :=
| Listed (names : list string)
| FileNotFoundError
| OtherOSError.            (* NotADirectoryError, PermissionError, ... *)

Section Reports.

(** [pd.to_datetime(ts, format="%Y%m%d_%H%M%S")] on the fifteen characters
    [extract_timestamp] returns: the instant, or [None] when pandas
    rejects them (not a calendar date, out of its range) and raises. *)
Variable strptime : string -> option Z.

(** The sort key of a file; [Returns None] is NaT, which pandas gives for
    the empty string. *)
Definition to_datetime (ts : string) : result (option Z) :=
  if String.eqb ts "" then Returns None
  else match strptime ts with
       | Some t => Returns (Some t)
       | None => Raises
       end.

Fixpoint decorate (files : list string) : result (list (option Z * string)) :=
  match files with
  | [] => Returns []
  | f :: rest =>
      match extract_timestamp f with
      | Returns ts =>
          match to_datetime ts with
          | Returns k =>
              match decorate rest with
              | Returns l => Returns ((k, f) :: l)
              | Raises => Raises
              | NotModelled => NotModelled
              end
          | Raises => Raises
          | NotModelled => NotModelled
          end
      | Raises => Raises
      | NotModelled => NotModelled
      end
  end.

(** Lines 19-35 past the call of [os.listdir]: [listing] is what it
    returns, [None] when it raises FileNotFoundError, the one exception
    that line 21 catches. *)
Definition latest_report (listing : option (list string)) : result selection :=
  match listing with
  | None => Returns NoReportsFolder
  | Some names =>
      match report_files names with
      | [] => Returns NoReportFiles
      | f :: fs =>
          match decorate (f :: fs) with
          | Returns keyed =>
              match py_sorted keyed with
              | Returns sorted_files =>
                  Returns (Selected (snd (last sorted_files (None, f))))
              | Raises => Raises
              | NotModelled => NotModelled
              end
          | Raises => Raises
          | NotModelled => NotModelled
          end
      end
  end.

(** Lines 19-35 with the call of [os.listdir]: every other error of the
    call leaves the function. *)
Definition report_selection (listing : listdir_result) : result selection :=
  match listing with
  | Listed names => latest_report (Some names)
  | FileNotFoundError => latest_report None
  | OtherOSError => Raises
  end.

End Reports.

(** ** From the loaded frame to the rows the tabs read *)

Fixpoint cell_at (name : string) (cols : list string) (r : list cell)
  : option cell :=
  match cols, r with
  | c :: cols', x :: r' => if String.eqb c name then Some x else cell_at name cols' r'
  | _, _ => None
  end.

Definition isna (c : cell) : bool :=
  match c with
  | CObj JNull | CMissing | CNA | CTime None | CNum NaN => true
  | _ => false
  end.

(** One row of a loaded frame.  A Ticker that is neither a string nor null
    is not modelled: sorting such a column compares objects of different
    types. *)
Definition row_of (cols : list string) (i : nat) (r : list cell) : result Row :=
  match cell_at "Ticker" cols r, cell_at "Date" cols r,
        cell_at "ProbUp" cols r, cell_at "Signal" cols r with
  | Some tk, Some (CTime d), Some (CNum p), Some sg =>
      match tk with
      | CObj (JStr s) => Returns (mkRow i (Some s) d p sg)
      | _ => if isna tk then Returns (mkRow i None d p sg) else NotModelled
      end
  | _, _, _, _ => NotModelled
  end.

Fixpoint rows_from (cols : list string) (i : nat) (rs : list (list cell))
  : result (list Row) :=
  match rs with
  | [] => Returns []
  | r :: rs' =>
      match row_of cols i r, rows_from cols (S i) rs' with
      | Returns x, Returns xs => Returns (x :: xs)
      | _, _ => NotModelled
      end
  end.

Definition prediction_rows (df : DataFrame) : result (list Row) :=
  rows_from (columns df) 0 (rows df).

(** ** The three orders in words *)

(** [a] may stand before [b]: [b] has no ProbUp, or its ProbUp is at most
    that of [a]. *)
Definition ProbUp_descending (a b : Row) : bool :=
  f64_isnan (ProbUp b) || f64_leb (ProbUp b) (ProbUp a).

Definition ProbUp_ascending (a b : Row) : bool :=
  f64_isnan (ProbUp b) || f64_leb (ProbUp a) (ProbUp b).

Definition Ticker_ascending (a b : Row) : bool :=
  match Ticker a, Ticker b with
  | _, None => true
  | Some x, Some y => String.leb x y
  | None, Some _ => false
  end.

Definition in_order (le : Row -> Row -> bool) (t : list Row) : Prop :=
  StronglySorted (fun a b => le a b = true) t.

(** A sort that returns a table already in order as it is; every stable
    sort does. *)
Definition keeps_sorted (sv : sorter) : Prop :=
  forall (by_ : sort_by) (ascending : bool) (t : list Row),
    StronglySorted (row_le by_ ascending) t -> sv by_ ascending t = t.

(** No two rows of the table have the same sort key. *)
Definition distinct_keys (by_ : sort_by) (ascending : bool) (t : list Row)
  : Prop :=
  ForallOrdPairs (fun a b => row_compare by_ ascending a b <> Eq) t.

(** A limit that keeps a prefix: "All" or a non-negative integer. *)
Definition prefix_limit (l : limit) : Prop :=
  match l with
  | LimitInt n => (0 <= n)%Z
  | LimitAll => True
  end.

(** [Date a <= Date b] in the order of [sort_values]: NaT after every date. *)
Definition date_le_nulls_last (a b : option Z) : bool :=
  not_gt (cmp_nulls_last Z.compare true a b).

(** ** The range test in words *)

(** The value is a number that lies between the bounds, both included. *)
Definition within_range (pmin pmax : Q) (x : f64) : bool :=
  match x with
  | Fin q => Qle_bool pmin q && Qle_bool q pmax
  | _ => false
  end.

(** ** The entries of a list in words *)

(** The elements of a list that are objects, in order. *)
Fixpoint objects_of (es : list json) : list pydict :=
  match es with
  | [] => []
  | JDict d :: es' => d :: objects_of es'
  | _ :: es' => objects_of es'
  end.

(** ** The metric lines in words *)

Definition metric_labels : list string :=
  ["ROC-AUC"; "Accuracy"; "Precision"; "Recall"].

Definition pattern_of (label : string) : regex :=
  match find (fun lp => String.eqb label (fst lp)) metric_patterns with
  | Some lp => snd lp
  | None => []
  end.

(** Digits, an optional point, at least one digit. *)
Definition decimal (ip : text) (point : bool) (fp : text) : text :=
  ip ++ (if point then [46%N] else []) ++ fp.

Definition digits (s : text) : Prop := forallb is_digit s = true.
Definition whitespace (s : text) : Prop := forallb is_space s = true.
Definition blanks (s : text) : Prop := forallb (N.eqb 32) s = true.

(** A line [label ws1 : ws2 number] inside a text. *)
Definition metric_line (label : string) (ws1 ws2 number : text) : text :=
  chars label ++ ws1 ++ [58%N] ++ ws2 ++ number.

(** ** The loaded frame, cell by cell *)



(** The records [pd.DataFrame] is given, for the roots of the model. *)
Definition records_of (raw : json) : option (list pydict) :=
  match raw with
  | JDict d => Some (flat_map (fun kv => entry_records (fst kv) (snd kv)) d)
  | JList l => as_records l
  | JNull => Some []
  | _ => None
  end.

(** The cell of column [c] for one record before the coercions: the value
    of the key, NaN when another record has the key, pd.NA when none has. *)
Definition raw_cell (keys : list string) (c : string) (rec : pydict) : cell :=
  match dict_get c rec with
  | Some v => CObj v
  | None => if has_column c keys then CMissing else CNA
  end.

Definition loaded_columns (keys : list string) : list string :=
  keys ++ filter (fun c => negb (has_column c keys)) required_columns.

Definition loaded_cell (to_datetime_ms : cell -> option Z)
           (to_numeric : cell -> f64) (keys : list string)
           (c : string) (rec : pydict) : cell :=
  if String.eqb c "ProbUp" then CNum (to_numeric (raw_cell keys c rec))
  else if String.eqb c "Date" then CTime (to_datetime_ms (raw_cell keys c rec))
       else raw_cell keys c rec.

Definition loaded_frame (to_datetime_ms : cell -> option Z)
           (to_numeric : cell -> f64) (recs : list pydict) : DataFrame :=
  let keys := union_keys recs in
  mkFrame (loaded_columns keys)
          (map (fun rec => map (fun c => loaded_cell to_datetime_ms to_numeric
                                                     keys c rec)
                               (loaded_columns keys)) recs).

(** Frames given by a function of column and record. *)
Definition frame_by (g : string -> pydict -> cell) (cols : list string)
           (recs : list pydict) : DataFrame :=
  mkFrame cols (map (fun rec => map (fun c => g c rec) cols) recs).

(** A mapping from ticker to one record object, and the flat list of the
    same records. *)
Definition single_root (m : list (string * pydict)) : json :=
  JDict (map (fun kv => (fst kv, JDict (snd kv))) m).

Definition flat_single_root (m : list (string * pydict)) : json :=
  JList (map (fun kv => JDict (("Ticker", JStr (fst kv)) :: snd kv)) m).

(** ** The rows the pipeline keeps, in words *)

(** The row passes the signal filter and the range filter. *)
Definition passes (f : filters) (r : Row) : bool :=
  isin (Signal_u r) (signals_selected (include_up f) (include_down f)) &&
  (f64_geb (fillna_minus_one (ProbUp r)) (fst (range_bounds f)) &&
   f64_leb (fillna_minus_one (ProbUp r)) (snd (range_bounds f))).

(** The number of rows [head] keeps of [n] rows. *)
Definition limited (l : limit) (n : nat) : nat :=
  match l with
  | LimitAll => n
  | LimitInt k => if (0 <=? k)%Z then Nat.min (Z.to_nat k) n
                  else (n - Z.to_nat (- k))%nat
  end.

(** ** Price files (share_tab.py 20-59) *)

(** [s.replace(a, b)] for a one-character [a]. *)
Fixpoint replace_char (a : ascii) (b : string) (s : string) : string :=
  match s with
  | EmptyString => EmptyString
  | String c s' =>
      if Ascii.eqb c a then b ++ replace_char a b s'
      else String c (replace_char a b s')
  end.

(** [s.split(sep)[0]]: the part before the first [sep]. *)
Fixpoint split_first (sep : ascii) (s : string) : string :=
  match s with
  | EmptyString => EmptyString
  | String c s' => if Ascii.eqb c sep then EmptyString
                   else String c (split_first sep s')
  end.

(** The name cut at its last point. *)
Fixpoint last_dot_split (s : string) : option (string * string) :=
  match s with
  | EmptyString => None
  | String c s' =>
      match last_dot_split s' with
      | Some (root, ext) => Some (String c root, ext)
      | None => if Ascii.eqb c "." then Some (EmptyString, s) else None
      end
  end.

Fixpoint all_dots (s : string) : bool :=
  match s with
  | EmptyString => true
  | String c s' => Ascii.eqb c "." && all_dots s'
  end.

(** [os.path.splitext(p)[0]] for a name without a directory part: cut at
    the last point, unless only points precede it. *)
Definition splitext_root (p : string) : string :=
  match last_dot_split p with
  | Some (root, _) => if all_dots root then p else root
  | None => p
  end.

(** [os.path.join(a, b)] with the separator of POSIX. *)
Definition path_join (a b : string) : string :=
  if startswith b "/" then b
  else if String.eqb a "" || endswith a "/" then a ++ b
       else a ++ "/" ++ b.

Definition lower_ascii (c : ascii) : ascii :=
  let n := nat_of_ascii c in
  if (65 <=? n)%nat && (n <=? 90)%nat then ascii_of_nat (n + 32) else c.

(** [str.lower] on ASCII strings, for the examples. *)
Fixpoint lower_ASCII (s : string) : string :=
  match s with
  | EmptyString => EmptyString
  | String c s' => String (lower_ascii c) (lower_ASCII s')
  end.

(** The index: a dict from key to path, read with [get] only. *)
Definition price_index : Type := list (string * string).

Fixpoint index_get (k : string) (idx : price_index) : option string :=
  match idx with
  | [] => None
  | (k', p) :: idx' => if String.eqb k k' then Some p else index_get k idx'
  end.

(** [idx.setdefault(key, path)] *)
Definition setdefault (path : string) (idx : price_index) (key : string)
  : price_index :=
  match index_get key idx with
  | Some _ => idx
  | None => idx ++ [(key, path)]
  end.

Section PriceIndex.

(** [str.lower] *)
Variable lower : string -> string.

Definition is_csv (fname : string) : bool := endswith (lower fname) ".csv".

Definition stem_of (fname : string) : string := splitext_root fname.

Definition prefix_of (fname : string) : string := split_first "_" (stem_of fname).

(** The keys one file registers (lines 32-39).  The source holds them in a
    set; every key gets the same path, so their order does not show. *)
Definition index_keys (fname : string) : list string :=
  let stem := stem_of fname in
  let prefix := prefix_of fname in
  [ lower stem;
    lower prefix;
    lower (replace_char "-" "_" prefix);
    lower (replace_char "-" "" prefix);
    lower (replace_char "." "-" prefix);
    lower (replace_char "." "" prefix) ].

Definition register (prices_dir : string) (idx : price_index) (fname : string)
  : price_index :=
  if is_csv fname
  then fold_left (setdefault (path_join prices_dir fname)) (index_keys fname) idx
  else idx.

(** [listing] is [os.listdir(prices_dir)], [None] when [prices_dir] is not a
    directory. *)
Definition _build_price_index (prices_dir : string)
           (listing : option (list string)) : price_index :=
  match listing with
  | None => []
  | Some names => fold_left (register prices_dir) names []
  end.

(** Lines 48-54 *)
Definition ticker_candidates (ticker : string) : list string :=
  [ ticker;
    replace_char "-" "_" ticker;
    replace_char "-" "" ticker;
    replace_char "." "-" ticker;
    replace_char "." "" ticker ].

(** Lines 55-59: the first candidate whose entry is a non-empty path. *)
Fixpoint first_hit (candidates : list string) (price_idx : price_index)
  : option string :=
  match candidates with
  | [] => None
  | c :: rest =>
      match index_get (lower c) price_idx with
      | Some p => if String.eqb p "" then first_hit rest price_idx else Some p
      | None => first_hit rest price_idx
      end
  end.

Definition _resolve_price_path (ticker : string) (price_idx : price_index)
  : option string :=
  first_hit (ticker_candidates ticker) price_idx.

(** The file whose path the index holds for a key: the first file of the
    listing, among the CSV files, that registers it. *)
Definition registers (k : string) (fname : string) : bool :=
  is_csv fname && existsb (String.eqb k) (index_keys fname).

End PriceIndex.

(** ** Sidebar callbacks (app.py 10-16) *)

(** The truth value of a Python object, on the objects of the model. *)
Definition truthy (v : json) : bool :=
  match v with
  | JNull => false
  | JBool b => b
  | JInt z => negb (z =? 0)%Z
  | JFloat (Fin q) => negb (Qeq_bool q 0)
  | JFloat _ => true
  | JStr s => negb (String.eqb s "")
  | JList [] => false
  | JList _ => true
  | JDict [] => false
  | JDict _ => true
  end.

(** [not st.session_state.get(key)] *)
Definition not_get (key : string) (session_state : pydict) : bool :=
  match dict_get key session_state with
  | Some v => negb (truthy v)
  | None => true
  end.

Definition _global_up_changed (session_state : pydict) : pydict :=
  if not_get "global_include_up" session_state &&
     not_get "global_include_down" session_state
  then dict_set "global_include_down" (JBool true) session_state
  else session_state.

Definition _global_down_changed (session_state : pydict) : pydict :=
  if not_get "global_include_down" session_state &&
     not_get "global_include_up" session_state
  then dict_set "global_include_up" (JBool true) session_state
  else session_state.

(** One of the two boxes is ticked. *)
Definition one_selected (session_state : pydict) : bool :=
  negb (not_get "global_include_up" session_state) ||
  negb (not_get "global_include_down" session_state).

(** ** The signal as the tabs show it *)

(** What [_sig_to_emoji] returns: the literal of line 63, the literal of
    line 65, its argument, or the empty string. *)
Inductive shown_signal : Type :=
| ArrowUp
| ArrowDown
| AsIs (s : cell)
| Blank.

(** probability_tab.py 59-66 *)
Definition _sig_to_emoji (s : cell) : shown_signal :=
  match s with
  | CObj (JStr t) =>
      if String.eqb (upper t) "UP" then ArrowUp
      else if String.eqb (upper t) "DOWN" then ArrowDown
           else AsIs s
  | CObj JNull => Blank
  | _ => AsIs s
  end.

(** share_tab.py 177: [signal].  [pd.notna] of a list is an array, whose
    truth value the model leaves out; [None] stands for the text of a value
    that is not a string, as in [Signal_u]. *)
Definition signal_of (r : Row) : result (option string) :=
  match Signal r with
  | CObj (JList _) => NotModelled
  | s => Returns (if isna s then Some "" else Signal_u r)
  end.

Inductive arrow : Type :=
| GreenUp                  (* line 181 *)
| RedDown                  (* line 184 *)
| NoArrow.                 (* line 187 *)

(** share_tab.py 180-188 *)
Definition arrow_of (signal : option string) : arrow :=
  match signal with
  | Some s => if String.eqb s "UP" then GreenUp
              else if String.eqb s "DOWN" then RedDown
                   else NoArrow
  | None => NoArrow
  end.

Definition prediction_arrow (r : Row) : result arrow :=
  match signal_of r with
  | Returns signal => Returns (arrow_of signal)
  | Raises => Raises
  | NotModelled => NotModelled
  end.

(** ** Price tables (share_tab.py 8-18 and 207-256) *)

(** One row of a price file with the six columns, after the conversions of
    lines 12 and 17, which work cell by cell: the instant in nanoseconds,
    [None] for NaT, and the five numbers. *)
Record Bar : Type := mkBar {
  bar_Date : option Z;
  bar_Open : f64;
  bar_High : f64;
  bar_Low : f64;
  bar_Close : f64;
  bar_Volume : f64
}.

Definition Date_le (a b : Bar) : Prop :=
  date_le_nulls_last (bar_Date a) (bar_Date b) = true.

(** [dfp.sort_values("Date")], by its contract as for the predictions. *)
Definition Date_sorter : Type := list Bar -> list Bar.

Definition sort_by_Date_contract (sv : Date_sorter) : Prop :=
  forall t : list Bar, Permutation t (sv t) /\ StronglySorted Date_le (sv t).

Definition stable_sort_by_Date : Date_sorter :=
  insertion_sort (fun a b => date_le_nulls_last (bar_Date a) (bar_Date b)).

Definition dated (b : Bar) : bool :=
  match bar_Date b with
  | Some _ => true
  | None => false
  end.

(** Lines 12-13, on the converted rows. *)
Definition _load_prices (sort_values : Date_sorter) (dfp : list Bar) : list Bar :=
  filter dated (sort_values dfp).

(** Line 209: [prices.empty or prices["Date"].isna().all()] *)
Definition no_price_data (prices : list Bar) : bool :=
  match prices with
  | [] => true
  | _ => forallb (fun b => negb (dated b)) prices
  end.

(** The dates of the column that are not NaT. *)
Definition Dates (prices : list Bar) : list Z :=
  flat_map (fun b => match bar_Date b with
                     | Some d => [d]
                     | None => []
                     end) prices.

(** [prices["Date"].min()] and [.max()]: NaT is skipped. *)
Definition Date_min (prices : list Bar) : option Z :=
  match Dates prices with
  | [] => None
  | d :: ds => Some (fold_left Z.min ds d)
  end.

Definition Date_max (prices : list Bar) : option Z :=
  match Dates prices with
  | [] => None
  | d :: ds => Some (fold_left Z.max ds d)
  end.


(** [int(s)] on a string of digits; the empty string raises ValueError, the
    other literals Python reads (sign, blanks, underscores) are left out. *)
Definition py_int (s : string) : result Z :=
  match chars s with
  | [] => Raises
  | ds => if forallb is_digit ds then Returns (digits_value ds) else NotModelled
  end.

(** [Timestamp.to_pydatetime()] and back through [pd.to_datetime]: a
    [datetime] holds microseconds, the nanoseconds are dropped. *)
Definition to_pydatetime (t : Z) : Z := (t - t mod 1000)%Z.

Section PriceWindow.

(** [max_d - pd.DateOffset(months=n)], [max_d - pd.DateOffset(years=n)] and
    [pd.Timestamp(year=max_d.year, month=1, day=1, tz=max_d.tz)]; [None]
    when the instant is outside the range of a [Timestamp] and pandas
    raises OutOfBoundsDatetime. *)
Variable minus_months : Z -> Z -> option Z.
Variable minus_years : Z -> Z -> option Z.
Variable jan1 : Z -> option Z.

(** [max(t, min_d)] where computing [t] may have raised. *)
Definition max_with (t : option Z) (min_d : Z) : result Z :=
  match t with
  | Some x => Returns (Z.max x min_d)
  | None => Raises
  end.

(** Lines 237-247 *)
Definition win_start (preset : string) (min_d max_d : Z) : result Z :=
  if endswith preset "M" then
    match py_int (replace_char "M" "" preset) with
    | Returns months => max_with (minus_months max_d months) min_d
    | Raises => Raises
    | NotModelled => NotModelled
    end
  else if String.eqb preset "YTD" then max_with (jan1 max_d) min_d
  else if endswith preset "Y" then
    match py_int (replace_char "Y" "" preset) with
    | Returns years => max_with (minus_years max_d years) min_d
    | Raises => Raises
    | NotModelled => NotModelled
    end
  else Returns min_d.


(** Line 253 *)
Definition in_window (start_d end_d : Z) (b : Bar) : bool :=
  match bar_Date b with
  | Some d => (start_d <=? d)%Z && (d <=? end_d)%Z
  | None => false
  end.

(** Lines 215-254: [win_full], for prices that passed the test of line
    209. *)
Definition price_window (preset : string) (prices : list Bar)
  : result (list Bar) :=
  match Date_min prices, Date_max prices with
  | Some min_d, Some max_d =>
      match win_start preset min_d max_d with
      | Returns start =>
          Returns (filter dated
                     (filter (in_window (to_pydatetime start)
                                        (to_pydatetime max_d)) prices))
      | Raises => Raises
      | NotModelled => NotModelled
      end
  | _, _ => NotModelled
  end.

End PriceWindow.

(** Both rows are dated and the first is not later than the second. *)
Definition by_date (a b : Bar) : Prop :=
  match bar_Date a, bar_Date b with
  | Some x, Some y => (x <= y)%Z
  | _, _ => False
  end.

(** The pattern of a metric matched somewhere in the report. *)
Definition found (pattern : regex) (raw_report : text) : bool :=
  match search pattern raw_report with
  | Some _ => true
  | None => false
  end.

(** ** Feature importances (classification_tab.py 95-110) *)

Fixpoint lstrip (s : text) : text :=
  match s with
  | c :: s' => if is_space c then lstrip s' else s
  | [] => []
  end.

Definition rstrip (s : text) : text := rev (lstrip (rev s)).

(** [s.strip()] *)
Definition strip (s : text) : text := rstrip (lstrip s).

(** [s.split()]: the maximal runs of characters that are not whitespace.
    [word] is the run read so far. *)
Fixpoint split_from (word : text) (s : text) : list text :=
  match s with
  | [] => match word with
          | [] => []
          | _ => [word]
          end
  | c :: s' =>
      if is_space c
      then match word with
           | [] => split_from [] s'
           | _ => word :: split_from [] s'
           end
      else split_from (word ++ [c]) s'
  end.

Definition split_ws (s : text) : list text := split_from [] s.

(** [sep.join(l)] *)
Fixpoint join (sep : text) (l : list text) : text :=
  match l with
  | [] => []
  | [w] => w
  | w :: l' => w ++ sep ++ join sep l'
  end.

(** [s.startswith(p)] and [p in s] on texts. *)
Fixpoint text_startswith (s p : text) : bool :=
  match p, s with
  | [], _ => true
  | a :: p', c :: s' => (a =? c)%N && text_startswith s' p'
  | _ :: _, [] => false
  end.

Fixpoint text_contains (needle s : text) : bool :=
  text_startswith s needle ||
  match s with
  | [] => false
  | _ :: s' => text_contains needle s'
  end.

(** [t.isdigit()] and, where it holds, [int(t)].  A token with an ASCII
    character that is no digit fails [isdigit]; a token of ASCII digits is
    read by [int], up to the 4300 digits CPython converts by default.
    Digits beyond ASCII, which [isdigit] accepts and [int] may reject, and
    longer tokens are left out. *)
Definition digit_token (t : text) : result (option Z) :=
  if existsb (fun c => (c <? 128)%N && negb (is_digit c)) t then Returns None
  else if forallb is_digit t then
         match t with
         | [] => Returns None
         | _ => if (List.length t <=? 4300)%nat
                then Returns (Some (digits_value t))
                else NotModelled
         end
       else NotModelled.

Definition is_empty (s : text) : bool :=
  match s with
  | [] => true
  | _ => false
  end.

(** Lines 99-107, on the lines after the header. *)
Fixpoint importance_lines (lines : list text) : result (list (text * Z)) :=
  match lines with
  | [] => Returns []
  | line :: rest =>
      let ln := strip line in
      if is_empty ln || text_startswith ln (chars "dtype:") then Returns []
      else
        let parts := split_ws ln in
        if (2 <=? List.length parts)%nat then
          match digit_token (last parts []) with
          | Returns (Some importance_val) =>
              match importance_lines rest with
              | Returns l =>
                  Returns ((join (chars " ") (removelast parts), importance_val)
                             :: l)
              | Raises => Raises
              | NotModelled => NotModelled
              end
          | Returns None => importance_lines rest
          | Raises => Raises
          | NotModelled => NotModelled
          end
        else importance_lines rest
  end.

(** Line 95: the lines after the first one that holds the header. *)
Fixpoint after_header (lines : list text) : option (list text) :=
  match lines with
  | [] => None
  | ln :: rest =>
      if text_contains (chars "Feature Importances") ln then Some rest
      else after_header rest
  end.

(** [importance_lines] as line 108 finds it; it is empty when the report
    has no header. *)
Definition feature_importances (lines : list text) : result (list (text * Z)) :=
  match after_header lines with
  | Some body => importance_lines body
  | None => Returns []
  end.

(** A word: characters, at least one, none of them whitespace. *)
Definition word (w : text) : Prop :=
  w <> [] /\ forallb (fun c => negb (is_space c)) w = true.

(** A line of the listing: the name, its words one space apart, and the
    importance in digits, with whitespace before, between and after. *)
Definition feature_line (indent : text) (name_words : list text)
           (gap importance trail : text) : text :=
  indent ++ join (chars " ") name_words ++ gap ++ importance ++ trail.

(** A line at which the listing ends. *)
Definition closing_line (line : text) : bool :=
  is_empty (strip line) || text_startswith (strip line) (chars "dtype:").

(** One entry of a listing as the report prints it. *)
Record listed : Type := mkListed {
  indent : text;
  name_words : list text;
  gap : text;
  importance : text;
  trail : text
}.

Definition listed_line (x : listed) : text :=
  feature_line (indent x) (name_words x) (gap x) (importance x) (trail x).

Definition listed_row (x : listed) : text * Z :=
  (join (chars " ") (name_words x), digits_value (importance x)).

(** The name has a word and does not begin with [dtype:]; name and
    importance are apart; the importance is a number of at most 4300
    digits. *)
Definition well_laid (x : listed) : Prop :=
  whitespace (indent x) /\
  name_words x <> [] /\ Forall word (name_words x) /\
  text_startswith (hd [] (name_words x)) (chars "dtype:") = false /\
  gap x <> [] /\ whitespace (gap x) /\
  importance x <> [] /\ digits (importance x) /\
  (List.length (importance x) <= 4300)%nat /\
  whitespace (trail x).

(** ** Sample data *)

Definition sample_row (i : nat) (tk : string) (d : option Z) (p : Q)
           (sg : string) : Row :=
  mkRow i (Some tk) d (Fin p) (CObj (JStr sg)).

Definition all_rows (so : string) : filters :=
  mkFilters true true (Some (Fin 0%Q, Fin 1%Q)) LimitAll so.

(** A stand-in for the parse of pandas in examples: the fourteen digits
    read as one number, which orders valid timestamps as time does. *)
Definition digits_key (ts : string) : option Z :=
  Some (digits_value (filter is_digit (chars ts))).

(** Date offsets for the examples, in nanoseconds since 1970: months of
    thirty days, years of 365 days, and nothing before the first instant of
    a [Timestamp]. *)
Definition day : Z := 86400000000000%Z.

Definition in_Timestamp_range (t : Z) : option Z :=
  if (- (2 ^ 63 - 1) <=? t)%Z then Some t else None.

Definition sample_minus_days (days : Z) (d n : Z) : option Z :=
  in_Timestamp_range (d - n * days * day).

Definition sample_jan1 (d : Z) : option Z :=
  in_Timestamp_range (d - d mod (365 * day)).

(** A report name whose year starts with the full-width digit two, U+FF12,
    in UTF-8. *)
Definition fullwidth_name : string :=
  ("Klassifikationsreport_"
     ++ String "239" (String "188" (String "146" "0240101_120000.txt")))%string.

(** * Properties *)

Unset Implicit Arguments.

(** ** Dictionaries *)

Lemma dict_get_none_iff (k : string) (d : pydict) :
  dict_get k d = None <-> ~ In k (dict_keys d).
Proof.
  induction d as [|[k' v] d IH]; simpl.
  - tauto.
  - destruct (String.eqb_spec k k') as [->|Hne].
    + split; [discriminate | intros H; exfalso; apply H; now left].
    + rewrite IH. split.
      * intros H [E|HIn]; [now apply Hne | now apply H].
      * intros H HIn. apply H. now right.
Qed.

Lemma dict_set_fresh (k : string) (v : json) (d : pydict) :
  ~ In k (dict_keys d) -> dict_set k v d = d ++ [(k, v)].
Proof.
  induction d as [|[k' v'] d IH]; simpl; intros H.
  - reflexivity.
  - destruct (String.eqb_spec k k') as [->|Hne].
    + exfalso. apply H. now left.
    + rewrite IH; [reflexivity | intros HIn; apply H; now right].
Qed.

Lemma dict_get_set_same (k : string) (v : json) (d : pydict) :
  dict_get k (dict_set k v d) = Some v.
Proof.
  induction d as [|[k' v'] d IH]; simpl.
  - now rewrite String.eqb_refl.
  - destruct (String.eqb_spec k k') as [->|Hne]; simpl.
    + now rewrite String.eqb_refl.
    + destruct (String.eqb_spec k k'); [contradiction | exact IH].
Qed.

Lemma dict_get_set_other (k k0 : string) (v : json) (d : pydict) :
  k <> k0 -> dict_get k (dict_set k0 v d) = dict_get k d.
Proof.
  intros Hne. induction d as [|[k' v'] d IH]; simpl.
  - destruct (String.eqb_spec k k0); [contradiction | reflexivity].
  - destruct (String.eqb_spec k0 k') as [->|Hne']; simpl.
    + destruct (String.eqb_spec k k'); [contradiction | reflexivity].
    + now rewrite IH.
Qed.

(** Merging a dictionary whose keys are all new appends it. *)
Lemma dict_update_fresh (e d : pydict) :
  wf_dict e ->
  (forall k, In k (dict_keys e) -> ~ In k (dict_keys d)) ->
  dict_update d e = d ++ e.
Proof.
  unfold dict_update, wf_dict. revert d.
  induction e as [|[k v] e IH]; simpl; intros d Hnd Hfresh.
  - now rewrite app_nil_r.
  - inversion Hnd as [|? ? Hk Hnd']; subst.
    rewrite (dict_set_fresh k v d) by (apply Hfresh; now left).
    rewrite IH; [now rewrite <- app_assoc | exact Hnd' |].
    intros k0 Hk0 HIn. unfold dict_keys in HIn.
    rewrite map_app in HIn. apply in_app_or in HIn.
    destruct HIn as [HIn|[<-|[]]].
    + apply (Hfresh k0); [now right | exact HIn].
    + now apply Hk.
Qed.

(** After [{**d, **e}] a key of [e] has the value [e] gives it. *)
Lemma dict_get_update (k : string) (e d : pydict) (v : json) :
  wf_dict e -> dict_get k e = Some v -> dict_get k (dict_update d e) = Some v.
Proof.
  unfold dict_update, wf_dict. revert d.
  induction e as [|[k' v'] e IH]; simpl; intros d Hnd Hget.
  - discriminate.
  - inversion Hnd as [|? ? Hk Hnd']; subst.
    destruct (String.eqb_spec k k') as [->|Hne].
    + injection Hget as ->.
      assert (Hkeep : forall e0 d0, ~ In k' (dict_keys e0) ->
                dict_get k' (fold_left (fun acc kv => dict_set (fst kv) (snd kv) acc) e0 d0)
                = dict_get k' d0).
      { induction e0 as [|[k1 v1] e0 IH0]; simpl; intros d0 Hn.
        - reflexivity.
        - rewrite IH0 by (intros H; apply Hn; now right).
          apply dict_get_set_other. intros ->. apply Hn. now left. }
      rewrite Hkeep by exact Hk. apply dict_get_set_same.
    + now apply IH.
Qed.

Lemma with_ticker_fresh (tk : string) (r : pydict) :
  wf_dict r -> dict_get "Ticker" r = None ->
  with_ticker tk r = ("Ticker", JStr tk) :: r.
Proof.
  intros Hwf Hnone. unfold with_ticker.
  rewrite dict_update_fresh; [reflexivity | exact Hwf |].
  intros k Hk [<-|[]]. now apply dict_get_none_iff in Hnone.
Qed.

(** ** The prediction loader *)

Lemma as_records_dicts (recs : list pydict) :
  as_records (map JDict recs) = Some recs.
Proof.
  induction recs as [|d recs IH]; simpl; [reflexivity | now rewrite IH].
Qed.

Lemma entry_records_list_of_dicts (tk : string) (rs : list pydict) :
  entry_records tk (JList (map JDict rs)) = map (with_ticker tk) rs.
Proof.
  simpl. induction rs as [|r rs IH]; simpl; [reflexivity | now rewrite IH].
Qed.

Lemma normalize_nested_root (m : list (string * list pydict)) :
  (forall tk rs r, In (tk, rs) m -> In r rs ->
                   wf_dict r /\ dict_get "Ticker" r = None) ->
  normalize_root (nested_root m) = flat_root m.
Proof.
  intros Hm. unfold normalize_root, nested_root, flat_root. f_equal.
  induction m as [|[tk rs] m IH]; [reflexivity |].
  cbn [map flat_map fst snd].
  rewrite map_app. f_equal.
  - rewrite entry_records_list_of_dicts, map_map.
    apply map_ext_in. intros r Hr.
    destruct (Hm tk rs r (or_introl eq_refl) Hr) as [Hwf Hnone].
    now rewrite with_ticker_fresh.
  - apply IH. intros tk0 rs0 r H1 H2. exact (Hm tk0 rs0 r (or_intror H1) H2).
Qed.

Lemma flat_root_records (m : list (string * list pydict)) :
  exists recs, flat_root m = JList (map JDict recs).
Proof.
  unfold flat_root.
  exists (flat_map (fun kv => map (fun r => ("Ticker", JStr (fst kv)) :: r)
                                   (snd kv)) m).
  f_equal. induction m as [|[tk rs] m IH]; [reflexivity |].
  cbn [map flat_map fst snd].
  rewrite map_app, map_map. f_equal. exact IH.
Qed.

(** C1.  A predictions file whose root maps each ticker to a list of record
    objects and a file whose root is the flat list of the same records, each
    with its ticker as an explicit Ticker field, load to the same frame:
    same columns, same rows, same values. *)
Theorem load_predictions_nested_eq_flat :
  forall (to_datetime_ms : cell -> option Z) (to_numeric : cell -> f64)
         (fs : filesystem) (nested_path flat_path : string)
         (m : list (string * list pydict)),
    (forall tk rs r, In (tk, rs) m -> In r rs ->
                     wf_dict r /\ dict_get "Ticker" r = None) ->
    fs nested_path = Some (Json (nested_root m)) ->
    fs flat_path = Some (Json (flat_root m)) ->
    exists df,
      load_predictions to_datetime_ms to_numeric fs nested_path = Returns df /\
      load_predictions to_datetime_ms to_numeric fs flat_path = Returns df.
Proof.
  intros to_dt to_num fs p1 p2 m Hm H1 H2.
  unfold load_predictions. rewrite H1, H2.
  rewrite (normalize_nested_root m Hm).
  destruct (flat_root_records m) as [recs Hrecs].
  rewrite Hrecs. simpl normalize_root. unfold DataFrame_of.
  rewrite as_records_dicts. eexists. split; reflexivity.
Qed.

Lemma load_predictions_nested_eq_flat_witness :
  let record := [("Date", JInt 0); ("ProbUp", JFloat (Fin (7 # 10)));
                 ("Signal", JStr "UP")] in
  let fs := fun p => if String.eqb p "nested.json"
                     then Some (Json (nested_root [("A", [record])]))
                     else Some (Json (flat_root [("A", [record])])) in
  exists df,
    load_predictions (fun _ => None) (fun _ => NaN) fs "nested.json" = Returns df /\
    load_predictions (fun _ => None) (fun _ => NaN) fs "flat.json" = Returns df.
Proof.
  intros record fs.
  apply (@load_predictions_nested_eq_flat (fun _ => None) (fun _ => NaN) fs
           "nested.json" "flat.json" [("A", [record])]).
  - intros tk rs r [E|[]] Hr. injection E as <- <-.
    destruct Hr as [<-|[]]. split; [|reflexivity].
    unfold wf_dict, record. simpl.
    repeat constructor; simpl; intuition discriminate.
  - reflexivity.
  - reflexivity.
Defined.

(** The frame both files of section 8.1 load to, whatever the coercions. *)
Example load_predictions_example
        (to_datetime_ms : cell -> option Z) (to_numeric : cell -> f64) :
  let record := [("Date", JInt 0); ("ProbUp", JFloat (Fin (7 # 10)));
                 ("Signal", JStr "UP")] in
  let expected :=
    Returns (mkFrame ["Ticker"; "Date"; "ProbUp"; "Signal"]
               [[CObj (JStr "A"); CTime (to_datetime_ms (CObj (JInt 0)));
                 CNum (to_numeric (CObj (JFloat (Fin (7 # 10)))));
                 CObj (JStr "UP")]]) in
  load_predictions to_datetime_ms to_numeric
    (fun _ => Some (Json (JDict [("A", JList [JDict record])]))) "p" = expected /\
  load_predictions to_datetime_ms to_numeric
    (fun _ => Some (Json (JList [JDict (("Ticker", JStr "A") :: record)]))) "p"
  = expected.
Proof.
  split; reflexivity.
Qed.

(** C5.  Called on a path where no file exists, the loader returns the
    empty table whose columns are Ticker, Date, ProbUp, Signal. *)
Theorem load_predictions_missing_file :
  forall (to_datetime_ms : cell -> option Z) (to_numeric : cell -> f64)
         (fs : filesystem) (json_path : string),
    fs json_path = None ->
    load_predictions to_datetime_ms to_numeric fs json_path
    = Returns (mkFrame ["Ticker"; "Date"; "ProbUp"; "Signal"] []).
Proof.
  intros to_dt to_num fs p Hmissing.
  unfold load_predictions. now rewrite Hmissing.
Qed.

Lemma load_predictions_missing_file_witness :
  load_predictions (fun _ => None) (fun _ => NaN) (fun _ => None)
                   "results_stock_prediction.json"
  = Returns (mkFrame ["Ticker"; "Date"; "ProbUp"; "Signal"] []).
Proof.
  apply (@load_predictions_missing_file (fun _ => None) (fun _ => NaN)
           (fun _ => None) "results_stock_prediction.json").
  reflexivity.
Defined.

Lemma entry_records_in_list (tk : string) (es : list json) (e : pydict) :
  In (JDict e) es -> In (with_ticker tk e) (entry_records tk (JList es)).
Proof.
  intros HIn. simpl. apply in_flat_map. exists (JDict e).
  split; [exact HIn | now left].
Qed.

Lemma entry_records_no_dicts (tk : string) (es : list json) :
  (forall d, ~ In (JDict d) es) -> entry_records tk (JList es) = [].
Proof.
  intros Hes. simpl. induction es as [|e es IH]; simpl; [reflexivity |].
  rewrite IH by (intros d Hd; apply (Hes d); now right).
  destruct e; try reflexivity. exfalso. apply (Hes d). now left.
Qed.

Lemma entry_records_objects (tk : string) (es : list json) :
  entry_records tk (JList es) = map (with_ticker tk) (objects_of es).
Proof.
  cbn [entry_records]. induction es as [|e es IH]; [reflexivity |].
  cbn [flat_map objects_of]. rewrite IH. now destruct e.
Qed.

Lemma objects_of_app (es1 es2 : list json) :
  objects_of (es1 ++ es2) = objects_of es1 ++ objects_of es2.
Proof.
  induction es1 as [|e es1 IH]; [reflexivity |].
  cbn [app objects_of]. rewrite IH. now destruct e.
Qed.

Lemma normalize_root_entry (root1 root2 : pydict) (tk : string) (v w : json) :
  entry_records tk v = entry_records tk w ->
  normalize_root (JDict (root1 ++ (tk, v) :: root2))
  = normalize_root (JDict (root1 ++ (tk, w) :: root2)).
Proof.
  intros E. cbn [normalize_root]. rewrite !flat_map_app. cbn [flat_map fst snd].
  now rewrite E.
Qed.

(** C10.  Under a key [tk] of a root mapping, an entry that has a Ticker
    field of its own (the single object, or an object of the list) is emitted
    with that value as its Ticker, not with [tk].  A list emits one record
    for each of its elements that is an object, in order, and nothing else:
    an element that is no object can be struck from the file without any
    change of the records.  A value that is neither an object nor a list
    emits nothing: its key can be struck from the file. *)
Theorem entry_records_own_ticker :
  forall (tk : string),
    (forall e v, wf_dict e -> dict_get "Ticker" e = Some v ->
                 entry_records tk (JDict e) = [with_ticker tk e] /\
                 dict_get "Ticker" (with_ticker tk e) = Some v) /\
    (forall es e v, wf_dict e -> dict_get "Ticker" e = Some v ->
                    In (JDict e) es ->
                    In (with_ticker tk e) (entry_records tk (JList es)) /\
                    dict_get "Ticker" (with_ticker tk e) = Some v) /\
    (forall entries, (forall d, entries <> JDict d) ->
                     (forall l, entries <> JList l) ->
                     entry_records tk entries = []) /\
    (forall es, (forall d, ~ In (JDict d) es) ->
                entry_records tk (JList es) = []) /\
    (forall es, entry_records tk (JList es)
                = map (with_ticker tk) (objects_of es)) /\
    (forall (root1 root2 : pydict) (es1 es2 : list json) (e : json),
        (forall d, e <> JDict d) ->
        normalize_root (JDict (root1 ++ (tk, JList (es1 ++ e :: es2)) :: root2))
        = normalize_root (JDict (root1 ++ (tk, JList (es1 ++ es2)) :: root2))) /\
    (forall (root1 root2 : pydict) (entries : json),
        (forall d, entries <> JDict d) -> (forall l, entries <> JList l) ->
        normalize_root (JDict (root1 ++ (tk, entries) :: root2))
        = normalize_root (JDict (root1 ++ root2))).
Proof.
  intros tk.
  assert (Hscalar : forall entries, (forall d, entries <> JDict d) ->
                      (forall l, entries <> JList l) ->
                      entry_records tk entries = []).
  { intros entries Hd Hl. destruct entries; try reflexivity.
    - now destruct (Hl l).
    - now destruct (Hd d). }
  split; [intros e v Hwf Hv; split; [reflexivity | now apply dict_get_update] |].
  split.
  { intros es e v Hwf Hv HIn.
    split; [now apply entry_records_in_list | now apply dict_get_update]. }
  split; [exact Hscalar |].
  split; [apply entry_records_no_dicts |].
  split; [apply entry_records_objects |].
  split.
  - intros root1 root2 es1 es2 e He. apply normalize_root_entry.
    rewrite !entry_records_objects, !objects_of_app. do 2 f_equal.
    destruct e; try reflexivity. now destruct (He d).
  - intros root1 root2 entries Hd Hl. cbn [normalize_root].
    rewrite !flat_map_app. cbn [flat_map fst snd].
    now rewrite (Hscalar entries Hd Hl).
Qed.

Lemma entry_records_own_ticker_witness :
  let e := [("Ticker", JStr "B"); ("ProbUp", JFloat (Fin (1 # 2)))] in
  dict_get "Ticker" (with_ticker "A" e) = Some (JStr "B") /\
  In (with_ticker "A" e) (entry_records "A" (JList [JInt 3; JDict e])) /\
  entry_records "A" (JStr "x") = [] /\
  entry_records "A" (JList [JInt 3; JStr "y"; JNull]) = [] /\
  normalize_root (JDict [("A", JList [JInt 3; JDict e]); ("C", JStr "x")])
  = normalize_root (JDict [("A", JList [JDict e]); ("C", JStr "x")]) /\
  normalize_root (JDict [("A", JList [JDict e]); ("C", JStr "x")])
  = normalize_root (JDict [("A", JList [JDict e])]).
Proof.
  intros e.
  destruct (entry_records_own_ticker "A")
    as [Hobj [Hlist [Hscalar [Hnodict [_ [Hstrike _]]]]]].
  destruct (entry_records_own_ticker "C") as [_ [_ [_ [_ [_ [_ Hkey]]]]]].
  assert (Hwf : wf_dict e).
  { unfold wf_dict, e. simpl. repeat constructor; simpl; intuition discriminate. }
  split; [apply (Hobj e (JStr "B") Hwf eq_refl) |].
  split; [apply (Hlist [JInt 3; JDict e] e (JStr "B") Hwf eq_refl); simpl; tauto |].
  split; [apply Hscalar; intros; discriminate |].
  split; [apply Hnodict; intros d [H|[H|[H|[]]]]; discriminate |].
  split.
  - apply (Hstrike [] [("C", JStr "x")] [] [JDict e] (JInt 3)).
    intros d. discriminate.
  - apply (Hkey [("A", JList [JDict e])] [] (JStr "x")); intros; discriminate.
Defined.

(** ** Comparisons that order their arguments *)

Section WeakOrder.

Variable A : Type.
Variable cmp : A -> A -> comparison.
Hypothesis Hwo : weak_order cmp.

Lemma wo_refl (a : A) : cmp a a = Eq.
Proof.
  pose proof (wo_antisym Hwo a a) as H. now destruct (cmp a a).
Qed.

Lemma wo_eq_sym (a b : A) : cmp a b = Eq -> cmp b a = Eq.
Proof.
  intros H. now rewrite (wo_antisym Hwo a b), H.
Qed.

Lemma wo_eq_r (a b c : A) : cmp b c = Eq -> cmp a b = cmp a c.
Proof.
  intros H. rewrite (wo_antisym Hwo b a), (wo_antisym Hwo c a).
  now rewrite (wo_eq Hwo b c a H).
Qed.

Lemma wo_total (a b : A) :
  not_gt (cmp a b) = true \/ not_gt (cmp b a) = true.
Proof.
  rewrite (wo_antisym Hwo a b). destruct (cmp a b); simpl; auto.
Qed.

Lemma wo_le_trans (a b c : A) :
  not_gt (cmp a b) = true -> not_gt (cmp b c) = true ->
  not_gt (cmp a c) = true.
Proof.
  intros Hab Hbc.
  destruct (cmp a b) eqn:Eab; try discriminate.
  - now rewrite (wo_eq Hwo a b c Eab).
  - destruct (cmp b c) eqn:Ebc; try discriminate.
    + now rewrite <- (wo_eq_r a b c Ebc), Eab.
    + now rewrite (wo_lt Hwo a b c Eab Ebc).
Qed.

Lemma wo_same_key_le (r a b : A) :
  cmp r a = Eq -> cmp r b = Eq -> not_gt (cmp a b) = true.
Proof.
  intros Ha Hb.
  rewrite <- (wo_eq Hwo r a b Ha), Hb. reflexivity.
Qed.

End WeakOrder.

Arguments wo_refl {A cmp} Hwo a.
Arguments wo_eq_sym {A cmp} Hwo a b _.
Arguments wo_eq_r {A cmp} Hwo a b c _.
Arguments wo_total {A cmp} Hwo a b.
Arguments wo_le_trans {A cmp} Hwo a b c _ _.
Arguments wo_same_key_le {A cmp} Hwo r a b _ _.

Lemma weak_order_on (A B : Type) (key : B -> A) (cmp : A -> A -> comparison) :
  weak_order cmp -> weak_order (fun x y => cmp (key x) (key y)).
Proof.
  intros H. constructor; intros.
  - apply (wo_antisym H).
  - now apply (wo_eq H).
  - now apply (wo_lt H (key a) (key b) (key c)).
Qed.

Lemma weak_order_flip (A : Type) (cmp : A -> A -> comparison) :
  weak_order cmp -> weak_order (fun x y => cmp y x).
Proof.
  intros H. constructor.
  - intros a b. apply (wo_antisym H).
  - intros a b c Hab. apply (wo_eq_r H). now apply (wo_eq_sym H).
  - intros a b c Hab Hbc. now apply (wo_lt H c b a).
Qed.

Lemma weak_order_nulls_last (A : Type) (cmp : A -> A -> comparison)
      (ascending : bool) :
  weak_order cmp -> weak_order (cmp_nulls_last cmp ascending).
Proof.
  intros H.
  assert (Hd : weak_order (fun a b => if ascending then cmp a b else cmp b a)).
  { destruct ascending; [| apply weak_order_flip]; destruct H; now constructor. }
  constructor.
  - intros [a|] [b|]; simpl; try reflexivity. apply (wo_antisym Hd).
  - intros [a|] [b|] [c|]; simpl; try discriminate; try reflexivity.
    apply (wo_eq Hd).
  - intros [a|] [b|] [c|]; simpl; try discriminate; try reflexivity.
    apply (wo_lt Hd).
Qed.

Lemma weak_order_lex (A : Type) (c1 c2 : A -> A -> comparison) :
  weak_order c1 -> weak_order c2 ->
  weak_order (fun a b => lex (c1 a b) (c2 a b)).
Proof.
  intros H1 H2. constructor.
  - intros a b. rewrite (wo_antisym H1 a b), (wo_antisym H2 a b).
    now destruct (c1 a b).
  - intros a b c. unfold lex.
    destruct (c1 a b) eqn:E1; try discriminate. intros E2.
    now rewrite (wo_eq H1 a b c E1), (wo_eq H2 a b c E2).
  - intros a b c. unfold lex.
    destruct (c1 a b) eqn:Eab; try discriminate.
    + intros E2. rewrite (wo_eq H1 a b c Eab).
      destruct (c1 b c); try discriminate; [| reflexivity].
      intros E2'. apply (wo_lt H2 a b c E2 E2').
    + intros _. destruct (c1 b c) eqn:Ebc; try discriminate.
      * intros _. now rewrite <- (wo_eq_r H1 a b c Ebc), Eab.
      * intros _. now rewrite (wo_lt H1 a b c Eab Ebc).
Qed.

Lemma Z_compare_weak_order : weak_order Z.compare.
Proof.
  constructor.
  - intros a b. apply Z.compare_antisym.
  - intros a b c H. apply Z.compare_eq in H. now subst.
  - intros a b c. rewrite !Z.compare_lt_iff. lia.
Qed.

Lemma ascii_compare_lt_trans (a b c : ascii) :
  Ascii.compare a b = Lt -> Ascii.compare b c = Lt -> Ascii.compare a c = Lt.
Proof.
  unfold Ascii.compare. rewrite !N.compare_lt_iff. lia.
Qed.

Lemma string_compare_lt_trans (a b c : string) :
  String.compare a b = Lt -> String.compare b c = Lt -> String.compare a c = Lt.
Proof.
  revert b c. induction a as [|x a IH]; intros [|y b] [|z c]; simpl;
    try discriminate; try reflexivity.
  destruct (Ascii.compare x y) eqn:Exy; try discriminate.
  - apply Ascii.compare_eq_iff in Exy. subst y.
    destruct (Ascii.compare x z); try discriminate; [apply IH | reflexivity].
  - intros _. destruct (Ascii.compare y z) eqn:Eyz; try discriminate.
    + apply Ascii.compare_eq_iff in Eyz. subst z. now rewrite Exy.
    + now rewrite (ascii_compare_lt_trans x y z Exy Eyz).
Qed.

Lemma string_compare_weak_order : weak_order String.compare.
Proof.
  constructor.
  - intros a b. apply String.compare_antisym.
  - intros a b c H. apply String.compare_eq_iff in H. now subst.
  - apply string_compare_lt_trans.
Qed.

Lemma f64_compare_weak_order : weak_order f64_compare.
Proof.
  constructor.
  - intros [| |p|] [| |q|]; simpl; try reflexivity.
    symmetry. apply Qcompare_antisym.
  - intros [| |p|] [| |q|] [| |r|]; simpl; try discriminate; try reflexivity.
    intros H. apply Qeq_alt in H. now rewrite H.
  - intros [| |p|] [| |q|] [| |r|]; simpl; try discriminate; try reflexivity.
    rewrite <- !Qlt_alt. apply Qlt_trans.
Qed.

Lemma row_compare_weak_order (by_ : sort_by) (ascending : bool) :
  weak_order (row_compare by_ ascending).
Proof.
  destruct by_; unfold row_compare.
  - apply (weak_order_on _ _ (fun r => notna (ProbUp r))).
    apply weak_order_nulls_last, f64_compare_weak_order.
  - apply (weak_order_on _ _ Ticker).
    apply weak_order_nulls_last, string_compare_weak_order.
  - apply weak_order_lex.
    + apply (weak_order_on _ _ Ticker).
      apply weak_order_nulls_last, string_compare_weak_order.
    + apply (weak_order_on _ _ Date).
      apply weak_order_nulls_last, Z_compare_weak_order.
Qed.

Lemma row_le_trans (by_ : sort_by) (ascending : bool) (a b c : Row) :
  row_le by_ ascending a b -> row_le by_ ascending b c ->
  row_le by_ ascending a c.
Proof.
  apply (wo_le_trans (row_compare_weak_order by_ ascending)).
Qed.

(** ** Insertion sort *)

Section InsertionFacts.

Variable A : Type.
Variable before : A -> A -> bool.

Lemma insert_perm (x : A) (l : list A) :
  Permutation (x :: l) (insert before x l).
Proof.
  induction l as [|y l IH]; simpl.
  - apply Permutation_refl.
  - destruct (before x y).
    + apply Permutation_refl.
    + apply perm_trans with (y :: x :: l); [apply perm_swap |].
      now apply perm_skip.
Qed.

Lemma insertion_sort_perm (l : list A) :
  Permutation l (insertion_sort before l).
Proof.
  induction l as [|x l IH]; simpl.
  - apply perm_nil.
  - apply perm_trans with (x :: insertion_sort before l).
    + now apply perm_skip.
    + apply insert_perm.
Qed.

Variable le : A -> A -> Prop.
Hypothesis le_trans : forall a b c, le a b -> le b c -> le a c.
Hypothesis before_le : forall x y, before x y = true -> le x y.
Hypothesis not_before_le : forall x y, before x y = false -> le y x.

Lemma insert_sorted (x : A) (l : list A) :
  StronglySorted le l -> StronglySorted le (insert before x l).
Proof.
  induction l as [|y l IH]; simpl; intros Hs.
  - repeat constructor.
  - apply StronglySorted_inv in Hs. destruct Hs as [Hs Hall].
    destruct (before x y) eqn:E.
    + constructor; [now constructor |].
      constructor; [now apply before_le |].
      eapply Forall_impl; [| exact Hall].
      intros z Hz. apply le_trans with y; [now apply before_le | exact Hz].
    + constructor; [now apply IH |].
      apply (Permutation_Forall (insert_perm x l)).
      constructor; [now apply not_before_le | exact Hall].
Qed.

Lemma insertion_sort_sorted (l : list A) :
  StronglySorted le (insertion_sort before l).
Proof.
  induction l as [|x l IH]; simpl.
  - constructor.
  - now apply insert_sorted.
Qed.

Lemma filter_insert_out (p : A -> bool) (x : A) (l : list A) :
  p x = false -> filter p (insert before x l) = filter p l.
Proof.
  intros Hp. induction l as [|y l IH]; simpl.
  - now rewrite Hp.
  - destruct (before x y); simpl.
    + now rewrite Hp.
    + now rewrite IH.
Qed.

(** An element inserted among the elements of its class goes in front of
    them when it is [before] each of them. *)
Lemma filter_insert_in (p : A -> bool) (x : A) (l : list A) :
  p x = true ->
  (forall y, p y = true -> before x y = true) ->
  filter p (insert before x l) = x :: filter p l.
Proof.
  intros Hp Hclass. induction l as [|y l IH]; simpl.
  - now rewrite Hp.
  - destruct (before x y) eqn:E; simpl.
    + now rewrite Hp.
    + destruct (p y) eqn:Hy.
      * rewrite (Hclass y Hy) in E. discriminate.
      * exact IH.
Qed.

Lemma insertion_sort_stable (p : A -> bool) (l : list A) :
  (forall x y, p x = true -> p y = true -> before x y = true) ->
  filter p (insertion_sort before l) = filter p l.
Proof.
  intros Hclass. induction l as [|x l IH]; simpl.
  - reflexivity.
  - destruct (p x) eqn:Hp.
    + rewrite filter_insert_in; [now rewrite IH | exact Hp |].
      intros y Hy. now apply Hclass.
    + rewrite filter_insert_out by exact Hp. exact IH.
Qed.

Lemma insertion_sort_sorted_id (l : list A) :
  (forall x y, le x y -> before x y = true) ->
  StronglySorted le l -> insertion_sort before l = l.
Proof.
  intros Hle. induction l as [|x l IH]; simpl; intros Hs.
  - reflexivity.
  - apply StronglySorted_inv in Hs. destruct Hs as [Hs Hall].
    rewrite IH by exact Hs.
    destruct l as [|y l]; simpl; [reflexivity |].
    inversion Hall; subst. now rewrite Hle.
Qed.

End InsertionFacts.

(** ** The introsort sorts *)

Lemma StronglySorted_app_inv (A : Type) (R : A -> A -> Prop) (l1 l2 : list A) :
  StronglySorted R (l1 ++ l2) ->
  StronglySorted R l1 /\ StronglySorted R l2 /\
  forall x y, In x l1 -> In y l2 -> R x y.
Proof.
  induction l1 as [|a l1 IH]; cbn [app]; intros H.
  - split; [constructor |]. split; [exact H |]. intros x y [].
  - apply StronglySorted_inv in H. destruct H as [Hs Hall].
    destruct (IH Hs) as [H1 [H2 H12]].
    rewrite Forall_forall in Hall.
    split.
    + constructor; [exact H1 |]. apply Forall_forall. intros x Hx.
      apply Hall. apply in_or_app. now left.
    + split; [exact H2 |]. intros x y [<-|Hx] Hy.
      * apply Hall. apply in_or_app. now right.
      * now apply H12.
Qed.

Lemma StronglySorted_app (A : Type) (R : A -> A -> Prop) (l1 l2 : list A) :
  StronglySorted R l1 -> StronglySorted R l2 ->
  (forall x y, In x l1 -> In y l2 -> R x y) ->
  StronglySorted R (l1 ++ l2).
Proof.
  induction l1 as [|a l1 IH]; cbn [app]; intros H1 H2 H12; [exact H2 |].
  apply StronglySorted_inv in H1. destruct H1 as [Hs Hall].
  constructor.
  - apply IH; [exact Hs | exact H2 |]. intros x y Hx Hy. apply H12; [now right | exact Hy].
  - rewrite Forall_forall in *. intros x Hx. apply in_app_or in Hx.
    destruct Hx as [Hx|Hx]; [now apply Hall | apply H12; [now left | exact Hx]].
Qed.

Section NpysortFacts.

Variable A : Type.
Variable less : A -> A -> bool.

(** [less] is the strict part of an order in which any two elements
    compare. *)
Hypothesis less_asym : forall x y, less x y = true -> less y x = false.
Hypothesis not_less_trans :
  forall x y z, less y x = false -> less z y = false -> less z x = false.

Lemma less_irrefl (x : A) : less x x = false.
Proof.
  destruct (less x x) eqn:E; [| reflexivity].
  pose proof (less_asym x x E). congruence.
Qed.

Lemma length_store (a : list A) (i : nat) (x : A) :
  List.length (store a i x) = List.length a.
Proof.
  revert i. induction a as [|y a IH]; intros [|i]; cbn [store List.length];
    try reflexivity.
  now rewrite IH.
Qed.

Lemma nth_store (a : list A) (i k : nat) (x d : A) :
  (i < List.length a)%nat ->
  nth k (store a i x) d = if (k =? i)%nat then x else nth k a d.
Proof.
  revert i k. induction a as [|y a IH]; intros [|i] [|k] H;
    cbn [store nth List.length Nat.eqb] in *; try lia; try reflexivity.
  apply IH. lia.
Qed.

Lemma length_INTP_SWAP (d : A) (a : list A) (i j : nat) :
  List.length (INTP_SWAP d a i j) = List.length a.
Proof.
  unfold INTP_SWAP. now rewrite !length_store.
Qed.

Lemma elt_INTP_SWAP (d : A) (a : list A) (i j k : nat) :
  (i < List.length a)%nat -> (j < List.length a)%nat ->
  elt d (INTP_SWAP d a i j) k
  = if (k =? j)%nat then elt d a i
    else if (k =? i)%nat then elt d a j else elt d a k.
Proof.
  intros Hi Hj. unfold INTP_SWAP, elt.
  rewrite nth_store by (rewrite length_store; exact Hj).
  destruct (k =? j)%nat; [reflexivity |].
  now rewrite nth_store by exact Hi.
Qed.

(** Two lists that differ by the exchange of two positions. *)
Lemma exchange_perm (d : A) (a b : list A) (i j : nat) :
  List.length b = List.length a ->
  (i < List.length a)%nat -> (j < List.length a)%nat ->
  nth i b d = nth j a d -> nth j b d = nth i a d ->
  (forall k, k <> i -> k <> j -> nth k b d = nth k a d) ->
  Permutation a b.
Proof.
  intros Hlen Hi Hj Hij Hji Hrest. apply (FinFun.Permutation_nth a b d).
  split; [exact Hlen |].
  exists (fun k => if (k =? i)%nat then j else if (k =? j)%nat then i else k).
  split; [| split].
  - intros k Hk. destruct (k =? i)%nat; [exact Hj |].
    destruct (k =? j)%nat; [exact Hi | exact Hk].
  - intros x y Hx Hy.
    destruct (Nat.eqb_spec x i), (Nat.eqb_spec y i),
             (Nat.eqb_spec x j), (Nat.eqb_spec y j); lia.
  - intros k Hk. destruct (Nat.eqb_spec k i) as [->|Hki]; [exact Hij |].
    destruct (Nat.eqb_spec k j) as [->|Hkj]; [exact Hji |].
    now apply Hrest.
Qed.

Lemma store_same (d : A) (a : list A) (i : nat) :
  store a i (nth i a d) = a.
Proof.
  revert i. induction a as [|y a IH]; intros [|i]; cbn [store nth];
    try reflexivity.
  now rewrite IH.
Qed.

Lemma INTP_SWAP_perm (d : A) (a : list A) (i j : nat) :
  (i < List.length a)%nat -> (j < List.length a)%nat ->
  Permutation a (INTP_SWAP d a i j).
Proof.
  intros Hi Hj. apply (FinFun.Permutation_nth a (INTP_SWAP d a i j) d).
  split; [apply length_INTP_SWAP |].
  exists (fun k => if (k =? j)%nat then i else if (k =? i)%nat then j else k).
  split; [| split].
  - intros k Hk. destruct (k =? j)%nat; [exact Hi |].
    destruct (k =? i)%nat; [exact Hj | exact Hk].
  - intros x y Hx Hy.
    destruct (Nat.eqb_spec x j), (Nat.eqb_spec y j),
             (Nat.eqb_spec x i), (Nat.eqb_spec y i); lia.
  - intros k Hk. fold (elt d (INTP_SWAP d a i j) k).
    rewrite elt_INTP_SWAP by assumption. unfold elt.
    destruct (k =? j)%nat; [reflexivity |]. now destruct (k =? i)%nat.
Qed.

Ltac index_cases :=
  repeat match goal with
         | |- context [(?x =? ?y)%nat] => destruct (Nat.eqb_spec x y); try lia
         end.

(** *** The two scans *)

Lemma scan_up_spec (d : A) (a : list A) (vp : A) :
  forall (fuel pi s : nat),
    (pi < s)%nat -> less (elt d a s) vp = false -> (s - pi <= fuel)%nat ->
    (pi < scan_up less d fuel a vp pi <= s)%nat /\
    less (elt d a (scan_up less d fuel a vp pi)) vp = false /\
    forall k, (pi < k < scan_up less d fuel a vp pi)%nat ->
              less (elt d a k) vp = true.
Proof.
  induction fuel as [|fuel IH]; intros pi s Hlt Hs Hfuel; [lia |].
  cbn [scan_up]. destruct (less (elt d a (S pi)) vp) eqn:E.
  - assert (Hne : S pi <> s) by (intros Heq; rewrite Heq in E; congruence).
    destruct (IH (S pi) s) as [H1 [H2 H3]]; [lia | exact Hs | lia |].
    split; [lia |]. split; [exact H2 |].
    intros k Hk. destruct (Nat.eq_dec k (S pi)) as [->|Hk'];
      [exact E | apply H3; lia].
  - split; [lia |]. split; [exact E |]. intros k Hk. lia.
Qed.

Lemma scan_down_spec (d : A) (a : list A) (vp : A) :
  forall (fuel pj s : nat),
    (s < pj)%nat -> less vp (elt d a s) = false -> (pj - s <= fuel)%nat ->
    (s <= scan_down less d fuel a vp pj < pj)%nat /\
    less vp (elt d a (scan_down less d fuel a vp pj)) = false /\
    forall k, (scan_down less d fuel a vp pj < k < pj)%nat ->
              less vp (elt d a k) = true.
Proof.
  induction fuel as [|fuel IH]; intros pj s Hlt Hs Hfuel; [lia |].
  cbn [scan_down]. destruct (less vp (elt d a (pred pj))) eqn:E.
  - assert (Hne : pred pj <> s) by (intros Heq; rewrite Heq in E; congruence).
    destruct (IH (pred pj) s) as [H1 [H2 H3]]; [lia | exact Hs | lia |].
    split; [lia |]. split; [exact H2 |].
    intros k Hk. destruct (Nat.eq_dec k (pred pj)) as [->|Hk'];
      [exact E | apply H3; lia].
  - split; [lia |]. split; [exact E |]. intros k Hk. lia.
Qed.

(** *** The partition *)

(** The loop keeps what is not above the pivot up to [pi], what is not
    below it from [pj] on, and the pivot at [pr - 1]. *)
Lemma hoare_spec (d vp : A) (pr : nat) :
  forall (fuel : nat) (a : list A) (pi pj : nat),
    S pr = List.length a ->
    (pi < pj)%nat -> (pj <= pr - 1)%nat ->
    (pj - pi < fuel)%nat ->
    (forall k, (k <= pi)%nat -> less vp (elt d a k) = false) ->
    (forall k, (pj <= k <= pr)%nat -> less (elt d a k) vp = false) ->
    elt d a (pr - 1) = vp ->
    Permutation a (fst (hoare less d fuel a vp pi pj)) /\
    List.length (fst (hoare less d fuel a vp pi pj)) = List.length a /\
    (pi < snd (hoare less d fuel a vp pi pj) <= pr - 1)%nat /\
    (forall k, (k < snd (hoare less d fuel a vp pi pj))%nat ->
               less vp (elt d (fst (hoare less d fuel a vp pi pj)) k) = false) /\
    (forall k, (snd (hoare less d fuel a vp pi pj) <= k <= pr)%nat ->
               less (elt d (fst (hoare less d fuel a vp pi pj)) k) vp = false) /\
    elt d (fst (hoare less d fuel a vp pi pj)) (pr - 1) = vp.
Proof.
  induction fuel as [|fuel IH]; intros a pi pj Hlen Hlt Hpj Hfuel Hlow Hhigh Hpivot;
    [lia |].
  cbn [hoare].
  destruct (scan_up_spec d a vp (List.length a) pi pj Hlt)
    as [Hi [Hi_stop Hi_below]]; [apply Hhigh; lia | lia |].
  destruct (scan_down_spec d a vp (List.length a) pj pi Hlt)
    as [Hj [Hj_stop Hj_above]]; [apply Hlow; lia | lia |].
  set (pi' := scan_up less d (List.length a) a vp pi) in *.
  set (pj' := scan_down less d (List.length a) a vp pj) in *.
  assert (Hlow' : forall k, (k < pi')%nat -> less vp (elt d a k) = false).
  { intros k Hk. destruct (Nat.le_gt_cases k pi) as [H|H]; [now apply Hlow |].
    apply less_asym, Hi_below. lia. }
  assert (Hhigh' : forall k, (pj' < k <= pr)%nat -> less (elt d a k) vp = false).
  { intros k Hk. destruct (Nat.le_gt_cases pj k) as [H|H];
      [apply Hhigh; lia |].
    apply less_asym, Hj_above. lia. }
  destruct (Nat.leb_spec pj' pi') as [Hdone|Hmore]; cbn [fst snd].
  - split; [apply Permutation_refl |]. split; [reflexivity |].
    split; [lia |]. split; [exact Hlow' |]. split; [| exact Hpivot].
    intros k Hk. destruct (Nat.eq_dec k pi') as [->|Hne]; [exact Hi_stop |].
    apply Hhigh'. lia.
  - destruct (IH (INTP_SWAP d a pi' pj') pi' pj')
      as [Hperm [Hlen' [Hp [Hlow'' [Hhigh'' Hpivot'']]]]].
    + now rewrite length_INTP_SWAP.
    + exact Hmore.
    + lia.
    + lia.
    + intros k Hk. rewrite elt_INTP_SWAP by lia. index_cases.
      * exact Hj_stop.
      * apply Hlow'. lia.
    + intros k Hk. rewrite elt_INTP_SWAP by lia. index_cases.
      * exact Hi_stop.
      * apply Hhigh'. lia.
    + rewrite elt_INTP_SWAP by lia. index_cases. exact Hpivot.
    + split.
      { eapply Permutation_trans; [| exact Hperm].
        apply INTP_SWAP_perm; lia. }
      split; [now rewrite Hlen', length_INTP_SWAP |].
      split; [lia |]. split; [exact Hlow'' |]. split; [exact Hhigh'' | exact Hpivot''].
Qed.

(** A conditional exchange puts two elements in order and leaves the
    others. *)
Lemma cond_swap_spec (d : A) (a : list A) (i j : nat) :
  (i < List.length a)%nat -> (j < List.length a)%nat -> i <> j ->
  let a' := if less (elt d a i) (elt d a j) then INTP_SWAP d a i j else a in
  Permutation a a' /\ List.length a' = List.length a /\
  less (elt d a' i) (elt d a' j) = false /\
  (forall k, k <> i -> k <> j -> elt d a' k = elt d a k) /\
  ((elt d a' i = elt d a i /\ elt d a' j = elt d a j) \/
   (elt d a' i = elt d a j /\ elt d a' j = elt d a i)).
Proof.
  intros Hi Hj Hne a'. subst a'.
  destruct (less (elt d a i) (elt d a j)) eqn:E.
  - split; [now apply INTP_SWAP_perm |].
    split; [apply length_INTP_SWAP |].
    rewrite !elt_INTP_SWAP by assumption.
    rewrite Nat.eqb_refl. destruct (Nat.eqb_spec i j) as [|_]; [contradiction |].
    rewrite Nat.eqb_refl.
    split; [now apply less_asym |]. split.
    + intros k Hki Hkj. rewrite elt_INTP_SWAP by assumption. index_cases.
      reflexivity.
    + right. split; reflexivity.
  - split; [apply Permutation_refl |]. split; [reflexivity |].
    split; [exact E |]. split; [reflexivity |]. left. split; reflexivity.
Qed.

(** After the partition of a part of at least four elements the pivot
    stands at [pi], with nothing above it before and nothing below it
    after. *)
Lemma partition_at_spec (d : A) (a : list A) (pr : nat) :
  S pr = List.length a -> (3 <= pr)%nat ->
  Permutation a (fst (partition_at less d a pr)) /\
  List.length (fst (partition_at less d a pr)) = List.length a /\
  (0 < snd (partition_at less d a pr) < pr)%nat /\
  (forall k, (k < snd (partition_at less d a pr))%nat ->
     less (elt d (fst (partition_at less d a pr)) (snd (partition_at less d a pr)))
          (elt d (fst (partition_at less d a pr)) k) = false) /\
  (forall k, (snd (partition_at less d a pr) < k <= pr)%nat ->
     less (elt d (fst (partition_at less d a pr)) k)
          (elt d (fst (partition_at less d a pr)) (snd (partition_at less d a pr)))
     = false).
Proof.
  intros Hlen Hpr. unfold partition_at.
  rewrite Nat.add_0_l, Nat.sub_0_r.
  set (pm := Nat.div2 pr).
  assert (Hpm : (0 < pm < pr - 1)%nat).
  { subst pm. rewrite Nat.div2_div.
    pose proof (Nat.div_mod_eq pr 2) as Hd.
    pose proof (Nat.mod_upper_bound pr 2). lia. }
  destruct (cond_swap_spec d a pm 0) as [P1 [L1 [O1 [K1 V1]]]]; try lia.
  set (a1 := if less (elt d a pm) (elt d a 0) then INTP_SWAP d a pm 0 else a) in *.
  destruct (cond_swap_spec d a1 pr pm) as [P2 [L2 [O2 [K2 V2]]]]; try lia.
  set (a2 := if less (elt d a1 pr) (elt d a1 pm) then INTP_SWAP d a1 pr pm else a1) in *.
  destruct (cond_swap_spec d a2 pm 0) as [P3 [L3 [O3 [K3 V3]]]]; try lia.
  set (a3 := if less (elt d a2 pm) (elt d a2 0) then INTP_SWAP d a2 pm 0 else a2) in *.
  assert (O3' : less (elt d a3 pr) (elt d a3 pm) = false).
  { rewrite (K3 pr) by lia.
    destruct V3 as [[E _]|[E _]]; rewrite E; [exact O2 |].
    rewrite (K2 0%nat) by lia.
    destruct V2 as [[E2 E2']|[E2 E2']]; rewrite E2.
    - apply (not_less_trans _ (elt d a1 pm)); [exact O1 |].
      now rewrite <- E2, <- E2'.
    - exact O1. }
  set (vp := elt d a3 pm) in *.
  set (a4 := INTP_SWAP d a3 pm (pr - 1)).
  assert (L4 : List.length a4 = List.length a).
  { subst a4. rewrite length_INTP_SWAP. lia. }
  destruct (hoare_spec d vp pr (List.length a4) a4 0 (pr - 1))
    as [P5 [L5 [Hp [Hlow [Hhigh Hpivot]]]]]; try lia.
  - intros k Hk. assert (k = 0)%nat as -> by lia.
    subst a4. rewrite elt_INTP_SWAP by lia. index_cases. exact O3.
  - intros k Hk. subst a4. rewrite elt_INTP_SWAP by lia. index_cases.
    + apply less_irrefl.
    + assert (k = pr) as -> by lia. exact O3'.
  - subst a4. rewrite elt_INTP_SWAP by lia. index_cases. reflexivity.
  - destruct (hoare less d (List.length a4) a4 vp 0 (pr - 1)) as [b p] eqn:Eh.
    cbn [fst snd] in *.
    assert (Hpivot' : forall i, i = (pr - 1)%nat -> elt d b i = vp)
      by (intros i ->; exact Hpivot).
    split.
    { eapply Permutation_trans; [exact P1 |].
      eapply Permutation_trans; [exact P2 |].
      eapply Permutation_trans; [exact P3 |].
      eapply Permutation_trans; [apply (INTP_SWAP_perm d a3 pm (pr - 1)); lia |].
      eapply Permutation_trans; [exact P5 |].
      apply INTP_SWAP_perm; lia. }
    split; [rewrite length_INTP_SWAP; lia |].
    split; [lia |]. split.
    + intros k Hk. rewrite !elt_INTP_SWAP by lia. index_cases.
      all: repeat match goal with
                  | |- context [elt _ _ ?i] => rewrite (Hpivot' i) by lia
                  end.
      all: apply Hlow; lia.
    + intros k Hk. rewrite !elt_INTP_SWAP by lia. index_cases.
      all: repeat match goal with
                  | |- context [elt _ _ ?i] => rewrite (Hpivot' i) by lia
                  end.
      all: apply Hhigh; lia.
Qed.

(** *** The insertion sort of the small parts *)

Lemma greater_end_spec (vi : A) (l : list A) :
  l = fst (greater_end less vi l) ++ snd (greater_end less vi l) /\
  Forall (fun e => less vi e = true) (snd (greater_end less vi l)) /\
  (forall keep e, fst (greater_end less vi l) = keep ++ [e] ->
                  less vi e = false).
Proof.
  induction l as [|e l IH]; cbn [greater_end].
  - split; [reflexivity |]. split; [constructor |].
    intros keep e H. cbn [fst] in H. now destruct keep.
  - destruct (greater_end less vi l) as [keep moved]. cbn [fst snd] in IH.
    destruct IH as [Hl [Hmoved Hlast]].
    destruct keep as [|k keep].
    + destruct (less vi e) eqn:E; cbn [fst snd].
      * split; [now rewrite Hl |]. split; [now constructor |].
        intros keep' e' H. now destruct keep'.
      * split; [now rewrite Hl |]. split; [exact Hmoved |].
        intros keep' e' H. destruct keep' as [|x keep'].
        -- injection H as <-. exact E.
        -- injection H as _ H. now destruct keep'.
    + cbn [fst snd]. split; [now rewrite Hl |]. split; [exact Hmoved |].
      intros keep' e' H. destruct keep' as [|x keep']; [discriminate H |].
      injection H as _ H. now apply (Hlast keep' e').
Qed.

Lemma insert_back_perm (sorted : list A) (vi : A) :
  Permutation (sorted ++ [vi]) (insert_back less sorted vi).
Proof.
  unfold insert_back. destruct (greater_end_spec vi sorted) as [Hl _].
  destruct (greater_end less vi sorted) as [keep moved]. cbn [fst snd] in Hl.
  rewrite Hl at 1. rewrite <- app_assoc. apply Permutation_app_head.
  apply Permutation_sym, Permutation_cons_append.
Qed.

Lemma insert_back_sorted (sorted : list A) (vi : A) :
  StronglySorted (fun x y => less y x = false) sorted ->
  StronglySorted (fun x y => less y x = false) (insert_back less sorted vi).
Proof.
  intros Hs. unfold insert_back.
  destruct (greater_end_spec vi sorted) as [Hl [Hmoved Hlast]].
  destruct (greater_end less vi sorted) as [keep moved]. cbn [fst snd] in *.
  rewrite Hl in Hs. apply StronglySorted_app_inv in Hs.
  destruct Hs as [Hkeep [Hmv Hcross]].
  rewrite Forall_forall in Hmoved.
  assert (Hbelow : forall x, In x keep -> less vi x = false).
  { intros x Hx. destruct (exists_last (l := keep)) as [keep' [e E]].
    { intros ->. contradiction. }
    pose proof (Hlast keep' e E) as He. rewrite E in Hx, Hkeep.
    apply in_app_or in Hx. destruct Hx as [Hx|[<-|[]]]; [| exact He].
    apply StronglySorted_app_inv in Hkeep. destruct Hkeep as [_ [_ Hc]].
    apply (not_less_trans x e vi); [apply Hc; [exact Hx | now left] | exact He]. }
  apply StronglySorted_app; [exact Hkeep | |].
  - constructor; [exact Hmv |]. apply Forall_forall. intros y Hy.
    apply less_asym. now apply Hmoved.
  - intros x y Hx [<-|Hy]; [now apply Hbelow | now apply Hcross].
Qed.

Lemma npy_insertion_from (a acc : list A) :
  StronglySorted (fun x y => less y x = false) acc ->
  Permutation (acc ++ a) (fold_left (insert_back less) a acc) /\
  StronglySorted (fun x y => less y x = false)
                 (fold_left (insert_back less) a acc).
Proof.
  revert acc. induction a as [|x a IH]; intros acc Hacc; cbn [fold_left].
  - rewrite app_nil_r. split; [apply Permutation_refl | exact Hacc].
  - destruct (IH (insert_back less acc x) (insert_back_sorted acc x Hacc))
      as [Hperm Hsorted].
    split; [| exact Hsorted].
    eapply Permutation_trans; [| exact Hperm].
    change (x :: a) with ([x] ++ a). rewrite app_assoc.
    apply Permutation_app_tail, insert_back_perm.
Qed.

Lemma npy_insertion_spec (a : list A) :
  Permutation a (npy_insertion less a) /\
  StronglySorted (fun x y => less y x = false) (npy_insertion less a).
Proof.
  unfold npy_insertion. apply (npy_insertion_from a []). constructor.
Qed.

(** *** The heap sort *)

Lemma length_heap_set (a : list A) (k : nat) (x : A) :
  List.length (heap_set a k x) = List.length a.
Proof.
  apply length_store.
Qed.

Lemma heap_get_set (d : A) (a : list A) (k m : nat) (x : A) :
  (1 <= k <= List.length a)%nat -> (1 <= m)%nat ->
  heap_get d (heap_set a k x) m
  = if (m =? k)%nat then x else heap_get d a m.
Proof.
  intros Hk Hm. unfold heap_get, heap_set. rewrite nth_store by lia.
  destruct (Nat.eqb_spec (m - 1) (k - 1)), (Nat.eqb_spec m k); try lia;
    reflexivity.
Qed.

(** Every parent from [l] on is not below its children, in the heap of the
    first [n] elements. *)
Definition heap_from (d : A) (l n : nat) (a : list A) : Prop :=
  forall k c, (l <= k)%nat -> c = (k + k)%nat \/ c = S (k + k) -> (c <= n)%nat ->
              less (heap_get d a k) (heap_get d a c) = false.

Lemma heap_set_exchange (d : A) (a : list A) (i j : nat) (x : A) :
  (1 <= i <= List.length a)%nat -> (1 <= j <= List.length a)%nat -> i <> j ->
  Permutation (heap_set a i x) (heap_set (heap_set a i (heap_get d a j)) j x).
Proof.
  intros Hi Hj Hne.
  apply (exchange_perm d _ _ (i - 1) (j - 1)).
  - now rewrite !length_heap_set.
  - rewrite length_heap_set. lia.
  - rewrite length_heap_set. lia.
  - unfold heap_set, heap_get. rewrite !nth_store by (rewrite ?length_store; lia).
    destruct (Nat.eqb_spec (i - 1) (j - 1)); [lia |].
    rewrite Nat.eqb_refl.
    destruct (Nat.eqb_spec (j - 1) (i - 1)); [lia | reflexivity].
  - unfold heap_set. rewrite !nth_store by (rewrite ?length_store; lia).
    now rewrite !Nat.eqb_refl.
  - intros k Hki Hkj. unfold heap_set.
    rewrite !nth_store by (rewrite ?length_store; lia).
    destruct (Nat.eqb_spec k (j - 1)); [contradiction |].
    destruct (Nat.eqb_spec k (i - 1)); [contradiction | reflexivity].
Qed.

(** [tmp] sinks from the hole at [i] until the heap is in order from [l] on;
    the elements keep a property [P] that [tmp] and they have. *)
Lemma sift_spec (d : A) (P : A -> Prop) (l n : nat) (tmp : A) :
  forall (fuel : nat) (a : list A) (i : nat),
    (1 <= l <= i)%nat -> (i <= n)%nat -> (n <= List.length a)%nat ->
    (n < i + fuel)%nat ->
    (forall k c, (l <= k)%nat -> k <> i ->
                 c = (k + k)%nat \/ c = S (k + k) -> (c <= n)%nat -> c <> i ->
                 less (heap_get d a k) (heap_get d a c) = false) ->
    (forall p, (l <= p)%nat -> i = (p + p)%nat \/ i = S (p + p) ->
               less (heap_get d a p) tmp = false /\
               forall c, c = (i + i)%nat \/ c = S (i + i) -> (c <= n)%nat ->
                         less (heap_get d a p) (heap_get d a c) = false) ->
    P tmp ->
    (forall k, (1 <= k <= n)%nat -> k <> i -> P (heap_get d a k)) ->
    Permutation (heap_set a i tmp) (sift less d fuel a tmp i (i + i) n) /\
    List.length (sift less d fuel a tmp i (i + i) n) = List.length a /\
    heap_from d l n (sift less d fuel a tmp i (i + i) n) /\
    (forall k, (1 <= k < l)%nat \/ (n < k)%nat ->
               heap_get d (sift less d fuel a tmp i (i + i) n) k
               = heap_get d a k) /\
    (forall k, (1 <= k <= n)%nat ->
               P (heap_get d (sift less d fuel a tmp i (i + i) n) k)).
Proof.
  induction fuel as [|fuel IH]; intros a i Hl Hi Hn Hfuel Hheap Hparent HP HPa;
    [lia |].
  assert (Hstop : (forall c, c = (i + i)%nat \/ c = S (i + i) -> (c <= n)%nat ->
                             less tmp (heap_get d a c) = false) ->
            Permutation (heap_set a i tmp) (heap_set a i tmp) /\
            List.length (heap_set a i tmp) = List.length a /\
            heap_from d l n (heap_set a i tmp) /\
            (forall k, (1 <= k < l)%nat \/ (n < k)%nat ->
                       heap_get d (heap_set a i tmp) k = heap_get d a k) /\
            (forall k, (1 <= k <= n)%nat -> P (heap_get d (heap_set a i tmp) k))).
  { intros Hchildren.
    split; [apply Permutation_refl |]. split; [apply length_heap_set |].
    split; [| split].
    - intros k c Hk Hc Hcn. rewrite !heap_get_set by lia.
      destruct (Nat.eqb_spec k i) as [->|Hki].
      + destruct (Nat.eqb_spec c i); [lia |]. now apply Hchildren.
      + destruct (Nat.eqb_spec c i) as [->|Hci].
        * now apply (Hparent k).
        * now apply Hheap.
    - intros k Hk. rewrite heap_get_set by lia.
      destruct (Nat.eqb_spec k i); [lia | reflexivity].
    - intros k Hk. rewrite heap_get_set by lia.
      destruct (Nat.eqb_spec k i); [exact HP | now apply HPa]. }
  cbn [sift]. destruct (Nat.leb_spec (i + i) n) as [Hchild|Hleaf];
    [| apply Hstop; intros c Hc Hcn; lia].
  set (j := if (i + i <? n)%nat
               && less (heap_get d a (i + i)) (heap_get d a (i + i + 1))
            then (i + i + 1)%nat else (i + i)%nat).
  assert (Hj : (j = i + i \/ j = S (i + i))%nat /\ (j <= n)%nat /\
               forall c, c = (i + i)%nat \/ c = S (i + i) -> (c <= n)%nat ->
                         less (heap_get d a j) (heap_get d a c) = false).
  { subst j. destruct (Nat.ltb_spec (i + i) n) as [Hboth|Hone]; cbn [andb].
    - destruct (less (heap_get d a (i + i)) (heap_get d a (i + i + 1))) eqn:E.
      + split; [lia |]. split; [lia |]. intros c [->| ->] Hc.
        * now apply less_asym.
        * replace (S (i + i)) with (i + i + 1)%nat by lia. apply less_irrefl.
      + split; [lia |]. split; [lia |]. intros c [->| ->] Hc.
        * apply less_irrefl.
        * replace (S (i + i)) with (i + i + 1)%nat by lia. exact E.
    - split; [lia |]. split; [lia |]. intros c [->| ->] Hc;
        [apply less_irrefl | lia]. }
  destruct Hj as [Hj [Hjn Hjmax]].
  destruct (less tmp (heap_get d a j)) eqn:Esink.
  - assert (Hji : j <> i) by lia.
    destruct (IH (heap_set a i (heap_get d a j)) j)
      as [Hperm [Hlen [Hh [Hout HPr]]]].
    + lia.
    + exact Hjn.
    + now rewrite length_heap_set.
    + lia.
    + intros k c Hk Hkj Hc Hcn Hcj. rewrite !heap_get_set by lia.
      destruct (Nat.eqb_spec k i) as [->|Hki].
      * destruct (Nat.eqb_spec c i); [lia |]. now apply Hjmax.
      * destruct (Nat.eqb_spec c i) as [->|Hci].
        -- now apply (Hparent k).
        -- now apply Hheap.
    + intros p Hp Hpj. assert (p = i) as -> by lia.
      rewrite heap_get_set by lia. rewrite Nat.eqb_refl.
      split; [now apply less_asym |].
      intros c Hc Hcn. rewrite heap_get_set by lia.
      destruct (Nat.eqb_spec c i); [lia |]. apply Hheap; lia.
    + exact HP.
    + intros k Hk Hkj. rewrite heap_get_set by lia.
      destruct (Nat.eqb_spec k i); [apply HPa; lia | now apply HPa].
    + split.
      { eapply Permutation_trans; [| exact Hperm].
        apply heap_set_exchange; lia. }
      split; [now rewrite Hlen, length_heap_set |].
      split; [exact Hh |]. split; [| exact HPr].
      intros k Hk. rewrite Hout by exact Hk. rewrite heap_get_set by lia.
      destruct (Nat.eqb_spec k i); [lia | reflexivity].
  - apply Hstop. intros c Hc Hcn.
    apply (not_less_trans _ (heap_get d a j)); [now apply Hjmax | exact Esink].
Qed.

Lemma heapify_spec (d : A) (n : nat) :
  forall (l : nat) (a : list A),
    (l + l <= n)%nat -> (n <= List.length a)%nat ->
    heap_from d (S l) n a ->
    Permutation a (heapify less d l a n) /\
    List.length (heapify less d l a n) = List.length a /\
    heap_from d 1 n (heapify less d l a n) /\
    (forall k, (n < k)%nat ->
               heap_get d (heapify less d l a n) k = heap_get d a k).
Proof.
  induction l as [|l IH]; intros a Hl Hn Hheap; cbn [heapify].
  - split; [apply Permutation_refl |]. split; [reflexivity |].
    split; [exact Hheap | reflexivity].
  - destruct (sift_spec d (fun _ => True) (S l) n (heap_get d a (S l)) n a (S l))
      as [Hperm [Hlen [Hh [Hout _]]]]; try lia; try exact I.
    + intros k c Hk Hne Hc Hcn _. apply Hheap; [lia | exact Hc | exact Hcn].
    + destruct (IH (sift less d n a (heap_get d a (S l)) (S l) (S l + S l) n))
        as [Hperm' [Hlen' [Hh' Hout']]]; try lia.
      * intros k c Hk. apply Hh. lia.
      * split.
        { eapply Permutation_trans; [| exact Hperm'].
          eapply Permutation_trans; [| exact Hperm].
          unfold heap_set, heap_get. rewrite store_same. apply Permutation_refl. }
        split; [lia |]. split; [exact Hh' |].
        intros k Hk. rewrite Hout' by exact Hk. apply Hout. now right.
Qed.

Lemma heap_root_max (d : A) (n : nat) (a : list A) :
  heap_from d 1 n a ->
  forall k, (1 <= k <= n)%nat -> less (heap_get d a 1) (heap_get d a k) = false.
Proof.
  intros Hheap k. induction k as [k IH] using (well_founded_induction lt_wf).
  intros Hk. destruct (Nat.eq_dec k 1) as [->|Hne]; [apply less_irrefl |].
  pose proof (Nat.div_mod_eq k 2) as Hdiv.
  pose proof (Nat.mod_upper_bound k 2) as Hmod.
  set (p := (k / 2)%nat) in *.
  apply (not_less_trans _ (heap_get d a p)).
  - apply Hheap; lia.
  - apply IH; lia.
Qed.

Lemma sort_down_spec (d : A) :
  forall (n : nat) (a : list A),
    (n <= List.length a)%nat ->
    heap_from d 1 n a ->
    (forall i j, (n < i)%nat -> (i <= j)%nat -> (j <= List.length a)%nat ->
                 less (heap_get d a j) (heap_get d a i) = false) ->
    (forall k i, (1 <= k <= n)%nat -> (n < i <= List.length a)%nat ->
                 less (heap_get d a i) (heap_get d a k) = false) ->
    Permutation a (sort_down less d n a) /\
    forall i j, (1 <= i)%nat -> (i <= j)%nat -> (j <= List.length a)%nat ->
                less (heap_get d (sort_down less d n a) j)
                     (heap_get d (sort_down less d n a) i) = false.
Proof.
  induction n as [|n IH]; intros a Hn Hheap Hsorted Hbound.
  - cbn [sort_down]. split; [apply Permutation_refl |].
    intros i j Hi Hij Hj. apply Hsorted; lia.
  - cbn [sort_down]. destruct (Nat.ltb_spec 1 (S n)) as [Hmore|Hone].
    + set (tmp := heap_get d a (S n)).
      set (a' := heap_set a (S n) (heap_get d a 1)).
      assert (Ha' : forall k, (1 <= k)%nat ->
                heap_get d a' k
                = if (k =? S n)%nat then heap_get d a 1 else heap_get d a k).
      { intros k Hk. subst a'. now rewrite heap_get_set by lia. }
      pose proof (heap_root_max d (S n) a Hheap) as Hmax.
      destruct (sift_spec d
                  (fun x => less (heap_get d a 1) x = false /\
                            forall i, (S n < i <= List.length a)%nat ->
                                      less (heap_get d a i) x = false)
                  1 n tmp n a' 1)
        as [Hperm [Hlen [Hh [Hout HP]]]]; try lia.
      * subst a'. rewrite length_heap_set. lia.
      * intros k c Hk Hne Hc Hcn _. rewrite !Ha' by lia.
        destruct (Nat.eqb_spec k (S n)); [lia |].
        destruct (Nat.eqb_spec c (S n)); [lia |].
        apply Hheap; [lia | exact Hc | lia].
      * subst tmp. split; [apply Hmax; lia |].
        intros i Hi. apply Hbound; lia.
      * intros k Hk Hne. rewrite Ha' by lia.
        destruct (Nat.eqb_spec k (S n)); [lia |].
        split; [apply Hmax; lia |]. intros i Hi. apply Hbound; lia.
      * assert (Hlen' : List.length a' = List.length a)
          by (subst a'; apply length_heap_set).
        change 2%nat with (1 + 1)%nat.
        set (r := sift less d n a' tmp 1 (1 + 1) n) in *.
        destruct (IH r) as [Hperm' Hsorted']; try lia.
        -- exact Hh.
        -- intros i j Hi Hij Hj. rewrite !Hout by lia. rewrite !Ha' by lia.
           destruct (Nat.eqb_spec i (S n)) as [->|Hne].
           ++ destruct (Nat.eqb_spec j (S n)); [apply less_irrefl |].
              apply Hbound; lia.
           ++ destruct (Nat.eqb_spec j (S n)); [lia |]. apply Hsorted; lia.
        -- intros k i Hk Hi. destruct (HP k) as [Hroot Habove]; [lia |].
           rewrite (Hout i) by lia. rewrite Ha' by lia.
           destruct (Nat.eqb_spec i (S n)); [exact Hroot |].
           apply Habove. lia.
        -- split.
           ++ eapply Permutation_trans; [| exact Hperm'].
              eapply Permutation_trans; [| exact Hperm].
              subst a' tmp.
              eapply Permutation_trans;
                [| apply (heap_set_exchange d a (S n) 1 (heap_get d a (S n))); lia].
              unfold heap_set, heap_get. rewrite store_same.
              apply Permutation_refl.
           ++ intros i j Hi Hij Hj. apply Hsorted'; lia.
    + assert (n = 0)%nat as -> by lia.
      split; [apply Permutation_refl |].
      intros i j Hi Hij Hj. destruct (Nat.eq_dec i 1) as [->|Hne].
      * destruct (Nat.eq_dec j 1) as [->|Hne']; [apply less_irrefl |].
        apply Hbound; lia.
      * apply Hsorted; lia.
Qed.

Lemma sorted_by_index (d : A) (l : list A) :
  (forall i j, (i < j)%nat -> (j < List.length l)%nat ->
               less (nth j l d) (nth i l d) = false) ->
  StronglySorted (fun x y => less y x = false) l.
Proof.
  induction l as [|x l IH]; intros H; constructor.
  - apply IH. intros i j Hij Hj. apply (H (S i) (S j)); cbn [List.length]; lia.
  - apply Forall_forall. intros y Hy. apply (In_nth _ _ d) in Hy.
    destruct Hy as [k [Hk <-]]. apply (H 0%nat (S k)); cbn [List.length]; lia.
Qed.

Lemma npy_aheapsort_spec (a : list A) :
  Permutation a (npy_aheapsort less a) /\
  StronglySorted (fun x y => less y x = false) (npy_aheapsort less a).
Proof.
  unfold npy_aheapsort. destruct a as [|d a0] eqn:Ea;
    [split; [apply Permutation_refl | constructor] |].
  rewrite <- Ea. clear Ea a0. unfold heapsort_at.
  set (n := List.length a).
  assert (Hhalf : (Nat.div2 n + Nat.div2 n <= n)%nat).
  { rewrite Nat.div2_div. pose proof (Nat.div_mod_eq n 2). lia. }
  destruct (heapify_spec d n (Nat.div2 n) a) as [Hperm [Hlen [Hheap _]]];
    [exact Hhalf | subst n; lia | |].
  { intros k c Hk Hc Hcn. exfalso.
    rewrite Nat.div2_div in Hk. pose proof (Nat.div_mod_eq n 2).
    pose proof (Nat.mod_upper_bound n 2). lia. }
  destruct (sort_down_spec d n (heapify less d (Nat.div2 n) a n))
    as [Hperm' Hsorted].
  - subst n. lia.
  - exact Hheap.
  - intros i j Hi Hij Hj. subst n. lia.
  - intros k i Hk Hi. subst n. lia.
  - split; [eapply Permutation_trans; eassumption |].
    apply (sorted_by_index d). intros i j Hij Hj.
    specialize (Hsorted (S i) (S j)). unfold heap_get in Hsorted.
    cbn [Nat.sub] in Hsorted. rewrite !Nat.sub_0_r in Hsorted.
    apply Hsorted; try lia.
    apply Permutation_length in Hperm'. subst n. lia.
Qed.

(** *** The sort *)

Lemma In_firstn_elt (d : A) (n : nat) (l : list A) (x : A) :
  In x (firstn n l) -> exists k, (k < n)%nat /\ (k < List.length l)%nat /\ x = elt d l k.
Proof.
  revert n. induction l as [|y l IH]; intros [|n]; cbn [firstn]; try contradiction.
  intros [<-|H].
  - exists 0%nat. cbn [List.length]. repeat split; lia.
  - destruct (IH n H) as [k [Hk [Hk' ->]]]. exists (S k).
    cbn [List.length]. repeat split; lia.
Qed.

Lemma In_skipn_elt (d : A) (n : nat) (l : list A) (x : A) :
  In x (skipn n l) -> exists k, (n <= k < List.length l)%nat /\ x = elt d l k.
Proof.
  revert n. induction l as [|y l IH]; intros [|n]; cbn [skipn]; try contradiction.
  - intros H. apply (In_nth _ _ d) in H. destruct H as [k [Hk <-]].
    exists k. split; [lia | reflexivity].
  - intros H. destruct (IH n H) as [k [Hk ->]]. exists (S k).
    cbn [List.length]. split; [lia | reflexivity].
Qed.

Lemma firstn_1_skipn (d : A) (n : nat) (l : list A) :
  (n < List.length l)%nat -> firstn 1 (skipn n l) = [elt d l n].
Proof.
  revert n. induction l as [|y l IH]; intros [|n] H; cbn [List.length] in H;
    try lia.
  - reflexivity.
  - cbn [skipn]. rewrite IH by lia. reflexivity.
Qed.

Lemma split_at (n : nat) (l : list A) :
  l = firstn n l ++ firstn 1 (skipn n l) ++ skipn (S n) l.
Proof.
  rewrite <- (firstn_skipn n l) at 1. f_equal.
  rewrite <- (firstn_skipn 1 (skipn n l)) at 1. f_equal.
  rewrite skipn_skipn. reflexivity.
Qed.

Lemma sorted_around (l1 l2 l1' l2' : list A) (pv : A) :
  Permutation l1 l1' -> Permutation l2 l2' ->
  StronglySorted (fun x y => less y x = false) l1' ->
  StronglySorted (fun x y => less y x = false) l2' ->
  (forall x, In x l1 -> less pv x = false) ->
  (forall y, In y l2 -> less y pv = false) ->
  StronglySorted (fun x y => less y x = false) (l1' ++ [pv] ++ l2').
Proof.
  intros P1 P2 S1 S2 Hlow Hhigh.
  assert (Hhigh' : forall y, In y l2' -> less y pv = false).
  { intros y Hy. apply Hhigh. apply (Permutation_in _ (Permutation_sym P2) Hy). }
  apply StronglySorted_app; [exact S1 | |].
  - cbn [app]. constructor; [exact S2 |]. now apply Forall_forall.
  - intros x y Hx [<-|Hy].
    + apply Hlow. apply (Permutation_in _ (Permutation_sym P1) Hx).
    + apply (not_less_trans x pv y); [| now apply Hhigh'].
      apply Hlow. apply (Permutation_in _ (Permutation_sym P1) Hx).
Qed.

Lemma quick_spec :
  forall (fuel : nat) (cdepth : Z) (a : list A),
    (List.length a <= fuel)%nat ->
    Permutation a (quick less fuel cdepth a) /\
    StronglySorted (fun x y => less y x = false)
                   (quick less fuel cdepth a).
Proof.
  induction fuel as [|fuel IH]; intros cdepth a Hfuel.
  - destruct a; [| cbn [List.length] in Hfuel; lia].
    split; [apply Permutation_refl | constructor].
  - cbn [quick]. destruct (Nat.ltb_spec 17 (List.length a)) as [Hbig|Hsmall];
      [| apply npy_insertion_spec].
    unfold npy_partition. destruct a as [|d a0] eqn:Ea; [cbn in Hbig; lia |].
    rewrite <- Ea in *. clear Ea a0.
    destruct (partition_at_spec d a (List.length a - 1))
      as [Hperm [Hlen [Hp [Hlow Hhigh]]]]; try lia.
    destruct (partition_at less d a (List.length a - 1)) as [a' pi].
    cbn [fst snd] in *.
    set (left := firstn pi a'). set (right := skipn (S pi) a').
    assert (Hpivot : firstn 1 (skipn pi a') = [elt d a' pi])
      by (apply firstn_1_skipn; lia).
    rewrite Hpivot.
    assert (Hleft : (List.length left <= fuel)%nat).
    { subst left. rewrite length_firstn. lia. }
    assert (Hright : (List.length right <= fuel)%nat).
    { subst right. rewrite length_skipn. lia. }
    assert (Hl : forall x, In x left -> less (elt d a' pi) x = false).
    { intros x Hx. apply (In_firstn_elt d) in Hx.
      destruct Hx as [k [Hk [_ ->]]]. now apply Hlow. }
    assert (Hr : forall y, In y right -> less y (elt d a' pi) = false).
    { intros y Hy. apply (In_skipn_elt d) in Hy.
      destruct Hy as [k [Hk ->]]. apply Hhigh. lia. }
    assert (Hsplit : Permutation a (left ++ [elt d a' pi] ++ right)).
    { eapply Permutation_trans; [exact Hperm |].
      rewrite (split_at pi a') at 1. rewrite Hpivot. apply Permutation_refl. }
    assert (Hpopped : forall part, (List.length part <= fuel)%nat ->
              Permutation part
                (if (cdepth - 1 <? 0)%Z then npy_aheapsort less part
                 else quick less fuel (cdepth - 1) part) /\
              StronglySorted (fun x y => less y x = false)
                (if (cdepth - 1 <? 0)%Z then npy_aheapsort less part
                 else quick less fuel (cdepth - 1) part)).
    { intros part Hpart. destruct (cdepth - 1 <? 0)%Z;
        [apply npy_aheapsort_spec | now apply IH]. }
    destruct (IH (cdepth - 1)%Z left Hleft) as [PL SL].
    destruct (IH (cdepth - 1)%Z right Hright) as [PR SR].
    destruct (Hpopped left Hleft) as [PL' SL'].
    destruct (Hpopped right Hright) as [PR' SR'].
    destruct (List.length left <? List.length right)%nat.
    + split.
      * eapply Permutation_trans; [exact Hsplit |].
        apply Permutation_app; [exact PL |].
        apply Permutation_app_head. exact PR'.
      * now apply (sorted_around left right).
    + split.
      * eapply Permutation_trans; [exact Hsplit |].
        apply Permutation_app; [exact PL' |].
        apply Permutation_app_head. exact PR.
      * now apply (sorted_around left right).
Qed.

Lemma npy_aquicksort_spec (a : list A) :
  Permutation a (npy_aquicksort less a) /\
  StronglySorted (fun x y => less y x = false) (npy_aquicksort less a).
Proof.
  unfold npy_aquicksort. apply quick_spec. lia.
Qed.

End NpysortFacts.

(** ** The two sample sorts meet the contract of [sort_values] *)

Lemma stable_sort_values_contract : sort_values_contract stable_sort_values.
Proof.
  intros by_ ascending t. unfold stable_sort_values. split.
  - apply insertion_sort_perm.
  - apply insertion_sort_sorted.
    + apply row_le_trans.
    + intros x y H. exact H.
    + intros x y H. unfold row_le.
      destruct (wo_total (row_compare_weak_order by_ ascending) x y) as [H'|H'].
      * unfold row_leb in H. rewrite H' in H. discriminate.
      * exact H'.
Qed.

Lemma tie_reversing_sort_values_contract :
  sort_values_contract tie_reversing_sort_values.
Proof.
  intros by_ ascending t. unfold tie_reversing_sort_values. split.
  - apply insertion_sort_perm.
  - apply insertion_sort_sorted.
    + apply row_le_trans.
    + intros x y H. unfold row_le.
      destruct (wo_total (row_compare_weak_order by_ ascending) x y) as [H'|H'].
      * exact H'.
      * unfold row_leb in H. rewrite H' in H. discriminate.
    + intros x y H. apply negb_false_iff in H. exact H.
Qed.

Lemma stable_sort_values_ties (by_ : sort_by) (ascending : bool) (t : list Row) :
  ties_in_order by_ ascending t (stable_sort_values by_ ascending t).
Proof.
  intros r. unfold stable_sort_values. apply insertion_sort_stable.
  intros x y Hx Hy. unfold same_key in Hx, Hy. unfold row_leb.
  destruct (row_compare by_ ascending r x) eqn:Ex; try discriminate.
  destruct (row_compare by_ ascending r y) eqn:Ey; try discriminate.
  apply (wo_same_key_le (row_compare_weak_order by_ ascending) r x y Ex Ey).
Qed.

Lemma stable_sort_values_keeps_sorted : keeps_sorted stable_sort_values.
Proof.
  intros by_ ascending t Hs. unfold stable_sort_values.
  apply insertion_sort_sorted_id with (le := row_le by_ ascending).
  - intros x y H. exact H.
  - exact Hs.
Qed.

(** ** Filter, sort, limit *)

Lemma row_leb_ProbUp_descending (a b : Row) :
  row_leb ByProbUp false a b = ProbUp_descending a b.
Proof.
  unfold row_leb, row_compare, ProbUp_descending, f64_leb, notna.
  destruct (ProbUp a), (ProbUp b); reflexivity.
Qed.

Lemma row_leb_ProbUp_ascending (a b : Row) :
  row_leb ByProbUp true a b = ProbUp_ascending a b.
Proof.
  unfold row_leb, row_compare, ProbUp_ascending, f64_leb, notna.
  destruct (ProbUp a), (ProbUp b); reflexivity.
Qed.

Lemma row_leb_Ticker_ascending (a b : Row) :
  row_leb ByTicker true a b = Ticker_ascending a b.
Proof.
  unfold row_leb, row_compare, Ticker_ascending, String.leb.
  destruct (Ticker a) as [x|], (Ticker b) as [y|]; reflexivity.
Qed.

Lemma StronglySorted_ext (A : Type) (R S : A -> A -> Prop) (l : list A) :
  (forall a b, R a b -> S a b) -> StronglySorted R l -> StronglySorted S l.
Proof.
  intros HRS. induction 1 as [|a l Hs IH Hall]; constructor.
  - exact IH.
  - eapply Forall_impl; [| exact Hall]. intros b. apply HRS.
Qed.

Lemma StronglySorted_firstn (A : Type) (R : A -> A -> Prop) (n : nat) (l : list A) :
  StronglySorted R l -> StronglySorted R (firstn n l).
Proof.
  intros Hs. revert n. induction Hs as [|a l Hs IH Hall]; intros [|n]; simpl;
    try constructor.
  - apply IH.
  - rewrite Forall_forall in *. intros x Hx. apply Hall.
    rewrite <- (firstn_skipn n l). apply in_or_app. now left.
Qed.

Lemma In_firstn (A : Type) (n : nat) (l : list A) (x : A) :
  In x (firstn n l) -> In x l.
Proof.
  intros H. rewrite <- (firstn_skipn n l). apply in_or_app. now left.
Qed.

Lemma filter_all (A : Type) (p : A -> bool) (l : list A) :
  (forall x, In x l -> p x = true) -> filter p l = l.
Proof.
  intros H. apply forallb_filter_id. now apply forallb_forall.
Qed.

Lemma In_apply_limit (f : filters) (t : list Row) (r : Row) :
  In r (apply_limit f t) -> In r t.
Proof.
  unfold apply_limit, head. destruct (limit_option f) as [n|]; [| tauto].
  destruct (0 <=? n)%Z; apply In_firstn.
Qed.

(** ** The sort of pandas meets the contract of [sort_values] *)

Lemma row_less_asym (by_ : sort_by) (x y : Row) :
  row_less by_ x y = true -> row_less by_ y x = false.
Proof.
  unfold row_less. rewrite (wo_antisym (row_compare_weak_order by_ true) x y).
  destruct (row_compare by_ true x y); simpl; congruence.
Qed.

Lemma row_less_le (by_ : sort_by) (x y : Row) :
  row_less by_ y x = false <-> row_le by_ true x y.
Proof.
  unfold row_less, row_le, row_leb.
  rewrite (wo_antisym (row_compare_weak_order by_ true) x y).
  destruct (row_compare by_ true x y); simpl; split; congruence.
Qed.

Lemma row_not_less_trans (by_ : sort_by) (x y z : Row) :
  row_less by_ y x = false -> row_less by_ z y = false ->
  row_less by_ z x = false.
Proof.
  rewrite !row_less_le. apply row_le_trans.
Qed.

(** A row without a key stands after every row. *)
Lemma row_le_no_key (by_ : sort_by) (ascending : bool) (a b : Row) :
  by_ <> ByTickerDate -> has_key by_ b = false -> row_le by_ ascending a b.
Proof.
  intros Hby Hb. unfold row_le, row_leb, row_compare, has_key, notna in *.
  destruct by_; [| | contradiction].
  - destruct (f64_isnan (ProbUp b)); [| discriminate].
    now destruct (f64_isnan (ProbUp a)).
  - destruct (Ticker b); [discriminate |]. now destruct (Ticker a).
Qed.

(** Among rows with a key, descending order is ascending order read
    backwards. *)
Lemma row_le_descending (by_ : sort_by) (a b : Row) :
  by_ <> ByTickerDate -> has_key by_ a = true -> has_key by_ b = true ->
  row_less by_ a b = false -> row_le by_ false a b.
Proof.
  intros Hby Ha Hb. unfold row_less, row_le, row_leb, row_compare, has_key, notna in *.
  destruct by_; [| | contradiction].
  - destruct (f64_isnan (ProbUp a)); [discriminate |].
    destruct (f64_isnan (ProbUp b)); [discriminate |]. cbn [cmp_nulls_last].
    rewrite (wo_antisym f64_compare_weak_order (ProbUp a) (ProbUp b)).
    destruct (f64_compare (ProbUp a) (ProbUp b)); simpl; congruence.
  - destruct (Ticker a) as [x|]; [| discriminate].
    destruct (Ticker b) as [y|]; [| discriminate]. cbn [cmp_nulls_last].
    rewrite (wo_antisym string_compare_weak_order x y).
    destruct (String.compare x y); simpl; congruence.
Qed.

Lemma filter_split_perm (A : Type) (p : A -> bool) (l : list A) :
  Permutation l (filter p l ++ filter (fun x => negb (p x)) l).
Proof.
  induction l as [|x l IH]; cbn [filter]; [apply Permutation_refl |].
  destruct (p x); cbn [negb app].
  - now apply perm_skip.
  - now apply Permutation_cons_app.
Qed.

Lemma StronglySorted_rev (A : Type) (R : A -> A -> Prop) (l : list A) :
  StronglySorted R l -> StronglySorted (fun x y => R y x) (rev l).
Proof.
  induction 1 as [|a l Hs IH Hall]; cbn [rev]; [constructor |].
  apply StronglySorted_app; [exact IH | repeat constructor |].
  intros x y Hx [<-|[]]. rewrite Forall_forall in Hall.
  apply Hall. now apply in_rev.
Qed.

Lemma StronglySorted_ext_in (A : Type) (R S : A -> A -> Prop) (l : list A) :
  (forall a b, In a l -> In b l -> R a b -> S a b) ->
  StronglySorted R l -> StronglySorted S l.
Proof.
  intros HRS Hs. induction Hs as [|a l Hs IH Hall]; constructor.
  - apply IH. intros x y Hx Hy. apply HRS; now right.
  - rewrite Forall_forall in *. intros b Hb.
    apply HRS; [now left | now right | now apply Hall].
Qed.

Lemma StronglySorted_all (A : Type) (R : A -> A -> Prop) (l : list A) :
  (forall a b, In a l -> In b l -> R a b) -> StronglySorted R l.
Proof.
  induction l as [|x l IH]; intros H; constructor.
  - apply IH. intros a b Ha Hb. apply H; now right.
  - apply Forall_forall. intros b Hb. apply H; [now left | now right].
Qed.

Lemma nargsort_contract (by_ : sort_by) (ascending : bool) (t : list Row) :
  by_ <> ByTickerDate ->
  Permutation t (nargsort by_ ascending t) /\
  StronglySorted (row_le by_ ascending) (nargsort by_ ascending t).
Proof.
  intros Hby. unfold nargsort.
  set (non_nans := filter (has_key by_) t).
  set (nans := filter (fun r => negb (has_key by_ r)) t).
  pose proof (filter_split_perm Row (has_key by_) t) as Hsplit.
  fold non_nans nans in Hsplit.
  assert (Hnans : forall a b, In b nans -> row_le by_ ascending a b).
  { intros a b Hb. apply row_le_no_key; [exact Hby |].
    apply filter_In in Hb. destruct Hb as [_ Hb]. now apply negb_true_iff. }
  destruct (npy_aquicksort_spec Row (row_less by_) (row_less_asym by_)
              (row_not_less_trans by_)
              (if ascending then non_nans else rev non_nans))
    as [Hperm Hsorted].
  set (sorted := npy_aquicksort (row_less by_)
                                (if ascending then non_nans else rev non_nans))
    in *.
  assert (Hkeyed : forall a, In a sorted -> has_key by_ a = true).
  { intros a Ha. apply (Permutation_in _ (Permutation_sym Hperm)) in Ha.
    assert (Hin : In a non_nans) by (destruct ascending; [exact Ha | now apply in_rev]).
    apply filter_In in Hin. tauto. }
  destruct ascending.
  - split.
    + eapply Permutation_trans; [exact Hsplit |]. now apply Permutation_app_tail.
    + apply StronglySorted_app.
      * eapply StronglySorted_ext; [| exact Hsorted].
        intros a b. apply row_less_le.
      * apply StronglySorted_all. intros a b _ Hb. now apply Hnans.
      * intros a b _ Hb. now apply Hnans.
  - split.
    + eapply Permutation_trans; [exact Hsplit |]. apply Permutation_app_tail.
      eapply Permutation_trans; [apply Permutation_rev |].
      eapply Permutation_trans; [exact Hperm |]. apply Permutation_rev.
    + apply StronglySorted_app.
      * apply StronglySorted_rev in Hsorted.
        eapply StronglySorted_ext_in; [| exact Hsorted].
        intros a b Ha Hb H. cbv beta in H.
        apply row_le_descending; [exact Hby | | | exact H];
          apply Hkeyed; now apply in_rev.
      * apply StronglySorted_all. intros a b _ Hb. now apply Hnans.
      * intros a b _ Hb. now apply Hnans.
Qed.

(** The introsort, with the heap sort it falls back on, sorts: what pandas
    documents of [sort_values] holds of the sort as NumPy carries it out. *)
Lemma quicksort_values_contract : sort_values_contract quicksort_values.
Proof.
  intros by_ ascending t. unfold quicksort_values.
  destruct by_; try (apply nargsort_contract; discriminate).
  apply stable_sort_values_contract.
Qed.

Lemma sort_rows_contract (sv : sorter) (f : filters) (t : list Row) :
  sort_values_contract sv ->
  Permutation t (sort_rows sv f t) /\
  StronglySorted (row_le (fst (sort_mode f)) (snd (sort_mode f))) (sort_rows sv f t).
Proof.
  intros Hsv. unfold sort_rows. destruct (sort_mode f) as [by_ ascending].
  apply Hsv.
Qed.

Lemma In_filter_sort_limit (sv : sorter) (f : filters) (df : list Row) (r : Row) :
  sort_values_contract sv ->
  In r (filter_sort_limit sv f df) ->
  In r (range_filter f (signal_filter f df)).
Proof.
  intros Hsv HIn. unfold filter_sort_limit in HIn.
  apply In_apply_limit in HIn.
  destruct (sort_rows_contract sv f (range_filter f (signal_filter f df)) Hsv)
    as [Hperm _].
  apply (Permutation_in r (Permutation_sym Hperm) HIn).
Qed.

(** The claim of C2 fails.  On eighteen rows of one ticker, sorted by
    Ticker, the partition of the introsort exchanges rows with equal keys:
    the rows with the index labels 1 to 15 come out in reverse. *)
Lemma sort_rows_ties_counterexample :
  let df := map (fun i => sample_row i "A" (Some (Z.of_nat i)) (1 # 2) "UP")
                (seq 0 18) in
  let f := all_rows "Alphabetical (Ticker)" in
  map index (sort_rows quicksort_values f df)
  = [0; 15; 14; 13; 12; 11; 10; 9; 8; 7; 6; 5; 4; 3; 2; 1; 16; 17]%nat /\
  ~ ties_in_order (fst (sort_mode f)) (snd (sort_mode f))
                  df (sort_rows quicksort_values f df).
Proof.
  intros df f. split; [vm_compute; reflexivity |].
  intros H. specialize (H (sample_row 0 "A" (Some 0%Z) (1 # 2) "UP")).
  vm_compute in H. discriminate H.
Qed.

(** Whatever sort meets the contract of [sort_values], the sort step returns
    the rows it was given in the order of the option. *)
Lemma sort_rows_ordered (sv : sorter) (f : filters) (df : list Row) :
  sort_values_contract sv ->
  Permutation df (sort_rows sv f df) /\
  (sort_option f = "ProbUp descending" ->
   in_order ProbUp_descending (sort_rows sv f df)) /\
  (sort_option f = "ProbUp ascending" ->
   in_order ProbUp_ascending (sort_rows sv f df)) /\
  (sort_option f <> "ProbUp descending" ->
   sort_option f <> "ProbUp ascending" ->
   in_order Ticker_ascending (sort_rows sv f df)).
Proof.
  intros Hsv.
  destruct (sort_rows_contract sv f df Hsv) as [Hperm Hsorted].
  split; [exact Hperm |]. unfold sort_mode in Hsorted. unfold in_order.
  repeat split.
  - intros E. rewrite E in Hsorted. simpl in Hsorted.
    eapply StronglySorted_ext; [| exact Hsorted].
    intros a b. unfold row_le. now rewrite row_leb_ProbUp_descending.
  - intros E. rewrite E in Hsorted. simpl in Hsorted.
    eapply StronglySorted_ext; [| exact Hsorted].
    intros a b. unfold row_le. now rewrite row_leb_ProbUp_ascending.
  - intros E1 E2.
    apply String.eqb_neq in E1, E2. rewrite E1, E2 in Hsorted.
    eapply StronglySorted_ext; [| exact Hsorted].
    intros a b. unfold row_le. simpl. now rewrite row_leb_Ticker_ascending.
Qed.

(** C2, amended.  The sort step, with the sort of pandas as NumPy carries it
    out (the introsort and the heap sort it falls back on), returns the rows
    it was given, in descending ProbUp order for "ProbUp descending", in
    ascending ProbUp order for "ProbUp ascending" and in ascending Ticker
    order for any other option, rows without a key last in each mode.
    Nothing is promised of the order of rows with equal keys. *)
Theorem sort_rows_in_order :
  forall (f : filters) (df : list Row),
    let out := sort_rows quicksort_values f df in
    Permutation df out /\
    (sort_option f = "ProbUp descending" -> in_order ProbUp_descending out) /\
    (sort_option f = "ProbUp ascending" -> in_order ProbUp_ascending out) /\
    (sort_option f <> "ProbUp descending" ->
     sort_option f <> "ProbUp ascending" ->
     in_order Ticker_ascending out).
Proof.
  intros f df out. apply sort_rows_ordered. exact quicksort_values_contract.
Qed.

Lemma sort_rows_in_order_witness :
  let df := map (fun i => sample_row i "A" None (Z.of_nat (i * 7 mod 20) # 20) "UP")
                (seq 0 20) in
  let out := sort_rows quicksort_values (all_rows "ProbUp descending") df in
  Permutation df out /\ in_order ProbUp_descending out /\
  map index out = [17; 14; 11; 8; 5; 2; 19; 16; 13; 10; 7; 4; 1; 18; 15; 12;
                   9; 6; 3; 0]%nat.
Proof.
  intros df out.
  destruct (sort_rows_in_order (all_rows "ProbUp descending") df)
    as [Hperm [Hdesc _]].
  split; [exact Hperm |]. split; [apply Hdesc; reflexivity |].
  vm_compute. reflexivity.
Defined.

(** C3.  With both flags false the signal filter keeps the rows it keeps
    with both flags true, and so do the two tabs. *)
Theorem both_flags_false_as_both_true :
  forall (sv : sorter) (pr : option (f64 * f64)) (lim : limit) (so : string)
         (df : list Row),
    let neither := mkFilters false false pr lim so in
    let both := mkFilters true true pr lim so in
    signal_filter neither df = signal_filter both df /\
    render_probability_tab sv neither df = render_probability_tab sv both df /\
    render_share_tab sv neither df = render_share_tab sv both df.
Proof.
  intros sv pr lim so df neither both. repeat split; reflexivity.
Qed.

Lemma range_filter_In (f : filters) (df : list Row) (r : Row) :
  In r (range_filter f df) <->
  In r df /\
  f64_leb (fst (range_bounds f)) (fillna_minus_one (ProbUp r)) = true /\
  f64_leb (fillna_minus_one (ProbUp r)) (snd (range_bounds f)) = true.
Proof.
  unfold range_filter. destruct (range_bounds f) as [pmin pmax].
  rewrite filter_In. unfold f64_geb. simpl. now rewrite andb_true_iff.
Qed.

Lemma null_ProbUp_not_in_range (f : filters) (df : list Row) (r : Row)
      (pmin pmax : Q) :
  range_bounds f = (Fin pmin, Fin pmax) -> (0 <= pmin)%Q -> ProbUp r = NaN ->
  ~ In r (range_filter f df).
Proof.
  intros Hb Hmin Hnan HIn. apply range_filter_In in HIn.
  destruct HIn as [_ [Hlo _]]. rewrite Hb, Hnan in Hlo.
  unfold f64_leb, f64_compare in Hlo. simpl in Hlo.
  destruct (pmin ?= -1)%Q eqn:E; try discriminate.
  - apply Qeq_alt in E. rewrite E in Hmin. now apply Hmin.
  - apply Qlt_alt in E. apply (Qlt_irrefl 0%Q).
    apply Qle_lt_trans with pmin; [exact Hmin |].
    apply Qlt_trans with (-1)%Q; [exact E | reflexivity].
Qed.

Lemma f64_leb_Fin (a b : Q) : f64_leb (Fin a) (Fin b) = Qle_bool a b.
Proof.
  unfold f64_leb, f64_compare. cbn [f64_isnan orb].
  destruct (Qle_bool a b) eqn:E.
  - apply Qle_bool_iff in E. pose proof (proj1 (Qle_alt a b) E) as E'.
    destruct (a ?= b)%Q; try reflexivity. now elim E'.
  - destruct (a ?= b)%Q eqn:C; try reflexivity; exfalso;
      assert (H : Qle_bool a b = true)
        by (apply Qle_bool_iff, Qle_alt; rewrite C; discriminate);
      congruence.
Qed.

Lemma range_test_within (pmin pmax : Q) (x : f64) :
  f64_geb x (Fin pmin) && f64_leb x (Fin pmax) = within_range pmin pmax x.
Proof.
  unfold f64_geb. destruct x as [| |q|]; try reflexivity.
  all: cbn [within_range]; now rewrite !f64_leb_Fin.
Qed.

Lemma range_filter_within (f : filters) (df : list Row) (pmin pmax : Q) :
  prob_range f = Some (Fin pmin, Fin pmax) ->
  range_filter f df
  = filter (fun r => within_range pmin pmax (fillna_minus_one (ProbUp r))) df.
Proof.
  intros Hr. unfold range_filter, range_bounds. rewrite Hr.
  apply filter_ext. intros r. apply range_test_within.
Qed.

Lemma within_range_fillna (pmin pmax : Q) (x : f64) :
  (0 <= pmin)%Q ->
  within_range pmin pmax (fillna_minus_one x) = within_range pmin pmax x.
Proof.
  intros Hmin. destruct x as [| |q|]; try reflexivity.
  cbn [fillna_minus_one f64_isnan within_range].
  destruct (Qle_bool pmin (-1)) eqn:E; [| reflexivity].
  apply Qle_bool_iff in E. exfalso. apply (Qlt_irrefl 0%Q).
  apply Qle_lt_trans with pmin; [exact Hmin |].
  apply Qle_lt_trans with (-1)%Q; [exact E | reflexivity].
Qed.

(** C4.  With the bounds [pmin] and [pmax] of the FilterSpec, the range
    test reads a null ProbUp as -1 and any other ProbUp as it is, and keeps
    exactly the rows whose value so read is a number with
    pmin <= value <= pmax, both ends included, in the order of the table.
    When 0 <= pmin these are exactly the rows whose ProbUp is a number
    within the bounds: a row with a null ProbUp is dropped and is in no
    output of the pipeline.  The test is a total function: no value makes
    it fail. *)
Theorem range_filter_null_ProbUp :
  forall sv : sorter, sort_values_contract sv ->
  forall (f : filters) (df : list Row) (pmin pmax : Q),
    prob_range f = Some (Fin pmin, Fin pmax) ->
    (forall r, ProbUp r = NaN -> fillna_minus_one (ProbUp r) = Fin (-1)%Q) /\
    (forall r, ProbUp r <> NaN -> fillna_minus_one (ProbUp r) = ProbUp r) /\
    range_filter f df
    = filter (fun r => within_range pmin pmax (fillna_minus_one (ProbUp r)))
             df /\
    ((0 <= pmin)%Q ->
     range_filter f df
     = filter (fun r => within_range pmin pmax (ProbUp r)) df /\
     (forall r, In r (range_filter f df) <->
                In r df /\
                exists q, ProbUp r = Fin q /\ (pmin <= q)%Q /\ (q <= pmax)%Q) /\
     (forall r, ProbUp r = NaN ->
                ~ In r (range_filter f df) /\
                ~ In r (filter_sort_limit sv f df))).
Proof.
  intros sv Hsv f df pmin pmax Hrange.
  split; [intros r ->; reflexivity |].
  split; [intros r Hr; destruct (ProbUp r) eqn:E; try reflexivity; congruence |].
  pose proof (range_filter_within f df pmin pmax Hrange) as Hfill.
  split; [exact Hfill |].
  intros Hmin.
  assert (Hplain : range_filter f df
                   = filter (fun r => within_range pmin pmax (ProbUp r)) df).
  { rewrite Hfill. apply filter_ext. intros r.
    now apply within_range_fillna. }
  assert (HIn : forall r, In r (range_filter f df) <->
                  In r df /\
                  exists q, ProbUp r = Fin q /\ (pmin <= q)%Q /\ (q <= pmax)%Q).
  { intros r. rewrite Hplain, filter_In. split.
    - intros [Hr Hw]. split; [exact Hr |].
      destruct (ProbUp r) as [| |q|]; try discriminate Hw.
      cbn [within_range] in Hw. apply andb_true_iff in Hw.
      destruct Hw as [H1 H2]. apply Qle_bool_iff in H1, H2. eauto.
    - intros [Hr [q [E [H1 H2]]]]. split; [exact Hr |]. rewrite E.
      cbn [within_range]. apply andb_true_iff.
      split; now apply Qle_bool_iff. }
  split; [exact Hplain |]. split; [exact HIn |].
  intros r Hnan.
  assert (Hout : ~ In r (range_filter f df)).
  { intros H. apply HIn in H. destruct H as [_ [q [E _]]]. congruence. }
  split; [exact Hout |].
  intros H. apply (In_filter_sort_limit sv f df r Hsv) in H.
  rewrite (range_filter_within f _ pmin pmax Hrange) in H.
  apply filter_In in H. destruct H as [_ Hw].
  rewrite (within_range_fillna pmin pmax _ Hmin), Hnan in Hw. discriminate Hw.
Qed.

Lemma range_filter_null_ProbUp_witness :
  let null_row := mkRow 0 (Some "A") None NaN (CObj (JStr "UP")) in
  let low := sample_row 1 "B" None (1 # 10) "UP" in
  let mid := sample_row 2 "C" None (7 # 10) "UP" in
  let high := sample_row 3 "D" None 1 "UP" in
  let edge := sample_row 4 "E" None (9 # 10) "UP" in
  let df := [null_row; low; mid; high; edge] in
  let f := mkFilters true true (Some (Fin (3 # 5), Fin (9 # 10))) LimitAll
                     "ProbUp descending" in
  range_filter f df = [mid; edge] /\
  ~ In null_row (filter_sort_limit stable_sort_values f df).
Proof.
  intros null_row low mid high edge df f.
  destruct (range_filter_null_ProbUp stable_sort_values
              stable_sort_values_contract f df (3 # 5) (9 # 10) eq_refl)
    as [_ [_ [_ Hpos]]].
  destruct Hpos as [Hplain [_ Hnull]]; [discriminate |].
  split; [rewrite Hplain; reflexivity |].
  now apply Hnull.
Defined.

Lemma signal_filter_kept (f : filters) (t : list Row) :
  (forall r, In r t -> In r (signal_filter f t)) -> signal_filter f t = t.
Proof.
  intros H. apply filter_all. intros r Hr.
  apply H in Hr. unfold signal_filter in Hr. now apply filter_In in Hr.
Qed.

Lemma range_filter_kept (f : filters) (t : list Row) :
  (forall r, In r t -> In r (range_filter f t)) -> range_filter f t = t.
Proof.
  unfold range_filter. destruct (range_bounds f) as [pmin pmax].
  intros H. apply filter_all. intros r Hr.
  apply H in Hr. now apply filter_In in Hr.
Qed.

Lemma filters_keep_output (sv : sorter) (f : filters) (df : list Row) :
  sort_values_contract sv ->
  let out := filter_sort_limit sv f df in
  range_filter f (signal_filter f out) = out.
Proof.
  intros Hsv out.
  assert (Hin : forall r, In r out ->
                          In r (range_filter f (signal_filter f df))).
  { intros r. apply In_filter_sort_limit. exact Hsv. }
  assert (Hsig : signal_filter f out = out).
  { apply signal_filter_kept. intros r Hr. unfold signal_filter.
    apply filter_In. split; [exact Hr |].
    apply Hin, range_filter_In in Hr. destruct Hr as [Hr _].
    unfold signal_filter in Hr. now apply filter_In in Hr. }
  rewrite Hsig. apply range_filter_kept. intros r Hr.
  apply range_filter_In. split; [exact Hr |].
  apply Hin, range_filter_In in Hr. tauto.
Qed.

Lemma filter_sort_limit_sorted (sv : sorter) (f : filters) (df : list Row) :
  sort_values_contract sv ->
  StronglySorted (row_le (fst (sort_mode f)) (snd (sort_mode f)))
                 (filter_sort_limit sv f df).
Proof.
  intros Hsv. unfold filter_sort_limit.
  destruct (sort_rows_contract sv f (range_filter f (signal_filter f df)) Hsv)
    as [_ Hs].
  unfold apply_limit, head. destruct (limit_option f) as [n|]; [| exact Hs].
  destruct (0 <=? n)%Z; now apply StronglySorted_firstn.
Qed.

Lemma apply_limit_short (f : filters) (s t : list Row) :
  prefix_limit (limit_option f) ->
  List.length t = List.length (apply_limit f s) -> apply_limit f t = t.
Proof.
  unfold apply_limit, head, prefix_limit.
  destruct (limit_option f) as [n|]; [| reflexivity].
  intros Hn Hlen. apply Z.leb_le in Hn. rewrite Hn in *.
  apply firstn_all2. rewrite Hlen. apply firstn_le_length.
Qed.

(** The claim of C6 fails.  On eighteen rows of one ticker, with every
    row kept and sorted by Ticker, the first pass returns the rows 1 to 15
    in reverse and the second pass, on that output, reverses them again. *)
Lemma filter_sort_limit_idempotent_counterexample :
  let df := map (fun i => sample_row i "A" (Some (Z.of_nat i)) (1 # 2) "UP")
                (seq 0 18) in
  let f := all_rows "Alphabetical (Ticker)" in
  let sv := quicksort_values in
  map index (filter_sort_limit sv f df)
  = [0; 15; 14; 13; 12; 11; 10; 9; 8; 7; 6; 5; 4; 3; 2; 1; 16; 17]%nat /\
  filter_sort_limit sv f (filter_sort_limit sv f df) = df /\
  filter_sort_limit sv f (filter_sort_limit sv f df)
  <> filter_sort_limit sv f df.
Proof.
  intros df f sv.
  split; [vm_compute; reflexivity |].
  split; [vm_compute; reflexivity |].
  vm_compute. discriminate.
Qed.

(** Two tables in order that hold the same rows are the same table when
    no two rows have the same key. *)
Lemma sorted_unique (by_ : sort_by) (ascending : bool) :
  forall t u : list Row,
    Permutation t u ->
    StronglySorted (row_le by_ ascending) t ->
    StronglySorted (row_le by_ ascending) u ->
    distinct_keys by_ ascending t ->
    u = t.
Proof.
  unfold distinct_keys.
  induction t as [|a t IH]; intros u Hperm Ht Hu Hd.
  - now apply Permutation_nil in Hperm.
  - destruct u as [|b u];
      [apply Permutation_sym, Permutation_nil in Hperm; discriminate |].
    apply StronglySorted_inv in Ht. destruct Ht as [Ht Hta].
    apply StronglySorted_inv in Hu. destruct Hu as [Hu Hub].
    inversion Hd as [|a0 t0 Hda Hd']; subst.
    rewrite Forall_forall in Hta, Hub, Hda.
    assert (E : a = b).
    { assert (Ha : In a (b :: u)) by (apply (Permutation_in _ Hperm); now left).
      assert (Hb : In b (a :: t))
        by (apply (Permutation_in _ (Permutation_sym Hperm)); now left).
      destruct Hb as [Hb|Hb]; [exact Hb |].
      destruct Ha as [Ha|Ha]; [now symmetry |].
      exfalso. apply (Hda b Hb).
      pose proof (Hta b Hb) as Hab. pose proof (Hub a Ha) as Hba.
      unfold row_le, row_leb in Hab, Hba.
      rewrite (wo_antisym (row_compare_weak_order by_ ascending) a b) in Hba.
      destruct (row_compare by_ ascending a b); simpl in *; congruence. }
    subst b. f_equal. apply IH; try assumption.
    now apply Permutation_cons_inv in Hperm.
Qed.

(** C6, amended.  For a limit that is "All" or a non-negative integer,
    applying the pipeline to its own output returns the rows of that output,
    sorted by the same key.  It returns the output itself, rows in the same
    order, when no two rows of the output have the same sort key, and when
    the sort leaves a table that is already in order as it is. *)
Theorem filter_sort_limit_idempotent :
  forall sv : sorter, sort_values_contract sv ->
  forall (f : filters) (df : list Row),
    prefix_limit (limit_option f) ->
    let out := filter_sort_limit sv f df in
    Permutation out (filter_sort_limit sv f out) /\
    StronglySorted (row_le (fst (sort_mode f)) (snd (sort_mode f)))
                   (filter_sort_limit sv f out) /\
    (distinct_keys (fst (sort_mode f)) (snd (sort_mode f)) out ->
     filter_sort_limit sv f out = out) /\
    (keeps_sorted sv -> filter_sort_limit sv f out = out).
Proof.
  intros sv Hsv f df Hlim out.
  assert (Hstep : filter_sort_limit sv f out = apply_limit f (sort_rows sv f out)).
  { pose proof (filters_keep_output sv f df Hsv) as Hkept.
    cbv zeta in Hkept. fold out in Hkept.
    unfold filter_sort_limit at 1. now rewrite Hkept. }
  destruct (sort_rows_contract sv f out Hsv) as [Hperm Hsorted].
  assert (Hshort : apply_limit f (sort_rows sv f out) = sort_rows sv f out).
  { apply apply_limit_short
      with (s := sort_rows sv f (range_filter f (signal_filter f df))).
    - exact Hlim.
    - symmetry. apply (Permutation_length Hperm). }
  pose proof (filter_sort_limit_sorted sv f df Hsv) as Hout.
  fold out in Hout.
  split; [| split; [| split]].
  - rewrite Hstep, Hshort. exact Hperm.
  - now apply filter_sort_limit_sorted.
  - intros Hdistinct. rewrite Hstep, Hshort.
    now apply (sorted_unique (fst (sort_mode f)) (snd (sort_mode f))).
  - intros Hkeep. rewrite Hstep, Hshort. unfold sort_rows.
    destruct (sort_mode f) as [by_ ascending] eqn:Emode.
    apply Hkeep. exact Hout.
Qed.

Lemma filter_sort_limit_idempotent_witness :
  let f := mkFilters true false (Some (Fin 0%Q, Fin 1%Q)) (LimitInt 10)
                     "ProbUp descending" in
  let df := map (fun i => sample_row i "A" None (Z.of_nat (i * 7 mod 20) # 20) "UP")
                (seq 0 20) in
  map index (filter_sort_limit quicksort_values f df)
  = [17; 14; 11; 8; 5; 2; 19; 16; 13; 10]%nat /\
  filter_sort_limit quicksort_values f
    (filter_sort_limit quicksort_values f df)
  = filter_sort_limit quicksort_values f df.
Proof.
  intros f df. split; [vm_compute; reflexivity |].
  destruct (filter_sort_limit_idempotent quicksort_values
              quicksort_values_contract f df) as [_ [_ [Hsame _]]].
  - simpl. lia.
  - apply Hsame. unfold distinct_keys. vm_compute.
    repeat constructor; discriminate.
Defined.

(** ** The latest row of each ticker (share_tab.py 132-135) *)

Lemma StronglySorted_filter (A : Type) (R : A -> A -> Prop) (p : A -> bool)
      (l : list A) :
  StronglySorted R l -> StronglySorted R (filter p l).
Proof.
  induction 1 as [|a l Hs IH Hall]; simpl; [constructor |].
  destruct (p a); [| exact IH].
  constructor; [exact IH |].
  rewrite Forall_forall in *. intros x Hx. apply Hall.
  now apply filter_In in Hx.
Qed.

Lemma StronglySorted_before (A : Type) (R : A -> A -> Prop)
      (l1 l2 : list A) (x y : A) :
  StronglySorted R (l1 ++ x :: l2) -> In y l1 -> R y x.
Proof.
  induction l1 as [|a l1 IH]; simpl; intros Hs HIn; [contradiction |].
  apply StronglySorted_inv in Hs. destruct Hs as [Hs Hall].
  destruct HIn as [->|HIn].
  - rewrite Forall_forall in Hall. apply Hall.
    apply in_or_app. right. now left.
  - now apply IH.
Qed.

Lemma same_ticker_iff (a b : Row) :
  same_ticker a b = true <-> Ticker a = Ticker b /\ Ticker a <> None.
Proof.
  unfold same_ticker.
  destruct (Ticker a) as [x|], (Ticker b) as [y|]; split;
    try discriminate; try (intros [E H]; congruence).
  - intros H. apply String.eqb_eq in H. subst. split; congruence.
  - intros [E _]. injection E as ->. apply String.eqb_refl.
Qed.

Lemma tail1_In (l : list Row) (r : Row) :
  In r (groupby_Ticker_tail1 l) -> In r l /\ Ticker r <> None.
Proof.
  induction l as [|a l IH]; simpl; [contradiction |].
  destruct (Ticker a) as [k|] eqn:Ek.
  - destruct (existsb (same_ticker a) l).
    + intros H. apply IH in H. tauto.
    + intros [<-|H]; [split; [now left | congruence] |].
      apply IH in H. tauto.
  - intros H. apply IH in H. tauto.
Qed.

(** A kept row is the last of its ticker. *)
Lemma tail1_last (l : list Row) (r : Row) :
  In r (groupby_Ticker_tail1 l) ->
  exists l1 l2, l = l1 ++ r :: l2 /\ existsb (same_ticker r) l2 = false.
Proof.
  induction l as [|a l IH]; simpl; [contradiction |].
  assert (Hrest : In r (groupby_Ticker_tail1 l) ->
                  exists l1 l2, a :: l = l1 ++ r :: l2 /\
                                existsb (same_ticker r) l2 = false).
  { intros H. destruct (IH H) as [l1 [l2 [-> Hl2]]].
    exists (a :: l1), l2. split; [reflexivity | exact Hl2]. }
  destruct (Ticker a) as [k|]; [| exact Hrest].
  destruct (existsb (same_ticker a) l) eqn:Ex; [exact Hrest |].
  intros [<-|H]; [| now apply Hrest].
  exists [], l. split; [reflexivity | exact Ex].
Qed.

Lemma tail1_NoDup (l : list Row) :
  NoDup (map Ticker (groupby_Ticker_tail1 l)).
Proof.
  induction l as [|a l IH]; simpl; [constructor |].
  destruct (Ticker a) as [k|] eqn:Ek; [| exact IH].
  destruct (existsb (same_ticker a) l) eqn:Ex; [exact IH |].
  simpl. constructor; [| exact IH].
  intros HIn. apply in_map_iff in HIn. destruct HIn as [r [Hr HIn]].
  apply tail1_In in HIn. destruct HIn as [HIn _].
  assert (Hsame : same_ticker a r = true).
  { apply same_ticker_iff. split; congruence. }
  assert (Hex : existsb (same_ticker a) l = true).
  { apply existsb_exists. now exists r. }
  congruence.
Qed.

Lemma tail1_covers (l : list Row) (r : Row) (k : string) :
  In r l -> Ticker r = Some k ->
  exists r', In r' (groupby_Ticker_tail1 l) /\ Ticker r' = Some k.
Proof.
  revert r. induction l as [|a l IH]; simpl; [contradiction |].
  intros r HIn Hk.
  assert (Hrest : In r l -> exists r', In r' (groupby_Ticker_tail1 l) /\
                                       Ticker r' = Some k).
  { intros H. now apply (IH r). }
  destruct HIn as [->|HIn].
  - rewrite Hk. destruct (existsb (same_ticker r) l) eqn:Ex.
    + apply existsb_exists in Ex. destruct Ex as [r2 [H2 Hsame]].
      apply same_ticker_iff in Hsame. destruct Hsame as [E _].
      apply (IH r2 H2). congruence.
    + exists r. split; [now left | exact Hk].
  - destruct (Hrest HIn) as [r' [Hr' Hk']].
    exists r'. split; [| exact Hk'].
    destruct (Ticker a); [| exact Hr'].
    destruct (existsb (same_ticker a) l); [exact Hr' | now right].
Qed.

(** What the reduction does on every table: one row for each ticker of the
    table, taken from the table, and no row of that ticker comes after it
    in the order of dates with NaT last. *)
Lemma latest_df_last_in_date_order (sv : sorter) (pred_df : list Row) :
  sort_values_contract sv ->
  let out := latest_df sv pred_df in
  NoDup (map Ticker out) /\
  (forall r', In r' out -> In r' pred_df /\ Ticker r' <> None) /\
  (forall r k, In r pred_df -> Ticker r = Some k ->
               exists r', In r' out /\ Ticker r' = Some k) /\
  (forall r r', In r' out -> In r pred_df -> Ticker r = Ticker r' ->
                date_le_nulls_last (Date r) (Date r') = true).
Proof.
  intros Hsv out. unfold out, latest_df.
  destruct (Hsv ByTickerDate true pred_df) as [Hperm Hsorted].
  set (s := sv ByTickerDate true pred_df) in *.
  assert (Hdrop : forall r, In r (dropna_Ticker s) <->
                            In r pred_df /\ Ticker r <> None).
  { intros r. unfold dropna_Ticker. rewrite filter_In. split.
    - intros [HIn Hk]. split.
      + apply (Permutation_in r (Permutation_sym Hperm) HIn).
      + destruct (Ticker r); [discriminate | discriminate Hk].
    - intros [HIn Hk]. split.
      + apply (Permutation_in r Hperm HIn).
      + destruct (Ticker r); [reflexivity | contradiction]. }
  split; [apply tail1_NoDup |].
  split; [| split].
  - intros r' Hr'. apply tail1_In in Hr'. destruct Hr' as [Hr' Hk].
    apply Hdrop in Hr'. tauto.
  - intros r k HIn Hk. apply (tail1_covers (dropna_Ticker s) r k); [| exact Hk].
    apply Hdrop. split; [exact HIn | congruence].
  - intros r r' Hr' HIn Hsame.
    pose proof (tail1_In _ _ Hr') as [_ Hk'].
    destruct (tail1_last _ _ Hr') as [l1 [l2 [Hsplit Hl2]]].
    assert (Hd : In r (dropna_Ticker s)).
    { apply Hdrop. split; [exact HIn | congruence]. }
    assert (Hsd : StronglySorted (row_le ByTickerDate true) (dropna_Ticker s)).
    { unfold dropna_Ticker. now apply StronglySorted_filter. }
    rewrite Hsplit in Hd, Hsd.
    apply in_app_or in Hd. destruct Hd as [Hd|[<-|Hd]].
    + pose proof (StronglySorted_before _ _ _ _ _ _ Hsd Hd) as Hle.
      unfold row_le, row_leb, row_compare in Hle. rewrite Hsame in Hle.
      rewrite (wo_refl (weak_order_nulls_last _ String.compare true
                          string_compare_weak_order)) in Hle.
      exact Hle.
    + unfold date_le_nulls_last.
      now rewrite (wo_refl (weak_order_nulls_last _ Z.compare true
                              Z_compare_weak_order)).
    + exfalso.
      assert (Hex : existsb (same_ticker r') l2 = true).
      { apply existsb_exists. exists r. split; [exact Hd |].
        apply same_ticker_iff. split; congruence. }
      congruence.
Qed.

(** Of two rows of one ticker the reduction keeps the one that sorts
    last. *)
Lemma latest_df_two_rows (sv : sorter) (a b : Row) :
  sort_values_contract sv ->
  same_ticker a b = true ->
  row_leb ByTickerDate true b a = false ->
  latest_df sv [a; b] = [b] /\ latest_df sv [b; a] = [b].
Proof.
  intros Hsv Hsame Hlt.
  assert (Hsorted : forall t, Permutation [a; b] t ->
                              StronglySorted (row_le ByTickerDate true) t ->
                              t = [a; b]).
  { intros t Hperm Hs.
    apply Permutation_length_2_inv in Hperm. destruct Hperm as [->| ->].
    - reflexivity.
    - apply StronglySorted_inv in Hs. destruct Hs as [_ Hall].
      inversion Hall as [|? ? Hba _]; subst.
      unfold row_le in Hba. congruence. }
  assert (Hred : groupby_Ticker_tail1 (dropna_Ticker [a; b]) = [b]).
  { pose proof Hsame as Hs. apply same_ticker_iff in Hs.
    destruct Hs as [E Hk]. unfold dropna_Ticker. simpl.
    destruct (Ticker a) as [ka|] eqn:Ea; [| contradiction].
    destruct (Ticker b) as [kb|] eqn:Eb; [| discriminate].
    simpl. rewrite Ea, Eb, Hsame. reflexivity. }
  unfold latest_df. split.
  - destruct (Hsv ByTickerDate true [a; b]) as [Hperm Hs].
    now rewrite (Hsorted _ Hperm Hs).
  - destruct (Hsv ByTickerDate true [b; a]) as [Hperm Hs].
    rewrite (Hsorted (sv ByTickerDate true [b; a])); [exact Hred | | exact Hs].
    apply perm_trans with [b; a]; [apply perm_swap | exact Hperm].
Qed.

(** Section 8.8 of the specification: of two records of a ticker with dates
    D1 < D2 only the one of D2 is kept. *)
Lemma latest_df_later_date (sv : sorter) (a b : Row) (k : string) (d1 d2 : Z) :
  sort_values_contract sv ->
  Ticker a = Some k -> Ticker b = Some k ->
  Date a = Some d1 -> Date b = Some d2 -> (d1 < d2)%Z ->
  latest_df sv [a; b] = [b] /\ latest_df sv [b; a] = [b].
Proof.
  intros Hsv Ha Hb Hda Hdb Hlt. apply latest_df_two_rows; [exact Hsv | |].
  - apply same_ticker_iff. split; congruence.
  - unfold row_leb, row_compare. rewrite Ha, Hb, Hda, Hdb. simpl.
    rewrite (wo_refl string_compare_weak_order). simpl.
    apply Z.compare_gt_iff in Hlt. now rewrite Hlt.
Qed.

(** A record without a date displaces the dated records of its ticker. *)
Lemma latest_df_null_date (sv : sorter) (a b : Row) (k : string) (d : Z) :
  sort_values_contract sv ->
  Ticker a = Some k -> Ticker b = Some k ->
  Date a = Some d -> Date b = None ->
  latest_df sv [a; b] = [b] /\ latest_df sv [b; a] = [b].
Proof.
  intros Hsv Ha Hb Hda Hdb. apply latest_df_two_rows; [exact Hsv | |].
  - apply same_ticker_iff. split; congruence.
  - unfold row_leb, row_compare. rewrite Ha, Hb, Hda, Hdb. simpl.
    now rewrite (wo_refl string_compare_weak_order).
Qed.

(** C7 at its failing input: ticker A has a record dated 5 ms and a record
    without a date; the reduction keeps the undated one, whichever sort is
    used and in whichever order the file lists them. *)
Theorem latest_df_keeps_undated_row :
  let dated := sample_row 0 "A" (Some 5%Z) (7 # 10) "UP" in
  let undated := sample_row 1 "A" None (1 # 5) "DOWN" in
  latest_df stable_sort_values [dated; undated] = [undated] /\
  latest_df stable_sort_values [undated; dated] = [undated] /\
  latest_df tie_reversing_sort_values [dated; undated] = [undated] /\
  latest_df tie_reversing_sort_values [undated; dated] = [undated].
Proof.
  vm_compute. repeat split; reflexivity.
Qed.

Lemma render_share_tab_reduces_first (sv : sorter) (f : filters)
      (r : Row) (pred_df : list Row) :
  render_share_tab sv f (r :: pred_df)
  = Some (filter_sort_limit sv f (latest_df sv (r :: pred_df))).
Proof.
  reflexivity.
Qed.

(** ** The matcher against the matches a pattern admits *)

Lemma greedy_sound (k : text -> option (text * text)) (cs : charset) (s : text) :
  forall lo hi res,
    greedy k cs lo hi s = Some res ->
    exists m s', s = m ++ s' /\ forallb (mem cs) m = true /\
                 (lo <= List.length m)%nat /\ within hi (List.length m) /\
                 k s' = Some res.
Proof.
  induction s as [|c s IH]; intros lo hi res; simpl.
  - destruct lo; [| discriminate]. intros Hk.
    exists [], []. repeat split; simpl; auto.
    destruct hi; simpl; lia.
  - assert (Hstop : match lo with O => k (c :: s) | S _ => None end = Some res ->
                    exists m s', c :: s = m ++ s' /\ forallb (mem cs) m = true /\
                                 (lo <= List.length m)%nat /\
                                 within hi (List.length m) /\ k s' = Some res).
    { destruct lo; [| discriminate]. intros Hk.
      exists [], (c :: s). repeat split; simpl; auto.
      destruct hi; simpl; lia. }
    destruct (mem cs c && room hi) eqn:Econd; [| exact Hstop].
    destruct (greedy k cs (pred lo) (option_map pred hi) s) as [res'|] eqn:Erec;
      [| exact Hstop].
    intros E. injection E as <-.
    destruct (IH _ _ _ Erec) as [m [s' [-> [Hm [Hlo [Hhi Hk]]]]]].
    apply andb_true_iff in Econd. destruct Econd as [Hc Hroom].
    exists (c :: m), s'. repeat split; simpl; auto.
    + now rewrite Hc.
    + lia.
    + destruct hi as [[|h]|]; simpl in *; try discriminate; lia.
Qed.

Lemma greedy_complete (k : text -> option (text * text)) (cs : charset)
      (m s : text) :
  forall lo hi,
    forallb (mem cs) m = true -> (lo <= List.length m)%nat ->
    within hi (List.length m) -> k s <> None ->
    greedy k cs lo hi (m ++ s) <> None.
Proof.
  induction m as [|c m IH]; intros lo hi Hm Hlo Hhi Hk; simpl in *.
  - assert (lo = 0)%nat by lia. subst lo.
    destruct s as [|c s]; simpl; [exact Hk |].
    destruct (mem cs c && room hi); [| exact Hk].
    destruct (greedy k cs 0 (option_map pred hi) s); [discriminate | exact Hk].
  - apply andb_true_iff in Hm. destruct Hm as [Hc Hm]. rewrite Hc.
    assert (Hroom : room hi = true).
    { destruct hi as [[|h]|]; simpl in *; auto; lia. }
    rewrite Hroom. simpl.
    assert (Hrec : greedy k cs (pred lo) (option_map pred hi) (m ++ s) <> None).
    { apply IH; auto; [lia |].
      destruct hi as [[|h]|]; simpl in *; auto; lia. }
    destruct (greedy k cs (pred lo) (option_map pred hi) (m ++ s));
      [discriminate | contradiction].
Qed.

Lemma match_here_sound (r : regex) :
  forall s opened grp g rest,
    match_here r s opened grp = Some (g, rest) -> run r s opened grp g rest.
Proof.
  induction r as [|i r IH]; intros s opened grp g rest; simpl.
  - intros E. injection E as <- <-. constructor.
  - destruct i as [cs|cs lo hi| |].
    + destruct s as [|c s]; [discriminate |].
      destruct (mem cs c) eqn:Hc; [| discriminate].
      intros H. constructor; [exact Hc | now apply IH].
    + intros H. apply greedy_sound in H.
      destruct H as [m [s' [-> [Hm [Hlo [Hhi Hk]]]]]].
      constructor; auto.
    + intros H. constructor. now apply IH.
    + intros H. constructor. now apply IH.
Qed.

Lemma match_here_complete (r : regex) (s opened grp g rest : text) :
  run r s opened grp g rest -> match_here r s opened grp <> None.
Proof.
  induction 1 as [s opened grp
                 | cs c r s opened grp g rest Hc _ IH
                 | cs lo hi r m s opened grp g rest Hm Hlo Hhi _ IH
                 | r s opened grp g rest _ IH
                 | r s opened grp g rest _ IH]; simpl.
  - discriminate.
  - now rewrite Hc.
  - now apply greedy_complete.
  - exact IH.
  - exact IH.
Qed.

Lemma search_sound (r : regex) (s g : text) :
  search r s = Some g ->
  exists pre s' rest, s = pre ++ s' /\ run r s' [] [] g rest.
Proof.
  induction s as [|c s IH]; simpl.
  - destruct (match_here r [] [] []) as [[g' rest]|] eqn:E; [| discriminate].
    intros H. injection H as ->.
    exists [], [], rest. split; [reflexivity | now apply match_here_sound].
  - destruct (match_here r (c :: s) [] []) as [[g' rest]|] eqn:E.
    + intros H. injection H as ->.
      exists [], (c :: s), rest. split; [reflexivity | now apply match_here_sound].
    + intros H. destruct (IH H) as [pre [s' [rest [-> Hrun]]]].
      exists (c :: pre), s', rest. split; [reflexivity | exact Hrun].
Qed.

Lemma search_complete (r : regex) (s : text) :
  matches_in r s -> search r s <> None.
Proof.
  intros [pre [s' [g [rest [-> Hrun]]]]].
  apply match_here_complete in Hrun.
  induction pre as [|c pre IH]; simpl.
  - destruct s' as [|c s']; simpl;
      destruct (match_here r _ [] []) as [[g' rest']|]; try discriminate;
      contradiction.
  - destruct (match_here r (c :: pre ++ s') [] []) as [[g' rest']|];
      [discriminate | exact IH].
Qed.

Lemma search_none_iff (r : regex) (s : text) :
  search r s = None <-> ~ matches_in r s.
Proof.
  split.
  - intros Hnone Hm. now apply (search_complete r s Hm).
  - intros Hno. destruct (search r s) as [g|] eqn:E; [| reflexivity].
    exfalso. apply Hno. apply search_sound in E.
    destruct E as [pre [s' [rest [-> Hrun]]]].
    now exists pre, s', g, rest.
Qed.

(** *** Building and reading matches *)

Lemma run_chars (t : text) (r : regex) (s opened grp g rest : text) :
  run r s opened grp g rest ->
  run (map (fun c => One (Lit c)) t ++ r) (t ++ s) opened grp g rest.
Proof.
  intros H. induction t as [|c t IH]; simpl; [exact H |].
  constructor; [apply N.eqb_refl | exact IH].
Qed.

Lemma run_lit (l : string) (r : regex) (s opened grp g rest : text) :
  run r s opened grp g rest ->
  run (lit l ++ r) (chars l ++ s) opened grp g rest.
Proof.
  apply run_chars.
Qed.

Lemma run_star (cs : charset) (m : text) (r : regex) (s opened grp g rest : text) :
  forallb (mem cs) m = true -> run r s opened grp g rest ->
  run (star cs :: r) (m ++ s) opened grp g rest.
Proof.
  intros Hm H. constructor; simpl; auto. lia.
Qed.

Lemma firstn_app_minus (A : Type) (a b : list A) :
  firstn (List.length (a ++ b) - List.length b) (a ++ b) = a.
Proof.
  rewrite length_app.
  replace (List.length a + List.length b - List.length b)%nat
    with (List.length a + 0)%nat by lia.
  rewrite firstn_app_2. simpl. apply app_nil_r.
Qed.

Lemma firstn_app3_minus (A : Type) (a b c d : list A) :
  firstn (List.length (a ++ b ++ c ++ d) - List.length d) (a ++ b ++ c ++ d)
  = a ++ b ++ c.
Proof.
  rewrite (app_assoc b c d), (app_assoc a (b ++ c) d).
  apply firstn_app_minus.
Qed.

Lemma run_number_group (ip fp post opened grp : text) (point : bool) :
  digits ip -> digits fp -> fp <> [] ->
  run number_group (decimal ip point fp ++ post) opened grp
      (decimal ip point fp) post.
Proof.
  intros Hip Hfp Hne. unfold number_group, decimal.
  constructor. rewrite <- !app_assoc.
  apply run_star; [exact Hip |].
  constructor.
  - destruct point; reflexivity.
  - lia.
  - destruct point; simpl; lia.
  - constructor.
    + exact Hfp.
    + destruct fp; [contradiction | simpl; lia].
    + exact I.
    + constructor.
      rewrite firstn_app3_minus. constructor.
Qed.

Lemma run_skip (r1 r2 : regex) :
  paren_free r1 = true ->
  forall s opened grp g rest,
    run (r1 ++ r2) s opened grp g rest ->
    exists s', run r2 s' opened grp g rest.
Proof.
  induction r1 as [|i r1 IH]; simpl; intros Hpf s opened grp g rest Hrun.
  - now exists s.
  - apply andb_true_iff in Hpf. destruct Hpf as [Hi Hpf].
    inversion Hrun; subst; try discriminate; eapply IH; eauto.
Qed.

Lemma lit_point_run (m : text) :
  forallb (mem (Lit 46%N)) m = true -> (List.length m <= 1)%nat ->
  m = [] \/ m = [46%N].
Proof.
  destruct m as [|c [|c' m]]; intros Hm Hlen;
    [now left | right | simpl in Hlen; lia].
  change ((46 =? c)%N && true = true) in Hm.
  rewrite andb_true_r in Hm. apply N.eqb_eq in Hm. now subst.
Qed.

(** Group 1 of a match of [number_group] is a decimal literal. *)
Lemma number_group_decimal (s opened grp g rest : text) :
  run number_group s opened grp g rest ->
  exists ip point fp, digits ip /\ digits fp /\ fp <> [] /\
                      g = decimal ip point fp.
Proof.
  unfold number_group, star, opt, plus. intros H.
  inversion H as [| | |r0 s0 o0 g0 g1 rest0 H1|]; subst; clear H.
  inversion H1 as [| |cs lo hi r0 m1 s1 o0 g0 g1 rest0 Hm1 _ _ H2| |];
    subst; clear H1.
  inversion H2 as [| |cs lo hi r0 m2 s2 o0 g0 g1 rest0 Hm2 _ Hhi2 H3| |];
    subst; clear H2.
  inversion H3 as [| |cs lo hi r0 m3 s3 o0 g0 g1 rest0 Hm3 Hlo3 _ H4| |];
    subst; clear H3.
  inversion H4 as [| | | |r0 s0 o0 g0 g1 rest0 H5]; subst; clear H4.
  inversion H5; subst; clear H5.
  rewrite firstn_app3_minus.
  destruct (lit_point_run m2 Hm2 Hhi2) as [-> | ->].
  - exists m1, false, m3. repeat split; auto.
    intros ->. simpl in Hlo3. lia.
  - exists m1, true, m3. repeat split; auto.
    intros ->. simpl in Hlo3. lia.
Qed.

Lemma split_dot_digits (s : text) :
  digits s -> split_dot s = (s, None).
Proof.
  unfold digits. induction s as [|c s IH]; simpl; [reflexivity |].
  intros H. apply andb_true_iff in H. destruct H as [Hc Hs].
  destruct (N.eqb_spec c 46) as [->|_]; [discriminate Hc |].
  now rewrite (IH Hs).
Qed.

Lemma split_dot_point (ip fp : text) :
  digits ip -> split_dot (ip ++ 46%N :: fp) = (ip, Some fp).
Proof.
  unfold digits. induction ip as [|c ip IH]; simpl; [reflexivity |].
  intros H. apply andb_true_iff in H. destruct H as [Hc Hs].
  destruct (N.eqb_spec c 46) as [->|_]; [discriminate Hc |].
  now rewrite (IH Hs).
Qed.

Lemma digits_value_from (ds : text) (acc : Z) :
  digits ds -> (0 <= acc)%Z ->
  (0 <= fold_left (fun acc c => acc * 10 + digit_value c) ds acc)%Z.
Proof.
  unfold digits. revert acc. induction ds as [|c ds IH]; cbn [forallb fold_left];
    intros acc Hd Hacc; [exact Hacc |].
  apply andb_true_iff in Hd. destruct Hd as [Hc Hd].
  apply IH; [exact Hd |].
  unfold is_digit, in_range in Hc. apply andb_true_iff in Hc.
  destruct Hc as [Hlo _]. apply N.leb_le in Hlo. unfold digit_value. lia.
Qed.

(** What [float] returns is the rounding of a number that is not
    negative. *)
Lemma py_float_returns (nearest_double : Q -> f64) (s : text) (v : f64) :
  py_float nearest_double s = Returns v ->
  exists q, (0 <= q)%Q /\ v = nearest_double q.
Proof.
  unfold py_float. destruct (split_dot s) as [ip rest].
  set (fp := match rest with
             | Some fp => fp
             | None => []
             end).
  destruct (forallb is_digit ip && forallb is_digit fp) eqn:E; [| discriminate].
  destruct (ip ++ fp) as [|c ds] eqn:El; [discriminate |].
  intros H. injection H as <-. eexists. split; [| reflexivity].
  unfold Qle. cbn [Qnum Qden]. rewrite Z.mul_0_l, Z.mul_1_r.
  unfold digits_value. apply digits_value_from; [| lia].
  unfold digits. rewrite <- El, forallb_app. exact E.
Qed.

(** [float] accepts every decimal literal. *)
Lemma py_float_decimal (nearest_double : Q -> f64) (ip fp : text)
      (point : bool) :
  digits ip -> digits fp -> fp <> [] ->
  exists v, py_float nearest_double (decimal ip point fp) = Returns v.
Proof.
  intros Hip Hfp Hne. unfold py_float, decimal. destruct point; simpl.
  - rewrite (split_dot_point ip fp Hip). unfold digits in *.
    rewrite Hip, Hfp. simpl.
    destruct (ip ++ fp) eqn:E; [| eexists; reflexivity].
    apply app_eq_nil in E. destruct E as [_ E]. contradiction.
  - rewrite split_dot_digits.
    + unfold digits in *. rewrite forallb_app, Hip, Hfp. simpl.
      rewrite app_nil_r.
      destruct (ip ++ fp) eqn:E; [| eexists; reflexivity].
      apply app_eq_nil in E. destruct E as [_ E]. contradiction.
    + unfold digits in *. now rewrite forallb_app, Hip, Hfp.
Qed.

Lemma search_number_float (nearest_double : Q -> f64) (r1 : regex)
      (s g : text) :
  paren_free r1 = true ->
  search (r1 ++ number_group) s = Some g ->
  exists v, py_float nearest_double g = Returns v.
Proof.
  intros Hpf Hs. apply search_sound in Hs.
  destruct Hs as [pre [s' [rest [_ Hrun]]]].
  apply (run_skip r1 number_group Hpf) in Hrun. destruct Hrun as [s'' Hrun].
  apply number_group_decimal in Hrun.
  destruct Hrun as [ip [point [fp [Hip [Hfp [Hne ->]]]]]].
  now apply py_float_decimal.
Qed.

(** ** Scalar metrics of the report *)

Lemma extract_metrics_total (nearest_double : Q -> f64)
      (pats : list (string * regex)) (s : text) :
  (forall l p g, In (l, p) pats -> search p s = Some g ->
                 exists v, py_float nearest_double g = Returns v) ->
  exists m, extract_metrics nearest_double pats s = Returns m /\
            forall l, metric_get l m = None <->
                      (forall p, In (l, p) pats -> search p s = None).
Proof.
  induction pats as [|[l0 p0] pats IH]; intros Hfloat; simpl.
  - exists []. split; [reflexivity |]. intros l. simpl. tauto.
  - destruct IH as [m [Hm Hget]].
    { intros l p g HIn Hs. apply (Hfloat l p g); [now right | exact Hs]. }
    destruct (search p0 s) as [g|] eqn:Es.
    + destruct (Hfloat l0 p0 g (or_introl eq_refl) Es) as [v Hv].
      rewrite Hv, Hm. exists ((l0, v) :: m). split; [reflexivity |].
      intros l. simpl. destruct (String.eqb_spec l l0) as [->|Hne].
      * split; [discriminate |]. intros H.
        rewrite (H p0 (or_introl eq_refl)) in Es. discriminate.
      * rewrite Hget. split.
        -- intros H p [E|HIn]; [congruence | now apply H].
        -- intros H p HIn. apply H. now right.
    + rewrite Hm. exists m. split; [reflexivity |].
      intros l. rewrite Hget. split.
      * intros H p [E|HIn]; [congruence | now apply H].
      * intros H p HIn. apply H. now right.
Qed.

Lemma metric_patterns_shape (l : string) (p : regex) :
  In (l, p) metric_patterns ->
  exists r1, paren_free r1 = true /\ p = r1 ++ number_group.
Proof.
  intros [E|[E|[E|[E|[]]]]]; injection E as <- <-.
  - exists (lit "ROC-AUC:" ++ [star Space]). split; reflexivity.
  - exists (lit "Accuracy" ++ [star Space] ++ lit ":" ++ [star Space]).
    split; reflexivity.
  - exists (lit "Precision:" ++ [star Space]). split; reflexivity.
  - exists (lit "Recall" ++ [star Space] ++ lit ":" ++ [star (Lit 32%N)]).
    split; reflexivity.
Qed.

Lemma metric_patterns_label (l : string) (p : regex) :
  In l metric_labels ->
  (In (l, p) metric_patterns <-> p = pattern_of l).
Proof.
  intros [<-|[<-|[<-|[<-|[]]]]]; split.
  all: try (intros [E|[E|[E|[E|[]]]]]; try discriminate E;
            injection E as <-; reflexivity).
  all: intros ->; simpl; tauto.
Qed.

Lemma run_ROC_AUC (ws2 ip fp post : text) (point : bool) :
  whitespace ws2 -> digits ip -> digits fp -> fp <> [] ->
  run (pattern_of "ROC-AUC")
      (metric_line "ROC-AUC" [] ws2 (decimal ip point fp) ++ post) [] []
      (decimal ip point fp) post.
Proof.
  intros Hws2 Hip Hfp Hne. unfold metric_line.
  change (pattern_of "ROC-AUC")
    with (lit "ROC-AUC" ++ lit ":" ++ star Space :: number_group).
  rewrite <- !app_assoc. apply run_lit. apply (run_lit ":").
  apply run_star; [exact Hws2 |]. now apply run_number_group.
Qed.

Lemma run_Precision (ws2 ip fp post : text) (point : bool) :
  whitespace ws2 -> digits ip -> digits fp -> fp <> [] ->
  run (pattern_of "Precision")
      (metric_line "Precision" [] ws2 (decimal ip point fp) ++ post) [] []
      (decimal ip point fp) post.
Proof.
  intros Hws2 Hip Hfp Hne. unfold metric_line.
  change (pattern_of "Precision")
    with (lit "Precision" ++ lit ":" ++ star Space :: number_group).
  rewrite <- !app_assoc. apply run_lit. apply (run_lit ":").
  apply run_star; [exact Hws2 |]. now apply run_number_group.
Qed.

Lemma run_Accuracy (ws1 ws2 ip fp post : text) (point : bool) :
  whitespace ws1 -> whitespace ws2 -> digits ip -> digits fp -> fp <> [] ->
  run (pattern_of "Accuracy")
      (metric_line "Accuracy" ws1 ws2 (decimal ip point fp) ++ post) [] []
      (decimal ip point fp) post.
Proof.
  intros Hws1 Hws2 Hip Hfp Hne. unfold metric_line.
  change (pattern_of "Accuracy")
    with (lit "Accuracy" ++ star Space :: lit ":" ++ star Space :: number_group).
  rewrite <- !app_assoc. apply run_lit.
  apply run_star; [exact Hws1 |]. apply (run_lit ":").
  apply run_star; [exact Hws2 |]. now apply run_number_group.
Qed.

Lemma run_Recall (ws1 ws2 ip fp post : text) (point : bool) :
  whitespace ws1 -> blanks ws2 -> digits ip -> digits fp -> fp <> [] ->
  run (pattern_of "Recall")
      (metric_line "Recall" ws1 ws2 (decimal ip point fp) ++ post) [] []
      (decimal ip point fp) post.
Proof.
  intros Hws1 Hws2 Hip Hfp Hne. unfold metric_line.
  change (pattern_of "Recall")
    with (lit "Recall" ++ star Space :: lit ":" ++ star (Lit 32%N) :: number_group).
  rewrite <- !app_assoc. apply run_lit.
  apply run_star; [exact Hws1 |]. apply (run_lit ":").
  apply run_star; [exact Hws2 |]. now apply run_number_group.
Qed.

(** *** From a match back to the line *)

Lemma run_chars_inv (t : text) (r : regex) :
  forall s opened grp g rest,
    run (map (fun c => One (Lit c)) t ++ r) s opened grp g rest ->
    exists s', s = t ++ s' /\ run r s' opened grp g rest.
Proof.
  induction t as [|c t IH]; simpl; intros s opened grp g rest H.
  - now exists s.
  - inversion H as [|cs c' r0 s0 o0 g0 g1 rest0 Hc Hrun| | |]; subst.
    simpl in Hc. apply N.eqb_eq in Hc. subst c'.
    destruct (IH _ _ _ _ _ Hrun) as [s' [-> Hr]].
    now exists s'.
Qed.

Lemma run_star_inv (cs : charset) (r : regex) (s opened grp g rest : text) :
  run (star cs :: r) s opened grp g rest ->
  exists m s', s = m ++ s' /\ forallb (mem cs) m = true /\
               run r s' opened grp g rest.
Proof.
  unfold star. intros H.
  inversion H as [| |cs0 lo hi r0 m s' o0 g0 g1 rest0 Hm _ _ Hr| |]; subst.
  now exists m, s'.
Qed.

Lemma number_group_inv (s opened grp g rest : text) :
  run number_group s opened grp g rest ->
  exists ip point fp, digits ip /\ digits fp /\ fp <> [] /\
                      s = decimal ip point fp ++ rest.
Proof.
  unfold number_group, star, opt, plus. intros H.
  inversion H as [| | |r0 s0 o0 g0 g1 rest0 H1|]; subst; clear H.
  inversion H1 as [| |cs lo hi r0 m1 s1 o0 g0 g1 rest0 Hm1 _ _ H2| |];
    subst; clear H1.
  inversion H2 as [| |cs lo hi r0 m2 s2 o0 g0 g1 rest0 Hm2 _ Hhi2 H3| |];
    subst; clear H2.
  inversion H3 as [| |cs lo hi r0 m3 s3 o0 g0 g1 rest0 Hm3 Hlo3 _ H4| |];
    subst; clear H3.
  inversion H4 as [| | | |r0 s0 o0 g0 g1 rest0 H5]; subst; clear H4.
  inversion H5; subst; clear H5.
  assert (Hne : m3 <> []) by (intros ->; simpl in Hlo3; lia).
  destruct (lit_point_run m2 Hm2 Hhi2) as [-> | ->].
  - exists m1, false, m3. repeat split; auto.
    unfold decimal. now rewrite <- !app_assoc.
  - exists m1, true, m3. repeat split; auto.
    unfold decimal. now rewrite <- !app_assoc.
Qed.

(** A match of [label: \s* number], with [cs] for the class after the
    colon. *)
Lemma run_metric_inv (label : string) (cs : charset) (s g rest : text) :
  run (lit label ++ lit ":" ++ star cs :: number_group) s [] [] g rest ->
  exists ws2 ip point fp,
    forallb (mem cs) ws2 = true /\ digits ip /\ digits fp /\ fp <> [] /\
    s = metric_line label [] ws2 (decimal ip point fp) ++ rest.
Proof.
  intros H. unfold lit in H.
  apply run_chars_inv in H. destruct H as [s1 [-> H]].
  apply run_chars_inv in H. destruct H as [s2 [-> H]].
  apply run_star_inv in H. destruct H as [ws2 [s3 [-> [Hws2 H]]]].
  apply number_group_inv in H.
  destruct H as [ip [point [fp [Hip [Hfp [Hne ->]]]]]].
  exists ws2, ip, point, fp. repeat split; auto.
  unfold metric_line. now rewrite <- !app_assoc.
Qed.

(** A match of [label \s* : \s* number]. *)
Lemma run_metric_ws_inv (label : string) (cs : charset) (s g rest : text) :
  run (lit label ++ star Space :: lit ":" ++ star cs :: number_group)
      s [] [] g rest ->
  exists ws1 ws2 ip point fp,
    whitespace ws1 /\ forallb (mem cs) ws2 = true /\
    digits ip /\ digits fp /\ fp <> [] /\
    s = metric_line label ws1 ws2 (decimal ip point fp) ++ rest.
Proof.
  intros H. unfold lit in H.
  apply run_chars_inv in H. destruct H as [s1 [-> H]].
  apply run_star_inv in H. destruct H as [ws1 [s2 [-> [Hws1 H]]]].
  apply run_chars_inv in H. destruct H as [s3 [-> H]].
  apply run_star_inv in H. destruct H as [ws2 [s4 [-> [Hws2 H]]]].
  apply number_group_inv in H.
  destruct H as [ip [point [fp [Hip [Hfp [Hne ->]]]]]].
  exists ws1, ws2, ip, point, fp. repeat split; auto.
  unfold metric_line. now rewrite <- !app_assoc.
Qed.

(** The lines a metric is read from: for Accuracy any whitespace on both
    sides of the colon; for ROC-AUC and Precision none before it and any
    after it; for Recall any before it and blanks only after it. *)
Lemma metric_run_line (label : string) (s g rest : text) :
  In label metric_labels ->
  run (pattern_of label) s [] [] g rest ->
  exists ws1 ws2 ip point fp,
    digits ip /\ digits fp /\ fp <> [] /\
    s = metric_line label ws1 ws2 (decimal ip point fp) ++ rest /\
    ((label = "Accuracy" /\ whitespace ws1 /\ whitespace ws2) \/
     ((label = "ROC-AUC" \/ label = "Precision") /\
      ws1 = [] /\ whitespace ws2) \/
     (label = "Recall" /\ whitespace ws1 /\ blanks ws2)).
Proof.
  intros [<-|[<-|[<-|[<-|[]]]]] H.
  - change (pattern_of "ROC-AUC")
      with (lit "ROC-AUC" ++ lit ":" ++ star Space :: number_group) in H.
    apply run_metric_inv in H.
    destruct H as [ws2 [ip [point [fp [Hws2 [Hip [Hfp [Hne ->]]]]]]]].
    exists [], ws2, ip, point, fp.
    do 4 (split; [assumption || reflexivity |]).
    right. left. repeat split; auto.
  - change (pattern_of "Accuracy")
      with (lit "Accuracy" ++ star Space :: lit ":" ++ star Space
              :: number_group) in H.
    apply run_metric_ws_inv in H.
    destruct H as [ws1 [ws2 [ip [point [fp [Hws1 [Hws2 [Hip [Hfp [Hne ->]]]]]]]]]].
    exists ws1, ws2, ip, point, fp.
    do 4 (split; [assumption || reflexivity |]).
    left. repeat split; auto.
  - change (pattern_of "Precision")
      with (lit "Precision" ++ lit ":" ++ star Space :: number_group) in H.
    apply run_metric_inv in H.
    destruct H as [ws2 [ip [point [fp [Hws2 [Hip [Hfp [Hne ->]]]]]]]].
    exists [], ws2, ip, point, fp.
    do 4 (split; [assumption || reflexivity |]).
    right. left. repeat split; auto.
  - change (pattern_of "Recall")
      with (lit "Recall" ++ star Space :: lit ":" ++ star (Lit 32%N)
              :: number_group) in H.
    apply run_metric_ws_inv in H.
    destruct H as [ws1 [ws2 [ip [point [fp [Hws1 [Hws2 [Hip [Hfp [Hne ->]]]]]]]]]].
    exists ws1, ws2, ip, point, fp.
    do 4 (split; [assumption || reflexivity |]).
    right. right. repeat split; auto.
Qed.

(** The claim of C8 fails: a blank before the colon of the ROC-AUC line and
    the metric is not extracted. *)
Lemma whitespace_before_colon_counterexample :
  ~ (forall (nearest_double : Q -> f64) (label : string)
            (ws1 ws2 ip fp : text) (point : bool),
        In label metric_labels ->
        whitespace ws1 -> whitespace ws2 ->
        digits ip -> digits fp -> fp <> [] ->
        exists m,
          extracted_metrics nearest_double
                            (metric_line label ws1 ws2 (decimal ip point fp))
          = Returns m /\
          metric_get label m <> None).
Proof.
  intros H.
  destruct (H round_binary64 "ROC-AUC" [32%N] [32%N] (chars "0")
              (chars "812") true)
    as [m [Hm Hget]]; try reflexivity.
  - simpl. tauto.
  - discriminate.
  - vm_compute in Hm. injection Hm as <-. now apply Hget.
Qed.

(** Section 8.6 of the specification. *)
Example extracted_metrics_ROC_AUC_only :
  forall nearest_double : Q -> f64,
    extracted_metrics nearest_double (chars "ROC-AUC: 0.812")
    = Returns [("ROC-AUC", nearest_double (812 # 1000)%Q)] /\
    extracted_metrics nearest_double (chars "ROC-AUC : 0.812") = Returns [] /\
    extracted_metrics nearest_double (chars "Precision : 0.5") = Returns [] /\
    extracted_metrics nearest_double (chars "Recall:" ++ [9%N] ++ chars "0.5")
    = Returns [].
Proof.
  intros nearest_double. repeat split; vm_compute; reflexivity.
Qed.

(** C8, amended.  On every report text the extraction returns a mapping and
    raises nothing; a metric is absent from it exactly when its pattern
    matches nowhere in the text.  A metric is present exactly when the text
    holds a line [label ws1 : ws2 number], [number] being digits, an
    optional point and at least one digit, where for Accuracy [ws1] and
    [ws2] are any whitespace; for ROC-AUC and Precision [ws1] is empty and
    [ws2] is any whitespace; for Recall [ws1] is any whitespace and [ws2]
    is blanks only. *)
Theorem extracted_metrics_spec :
  forall (nearest_double : Q -> f64) (raw_report : text),
  exists m,
    extracted_metrics nearest_double raw_report = Returns m /\
    (forall label, In label metric_labels ->
       (metric_get label m = None <-> ~ matches_in (pattern_of label) raw_report)) /\
    (forall (label : string) (pre post ws1 ws2 ip fp : text) (point : bool),
       raw_report
       = pre ++ metric_line label ws1 ws2 (decimal ip point fp) ++ post ->
       digits ip -> digits fp -> fp <> [] ->
       (label = "Accuracy" /\ whitespace ws1 /\ whitespace ws2) \/
       ((label = "ROC-AUC" \/ label = "Precision") /\
        ws1 = [] /\ whitespace ws2) \/
       (label = "Recall" /\ whitespace ws1 /\ blanks ws2) ->
       metric_get label m <> None) /\
    (forall label, In label metric_labels -> metric_get label m <> None ->
       exists (pre post ws1 ws2 ip fp : text) (point : bool),
         raw_report
         = pre ++ metric_line label ws1 ws2 (decimal ip point fp) ++ post /\
         digits ip /\ digits fp /\ fp <> [] /\
         ((label = "Accuracy" /\ whitespace ws1 /\ whitespace ws2) \/
          ((label = "ROC-AUC" \/ label = "Precision") /\
           ws1 = [] /\ whitespace ws2) \/
          (label = "Recall" /\ whitespace ws1 /\ blanks ws2))).
Proof.
  intros nearest_double raw_report.
  destruct (extract_metrics_total nearest_double metric_patterns raw_report)
    as [m [Hm Hget]].
  { intros l p g HIn Hs.
    destruct (metric_patterns_shape l p HIn) as [r1 [Hpf ->]].
    now apply (search_number_float nearest_double r1 raw_report g). }
  assert (Habsent : forall label, In label metric_labels ->
            (metric_get label m = None <->
             ~ matches_in (pattern_of label) raw_report)).
  { intros label Hl. rewrite Hget, <- search_none_iff. split.
    - intros H. apply H. now apply metric_patterns_label.
    - intros H p Hp. apply (metric_patterns_label label p Hl) in Hp. now subst. }
  exists m. split; [exact Hm |]. split; [exact Habsent |]. split.
  - intros label pre post ws1 ws2 ip fp point -> Hip Hfp Hne Hcase Hnone.
    assert (Hl : In label metric_labels).
    { simpl. destruct Hcase as [[-> _]|[[[-> | ->] _]|[-> _]]]; tauto. }
    apply (Habsent label Hl) in Hnone. apply Hnone.
    exists pre, (metric_line label ws1 ws2 (decimal ip point fp) ++ post),
      (decimal ip point fp), post.
    split; [reflexivity |].
    destruct Hcase as [[-> [H1 H2]]|[[[-> | ->] [-> H2]]|[-> [H1 H2]]]].
    + now apply run_Accuracy.
    + now apply run_ROC_AUC.
    + now apply run_Precision.
    + now apply run_Recall.
  - intros label Hl Hsome.
    destruct (search (pattern_of label) raw_report) as [g|] eqn:Es.
    + apply search_sound in Es. destruct Es as [pre [s' [post [-> Hrun]]]].
      destruct (metric_run_line label s' g post Hl Hrun)
        as [ws1 [ws2 [ip [point [fp [Hip [Hfp [Hne [-> Hcase]]]]]]]]].
      exists pre, post, ws1, ws2, ip, fp, point.
      do 4 (split; [assumption || reflexivity |]). exact Hcase.
    + exfalso. apply Hsome. apply Hget. intros p Hp.
      apply (metric_patterns_label label p Hl) in Hp. now subst.
Qed.

Lemma extracted_metrics_spec_witness :
  exists m,
    extracted_metrics round_binary64 (chars "x Accuracy  :  0.75 y")
    = Returns m /\
    metric_get "Accuracy" m <> None.
Proof.
  destruct (extracted_metrics_spec round_binary64
              (chars "x Accuracy  :  0.75 y"))
    as [m [Hm [_ [Hpresent _]]]].
  exists m. split; [exact Hm |].
  apply (Hpresent "Accuracy" (chars "x ") (chars " y") (chars "  ") (chars "  ")
                  (chars "0") (chars "75") true); try reflexivity.
  - discriminate.
  - left. repeat split; reflexivity.
Defined.

(** ** Report-file selection *)

Lemma report_files_In (names : list string) (f : string) :
  In f (report_files names) <->
  In f names /\ startswith f "Klassifikationsreport_" = true /\
  endswith f ".txt" = true.
Proof.
  unfold report_files, is_report_file. rewrite filter_In, andb_true_iff. tauto.
Qed.

Lemma insert_map (A B : Type) (h : A -> B) (bA : A -> A -> bool)
      (bB : B -> B -> bool) (x : A) (l : list A) :
  (forall x y, bB (h x) (h y) = bA x y) ->
  insert bB (h x) (map h l) = map h (insert bA x l).
Proof.
  intros Hb. induction l as [|y l IH]; simpl; [reflexivity |].
  rewrite Hb. destruct (bA x y); simpl; [reflexivity | now rewrite IH].
Qed.

Lemma insertion_sort_map (A B : Type) (h : A -> B) (bA : A -> A -> bool)
      (bB : B -> B -> bool) (l : list A) :
  (forall x y, bB (h x) (h y) = bA x y) ->
  insertion_sort bB (map h l) = map h (insertion_sort bA l).
Proof.
  intros Hb. induction l as [|x l IH]; simpl; [reflexivity |].
  rewrite IH. now apply insert_map.
Qed.

Lemma last_In (A : Type) (l : list A) (d : A) : l <> [] -> In (last l d) l.
Proof.
  induction l as [|a l IH]; [contradiction |]. intros _.
  destruct l as [|b l]; [now left |].
  right. apply IH. discriminate.
Qed.

Lemma last_map (A B : Type) (h : A -> B) (l : list A) (d : A) (e : B) :
  l <> [] -> last (map h l) e = h (last l d).
Proof.
  induction l as [|a l IH]; [contradiction |]. intros _.
  destruct l as [|b l]; [reflexivity |].
  change (last (map h (b :: l)) e = h (last (b :: l) d)).
  apply IH. discriminate.
Qed.

Lemma sorted_last_max (A : Type) (R : A -> A -> Prop) (l : list A) (d x : A) :
  StronglySorted R l -> In x l -> x = last l d \/ R x (last l d).
Proof.
  induction 1 as [|a l Hs IH Hall]; [contradiction |].
  intros [->|HIn].
  - destruct l as [|b l]; [now left |]. right.
    rewrite Forall_forall in Hall. apply Hall.
    change (In (last (b :: l) d) (b :: l)). apply last_In. discriminate.
  - destruct l as [|b l]; [contradiction |].
    change (x = last (b :: l) d \/ R x (last (b :: l) d)). now apply IH.
Qed.

Lemma decorate_stamped (strptime : string -> option Z) (files : list string) :
  (forall f, In f files ->
             ascii_name f = true /\ ascii_timestamp f <> "" /\
             strptime (ascii_timestamp f) <> None) ->
  exists tz : list (Z * string),
    decorate strptime files = Returns (map (fun p => (Some (fst p), snd p)) tz) /\
    map snd tz = files /\
    forall p, In p tz -> strptime (ascii_timestamp (snd p)) = Some (fst p).
Proof.
  induction files as [|f files IH]; intros Hall.
  - exists []. repeat split. intros p [].
  - destruct IH as [tz [Hdec [Hsnd Hstamp]]].
    { intros g Hg. apply Hall. now right. }
    destruct (Hall f (or_introl eq_refl)) as [Hascii [Hne Hsome]].
    destruct (strptime (ascii_timestamp f)) as [t|] eqn:Et; [| contradiction].
    exists ((t, f) :: tz). cbn [decorate]. unfold extract_timestamp, to_datetime.
    apply String.eqb_neq in Hne. rewrite Hascii, Hne, Et, Hdec.
    split; [reflexivity |]. split; [cbn [map snd]; now rewrite Hsnd |].
    intros p [<-|Hp]; [exact Et | now apply Hstamp].
Qed.

Lemma py_sorted_dated (A : Type) (tz : list (Z * A)) :
  py_sorted (map (fun p => (Some (fst p), snd p)) tz)
  = Returns (insertion_sort (fun x y => negb (key_lt (fst y) (fst x)))
                            (map (fun p => (Some (fst p), snd p)) tz)).
Proof.
  unfold py_sorted.
  assert (H : forallb (@has_key_date A) (map (fun p => (Some (fst p), snd p)) tz) = true).
  { rewrite forallb_forall. intros x Hx. apply in_map_iff in Hx.
    destruct Hx as [p [<- _]]. reflexivity. }
  now rewrite H.
Qed.

(** Among files that all carry a timestamp pandas accepts, the one chosen
    has the latest. *)
Lemma latest_report_stamped (strptime : string -> option Z) (names : list string) :
  report_files names <> [] ->
  (forall f, In f (report_files names) ->
             ascii_name f = true /\ ascii_timestamp f <> "" /\
             strptime (ascii_timestamp f) <> None) ->
  exists f t,
    latest_report strptime (Some names) = Returns (Selected f) /\
    In f (report_files names) /\
    strptime (ascii_timestamp f) = Some t /\
    forall f' t', In f' (report_files names) ->
                  strptime (ascii_timestamp f') = Some t' -> (t' <= t)%Z.
Proof.
  intros Hne Hall. unfold latest_report.
  destruct (decorate_stamped strptime (report_files names) Hall)
    as [tz [Hdec [Hsnd Hstamp]]].
  destruct (report_files names) as [|f0 fs] eqn:Ecand; [contradiction |].
  rewrite Hdec, py_sorted_dated.
  set (leZ := fun x y : Z * string => (fst x <=? fst y)%Z).
  rewrite (insertion_sort_map _ _ (fun p : Z * string => (Some (fst p), snd p)) leZ).
  2:{ intros x y. unfold leZ. simpl. now rewrite Z.leb_antisym. }
  assert (Htz : tz <> []) by (intros ->; discriminate Hsnd).
  pose proof (insertion_sort_perm _ leZ tz) as Hperm.
  assert (Hsorted : StronglySorted (fun x y => (fst x <= fst y)%Z)
                                   (insertion_sort leZ tz)).
  { apply insertion_sort_sorted.
    - intros a b c. lia.
    - intros x y H. now apply Z.leb_le.
    - intros x y H. apply Z.leb_gt in H. lia. }
  assert (Hsz : insertion_sort leZ tz <> []).
  { intros E. rewrite E in Hperm. apply Permutation_sym, Permutation_nil in Hperm.
    contradiction. }
  rewrite (last_map _ _ _ _ (0%Z, f0) _ Hsz). cbn [snd].
  set (best := last (insertion_sort leZ tz) (0%Z, f0)).
  assert (Hbest : In best tz).
  { apply (Permutation_in _ (Permutation_sym Hperm)). now apply last_In. }
  exists (snd best), (fst best). split; [reflexivity |].
  split; [rewrite <- Hsnd; now apply in_map |].
  split; [now apply Hstamp |].
  intros f' t' Hf' Ht'. rewrite <- Hsnd in Hf'.
  apply in_map_iff in Hf'. destruct Hf' as [p [<- Hp]].
  rewrite (Hstamp p Hp) in Ht'. injection Ht' as <-.
  destruct (sorted_last_max _ _ _ (0%Z, f0) p Hsorted
              (Permutation_in _ Hperm Hp)) as [->|Hle]; [| exact Hle].
  fold best. lia.
Qed.

(** *** Names of the documented form *)

Lemma text_eqb_eq (a b : text) : text_eqb a b = true -> a = b.
Proof.
  unfold text_eqb. revert b.
  induction a as [|x a IH]; intros [|y b]; simpl; try discriminate;
    [reflexivity |].
  intros H. apply andb_true_iff in H. destruct H as [Hlen H].
  apply andb_true_iff in H. destruct H as [Hxy H].
  apply N.eqb_eq in Hxy. subst y. f_equal. apply IH.
  now rewrite Hlen, H.
Qed.

Lemma app_same_length (A : Type) (a a' b b' : list A) :
  List.length a = List.length a' -> a ++ b = a' ++ b' -> a = a' /\ b = b'.
Proof.
  revert a'. induction a as [|x a IH]; intros [|y a']; simpl;
    try discriminate.
  - auto.
  - intros Hlen E. injection Hlen as Hlen. injection E as -> E.
    destruct (IH a' Hlen E) as [-> ->]. auto.
Qed.

Lemma skipn_length_app (A : Type) (a b : list A) :
  skipn (List.length a) (a ++ b) = b.
Proof.
  induction a as [|x a IH]; simpl; [reflexivity | exact IH].
Qed.

(** A name of the documented form is prefix, eight digits, underscore, six
    digits, suffix. *)
Lemma report_name_split (f : string) :
  report_name_pattern f = true ->
  exists d8 d6 : text,
    chars f = chars "Klassifikationsreport_" ++ d8 ++ [95%N] ++ d6 ++ chars ".txt" /\
    List.length d8 = 8%nat /\ List.length d6 = 6%nat /\
    digits d8 /\ digits d6.
Proof.
  unfold report_name_pattern. set (t := chars f).
  rewrite !andb_true_iff.
  intros [[[[[Hlen Hp] Hd8] Hu] Hd6] Hs].
  apply Nat.eqb_eq in Hlen.
  apply text_eqb_eq in Hp, Hu, Hs.
  exists (firstn 8 (skipn 22 t)), (firstn 6 (skipn 31 t)).
  split; [| repeat split; auto; rewrite length_firstn, length_skipn; lia].
  rewrite <- Hp, <- Hs.
  change [95%N] with (chars "_"). rewrite <- Hu.
  rewrite <- (firstn_skipn 22 t) at 1. f_equal.
  rewrite <- (firstn_skipn 8 (skipn 22 t)) at 1. f_equal.
  rewrite skipn_skipn. change (8 + 22)%nat with 30%nat.
  rewrite <- (firstn_skipn 1 (skipn 30 t)) at 1. f_equal.
  rewrite skipn_skipn. change (1 + 30)%nat with 31%nat.
  rewrite <- (firstn_skipn 6 (skipn 31 t)) at 1. f_equal.
  now rewrite skipn_skipn.
Qed.

Lemma timestamp_run (s g rest : text) :
  run timestamp_regex s [] [] g rest ->
  exists m1 m2 : text,
    s = chars "Klassifikationsreport_" ++ m1 ++ [95%N] ++ m2
              ++ chars ".txt" ++ rest /\
    List.length m1 = 8%nat /\ List.length m2 = 6%nat /\
    g = m1 ++ [95%N] ++ m2.
Proof.
  unfold timestamp_regex, lit, exactly. intros H.
  apply run_chars_inv in H. destruct H as [s1 [-> H]].
  inversion H as [| | |r0 s0 o0 g0 g1 rest0 H1|]; subst; clear H.
  inversion H1 as [| |cs lo hi r0 m1 s2 o0 g0 g1 rest0 _ Hlo1 Hhi1 H2| |];
    subst; clear H1.
  inversion H2 as [|cs c r0 s3 o0 g0 g1 rest0 Hc H3| | |]; subst; clear H2.
  cbn [mem] in Hc. apply N.eqb_eq in Hc. subst c.
  inversion H3 as [| |cs lo hi r0 m2 s4 o0 g0 g1 rest0 _ Hlo2 Hhi2 H4| |];
    subst; clear H3.
  inversion H4 as [| | | |r0 s0 o0 g0 g1 rest0 H5]; subst; clear H4.
  apply (run_chars_inv (chars ".txt") []) in H5. destruct H5 as [s5 [-> H5]].
  inversion H5; subst; clear H5.
  simpl in Hhi1, Hhi2.
  exists m1, m2. split; [reflexivity |].
  split; [lia |]. split; [lia |].
  change (m1 ++ 95%N :: m2 ++ chars ".txt" ++ rest)
    with (m1 ++ [95%N] ++ m2 ++ chars ".txt" ++ rest).
  apply firstn_app3_minus.
Qed.

Lemma search_here (r : regex) (s g rest : text) :
  match_here r s [] [] = Some (g, rest) -> search r s = Some g.
Proof.
  intros H. destruct s; simpl; now rewrite H.
Qed.

Lemma digits_ascii (d : text) :
  digits d -> forallb is_ascii d = true.
Proof.
  unfold digits. rewrite !forallb_forall. intros H c Hc.
  specialize (H c Hc). unfold is_digit, in_range in H.
  apply andb_true_iff in H. destruct H as [_ H]. apply N.leb_le in H.
  unfold is_ascii. apply N.ltb_lt. lia.
Qed.

(** On a name of the documented form, which has ASCII characters only,
    [extract_timestamp] returns the fifteen characters between prefix and
    suffix. *)
Lemma extract_timestamp_pattern (f : string) :
  report_name_pattern f = true ->
  ascii_name f = true /\
  ascii_timestamp f = embedded_timestamp f /\ ascii_timestamp f <> "" /\
  extract_timestamp f = Returns (embedded_timestamp f).
Proof.
  intros Hpat. destruct (report_name_split f Hpat)
    as [d8 [d6 [Hf [Hl8 [Hl6 [Hd8 Hd6]]]]]].
  assert (Hascii : ascii_name f = true).
  { unfold ascii_name. rewrite Hf, !forallb_app.
    rewrite (digits_ascii d8 Hd8), (digits_ascii d6 Hd6). reflexivity. }
  assert (Hrun : run timestamp_regex (chars f) [] [] (d8 ++ [95%N] ++ d6) []).
  { rewrite Hf. unfold timestamp_regex. apply run_lit.
    constructor. constructor; [exact Hd8 | lia | simpl; lia |].
    constructor; [reflexivity |].
    constructor; [exact Hd6 | lia | simpl; lia |].
    constructor.
    change (d8 ++ 95%N :: d6 ++ chars ".txt")
      with (d8 ++ [95%N] ++ d6 ++ chars ".txt").
    rewrite firstn_app3_minus.
    rewrite <- (app_nil_r (lit ".txt")), <- (app_nil_r (chars ".txt")).
    apply run_lit. constructor. }
  pose proof (match_here_complete _ _ _ _ _ _ Hrun) as Hsome.
  destruct (match_here timestamp_regex (chars f) [] []) as [[g rest]|] eqn:E;
    [| contradiction].
  assert (Hg : g = d8 ++ [95%N] ++ d6).
  { apply match_here_sound, timestamp_run in E.
    destruct E as [m1 [m2 [Hs [Hm1 [Hm2 ->]]]]].
    rewrite Hf in Hs. apply app_inv_head in Hs.
    apply app_same_length in Hs; [| lia]. destruct Hs as [-> Hs].
    injection Hs as Hs.
    apply app_same_length in Hs; [| lia]. now destruct Hs as [-> _]. }
  assert (Hts : ascii_timestamp f = embedded_timestamp f).
  { unfold ascii_timestamp, embedded_timestamp.
    rewrite (search_here _ _ _ _ E), Hg.
    f_equal. rewrite Hf.
    change 22%nat with (List.length (chars "Klassifikationsreport_")).
    rewrite skipn_length_app.
    replace 15%nat
      with (List.length (d8 ++ [95%N] ++ d6 ++ chars ".txt")
            - List.length (chars ".txt"))%nat
      by (rewrite !length_app; simpl; lia).
    now rewrite firstn_app3_minus. }
  split; [exact Hascii |]. split; [exact Hts |]. split.
  - unfold ascii_timestamp. rewrite (search_here _ _ _ _ E), Hg.
    destruct d8 as [|c d8]; [discriminate Hl8 | discriminate].
  - unfold extract_timestamp. now rewrite Hascii, Hts.
Qed.

(** A name that is not of the documented form is a candidate, and it is
    the file selected when it is the only candidate: the claim of C9
    fails. *)
Lemma report_candidate_counterexample :
  ~ (forall (names : list string) (f : string),
        In f (report_files names) <->
        In f names /\ report_name_pattern f = true).
Proof.
  intros H.
  destruct (H ["Klassifikationsreport_old.txt"] "Klassifikationsreport_old.txt")
    as [Hcand _].
  destruct Hcand as [_ Hpat]; [now left | discriminate Hpat].
Qed.

Lemma latest_report_undated_name (strptime : string -> option Z) :
  latest_report strptime (Some ["Klassifikationsreport_old.txt"])
  = Returns (Selected "Klassifikationsreport_old.txt").
Proof.
  reflexivity.
Qed.

(** C9, amended.  A name of the listing is a candidate if and only if it
    starts with [Klassifikationsreport_] and ends with [.txt].  When there
    is a candidate and every candidate has the documented form with a
    timestamp that pandas accepts, the file selected is a candidate whose
    timestamp is the latest. *)
Theorem latest_report_spec :
  forall (strptime : string -> option Z) (names : list string),
    (forall f, In f (report_files names) <->
               In f names /\ startswith f "Klassifikationsreport_" = true /\
               endswith f ".txt" = true) /\
    (report_files names <> [] ->
     (forall f, In f (report_files names) ->
                report_name_pattern f = true /\
                strptime (embedded_timestamp f) <> None) ->
     exists f t,
       latest_report strptime (Some names) = Returns (Selected f) /\
       In f (report_files names) /\
       strptime (embedded_timestamp f) = Some t /\
       forall f' t', In f' (report_files names) ->
                     strptime (embedded_timestamp f') = Some t' -> (t' <= t)%Z).
Proof.
  intros strptime names. split; [intros f; apply report_files_In |].
  intros Hne Hall.
  destruct (latest_report_stamped strptime names Hne) as [f [t [Hsel [Hf [Ht Hmax]]]]].
  { intros f Hf. destruct (Hall f Hf) as [Hpat Hsome].
    destruct (extract_timestamp_pattern f Hpat) as [Hascii [E [Hne' _]]].
    split; [exact Hascii |]. split; [exact Hne' | now rewrite E]. }
  exists f, t. split; [exact Hsel |]. split; [exact Hf |].
  destruct (Hall f Hf) as [Hpat _].
  destruct (extract_timestamp_pattern f Hpat) as [_ [E _]].
  split; [now rewrite <- E |].
  intros f' t' Hf' Ht'. apply (Hmax f' t' Hf').
  destruct (Hall f' Hf') as [Hpat' _].
  destruct (extract_timestamp_pattern f' Hpat') as [_ [E' _]].
  now rewrite E'.
Qed.

Lemma latest_report_spec_witness :
  let names := ["Klassifikationsreport_20240101_120000.txt"; "notes.md";
                "Klassifikationsreport_20250315_093000.txt";
                "Klassifikationsreport_20241231_235959.txt"] in
  exists f t,
    latest_report digits_key (Some names) = Returns (Selected f) /\
    In f (report_files names) /\
    digits_key (embedded_timestamp f) = Some t /\
    forall f' t', In f' (report_files names) ->
                  digits_key (embedded_timestamp f') = Some t' -> (t' <= t)%Z.
Proof.
  intros names.
  destruct (latest_report_spec digits_key names) as [_ Hlatest].
  apply Hlatest.
  - discriminate.
  - intros f Hf. vm_compute in Hf.
    destruct Hf as [<-|[<-|[<-|[]]]]; split;
      try (vm_compute; reflexivity); discriminate.
Defined.

(** ** From the file to the table of the probability tab *)

Example probability_tab_from_file
        (to_datetime_ms : cell -> option Z) :
  let root :=
    JDict [("A", JList [JDict [("Date", JInt 0); ("ProbUp", JFloat (Fin (7 # 10)));
                               ("Signal", JStr "up")]]);
           ("B", JDict [("ProbUp", JStr "n/a"); ("Signal", JStr "DOWN")])] in
  let to_numeric := fun c => match c with
                             | CObj (JFloat x) => x
                             | _ => NaN
                             end in
  match load_predictions to_datetime_ms to_numeric (fun _ => Some (Json root)) "p" with
  | Returns df =>
      match prediction_rows df with
      | Returns t =>
          render_probability_tab stable_sort_values
                                 (all_rows "ProbUp descending") t
          = Some [mkRow 0 (Some "A") (to_datetime_ms (CObj (JInt 0)))
                        (Fin (7 # 10)) (CObj (JStr "up"))]
      | _ => False
      end
  | _ => False
  end.
Proof.
  reflexivity.
Qed.

(** The failing input of C7, from the file to the share tab. *)
Example share_tab_from_file :
  let root :=
    JDict [("A", JList [JDict [("Date", JInt 5); ("ProbUp", JFloat (Fin (7 # 10)));
                               ("Signal", JStr "UP")];
                        JDict [("ProbUp", JFloat (Fin (1 # 5)));
                               ("Signal", JStr "DOWN")]])] in
  let to_datetime_ms := fun c => match c with
                                 | CObj (JInt z) => Some z
                                 | _ => None
                                 end in
  let to_numeric := fun c => match c with
                             | CObj (JFloat x) => x
                             | _ => NaN
                             end in
  match load_predictions to_datetime_ms to_numeric (fun _ => Some (Json root)) "p" with
  | Returns df =>
      match prediction_rows df with
      | Returns t =>
          render_share_tab stable_sort_values (all_rows "ProbUp descending") t
          = Some [mkRow 1 (Some "A") None (Fin (1 # 5)) (CObj (JStr "DOWN"))]
      | _ => False
      end
  | _ => False
  end.
Proof.
  reflexivity.
Qed.

(** * Further properties *)

(** ** The loaded frame *)

Lemma has_column_In (c : string) (cols : list string) :
  has_column c cols = true <-> In c cols.
Proof.
  unfold has_column. rewrite existsb_exists. split.
  - intros [x [Hx E]]. apply String.eqb_eq in E. now subst.
  - intros H. exists c. split; [exact H | apply String.eqb_refl].
Qed.

Lemma has_column_false (c : string) (cols : list string) :
  has_column c cols = false <-> ~ In c cols.
Proof.
  rewrite <- has_column_In. destruct (has_column c cols); split;
    congruence.
Qed.

Lemma add_key_NoDup (acc : list string) (k : string) :
  NoDup acc -> NoDup (add_key acc k).
Proof.
  intros H. unfold add_key. destruct (has_column k acc) eqn:E; [exact H |].
  apply NoDup_app; [exact H | repeat constructor; intros [] |].
  intros a Ha [<-|[]]. now apply has_column_false in E.
Qed.

Lemma add_key_In (acc : list string) (k c : string) :
  In c (add_key acc k) <-> In c acc \/ c = k.
Proof.
  unfold add_key. destruct (has_column k acc) eqn:E.
  - apply has_column_In in E. split; [tauto |]. intros [H| ->]; assumption.
  - rewrite in_app_iff. simpl. split; intros H; intuition (subst; auto).
Qed.

Lemma add_keys_NoDup (ks acc : list string) :
  NoDup acc -> NoDup (fold_left add_key ks acc).
Proof.
  revert acc. induction ks as [|k ks IH]; simpl; intros acc H;
    [exact H | apply IH, add_key_NoDup, H].
Qed.

Lemma add_keys_In (ks acc : list string) (c : string) :
  In c (fold_left add_key ks acc) <-> In c acc \/ In c ks.
Proof.
  revert acc. induction ks as [|k ks IH]; simpl; intros acc.
  - tauto.
  - rewrite IH, add_key_In. split; intros H; intuition auto.
Qed.

Lemma union_keys_from_NoDup (recs : list pydict) (acc : list string) :
  NoDup acc ->
  NoDup (fold_left (fun acc d => fold_left add_key (dict_keys d) acc) recs acc).
Proof.
  revert acc. induction recs as [|d recs IH]; simpl; intros acc H;
    [exact H | apply IH, add_keys_NoDup, H].
Qed.

Lemma union_keys_from_In (recs : list pydict) (acc : list string) (c : string) :
  In c (fold_left (fun acc d => fold_left add_key (dict_keys d) acc) recs acc)
  <-> In c acc \/ exists d, In d recs /\ In c (dict_keys d).
Proof.
  revert acc. induction recs as [|d recs IH]; simpl; intros acc.
  - split; [tauto |]. intros [H|[d [[] _]]]. exact H.
  - rewrite IH, add_keys_In. split.
    + intros [[H|H]|[d' [Hd' Hc]]]; auto.
      * right. exists d. auto.
      * right. exists d'. auto.
    + intros [H|[d' [[<-|Hd'] Hc]]]; auto.
      right. exists d'. auto.
Qed.

Lemma union_keys_NoDup (recs : list pydict) : NoDup (union_keys recs).
Proof.
  apply union_keys_from_NoDup. constructor.
Qed.

(** The column labels are the keys of the records. *)
Lemma union_keys_In (recs : list pydict) (c : string) :
  In c (union_keys recs) <-> exists d, In d recs /\ In c (dict_keys d).
Proof.
  unfold union_keys. rewrite union_keys_from_In. simpl. tauto.
Qed.

Lemma dict_get_some_key (c : string) (d : pydict) (v : json) :
  dict_get c d = Some v -> In c (dict_keys d).
Proof.
  intros H. destruct (in_dec string_dec c (dict_keys d)) as [HIn|Hout];
    [exact HIn |].
  apply dict_get_none_iff in Hout. congruence.
Qed.

Lemma loaded_columns_NoDup (keys : list string) :
  NoDup keys -> NoDup (loaded_columns keys).
Proof.
  intros H. unfold loaded_columns. apply NoDup_app; [exact H | |].
  - apply NoDup_filter. unfold required_columns.
    repeat constructor; simpl; intuition discriminate.
  - intros a Ha Hf. apply filter_In in Hf. destruct Hf as [_ Hf].
    apply negb_true_iff, has_column_false in Hf. contradiction.
Qed.

Lemma loaded_columns_required (keys : list string) (c : string) :
  In c required_columns -> In c (loaded_columns keys).
Proof.
  intros Hc. unfold loaded_columns. apply in_or_app.
  destruct (has_column c keys) eqn:E.
  - left. now apply has_column_In.
  - right. apply filter_In. split; [exact Hc | now rewrite E].
Qed.

Lemma frame_of_records_by (recs : list pydict) :
  frame_of_records recs
  = frame_by (raw_cell (union_keys recs)) (union_keys recs) recs.
Proof.
  unfold frame_of_records, frame_by, record_row. f_equal.
  apply map_ext. intros rec. apply map_ext_in. intros c Hc.
  unfold raw_cell. destruct (dict_get c rec); [reflexivity |].
  apply has_column_In in Hc. now rewrite Hc.
Qed.

Lemma ensure_column_by (keys cols : list string) (recs : list pydict)
      (col : string) :
  keys = union_keys recs -> incl keys cols ->
  ensure_column (frame_by (raw_cell keys) cols recs) col
  = frame_by (raw_cell keys)
             (if has_column col cols then cols else cols ++ [col]) recs.
Proof.
  intros Hkeys Hincl. unfold ensure_column. simpl.
  destruct (has_column col cols) eqn:E; [reflexivity |].
  unfold frame_by. f_equal. rewrite map_map.
  apply map_ext_in. intros rec Hrec. rewrite map_app. f_equal. simpl.
  f_equal. unfold raw_cell.
  assert (Hout : ~ In col keys).
  { intros H. apply Hincl in H. apply has_column_false in E. contradiction. }
  destruct (dict_get col rec) as [v|] eqn:Eg.
  - exfalso. apply Hout. rewrite Hkeys. apply union_keys_In.
    exists rec. split; [exact Hrec | now apply dict_get_some_key with v].
  - apply has_column_false in Hout. now rewrite Hout.
Qed.

Lemma has_column_snoc (c d : string) (cols : list string) :
  has_column c (cols ++ [d]) = has_column c cols || String.eqb c d.
Proof.
  unfold has_column. rewrite existsb_app. simpl. now rewrite orb_false_r.
Qed.

Lemma ensure_required_columns (keys : list string) (recs : list pydict) :
  keys = union_keys recs ->
  fold_left ensure_column required_columns (frame_by (raw_cell keys) keys recs)
  = frame_by (raw_cell keys) (loaded_columns keys) recs.
Proof.
  intros Hkeys. unfold required_columns, loaded_columns. simpl fold_left.
  assert (Hstep : forall cols col, incl keys cols ->
            ensure_column (frame_by (raw_cell keys) cols recs) col
            = frame_by (raw_cell keys)
                (if has_column col cols then cols else cols ++ [col]) recs).
  { intros cols col. now apply (ensure_column_by keys cols recs). }
  assert (Hgrow : forall cols col, incl keys cols ->
            incl keys (if has_column col cols then cols else cols ++ [col])).
  { intros cols col H. destruct (has_column col cols); [exact H |].
    intros a Ha. apply in_or_app. left. now apply H. }
  rewrite Hstep by apply incl_refl.
  rewrite Hstep by (apply Hgrow, incl_refl).
  rewrite Hstep by (repeat apply Hgrow; apply incl_refl).
  rewrite Hstep by (repeat apply Hgrow; apply incl_refl).
  f_equal. simpl filter.
  destruct (has_column "Ticker" keys) eqn:E1,
           (has_column "Date" keys) eqn:E2,
           (has_column "ProbUp" keys) eqn:E3,
           (has_column "Signal" keys) eqn:E4;
    simpl; repeat (rewrite ?has_column_snoc, ?E1, ?E2, ?E3, ?E4; simpl);
    rewrite <- ?app_assoc, ?app_nil_r; reflexivity.
Qed.

Lemma map_col_map (name : string) (f : cell -> cell) (g : string -> cell)
      (cols : list string) :
  NoDup cols ->
  map_col name f cols (map g cols)
  = map (fun c => if String.eqb c name then f (g c) else g c) cols.
Proof.
  induction cols as [|c cols IH]; simpl; intros Hnd; [reflexivity |].
  inversion Hnd as [|? ? Hc Hnd']; subst.
  destruct (String.eqb_spec c name) as [->|Hne].
  - f_equal. apply map_ext_in. intros c' Hc'.
    destruct (String.eqb_spec c' name) as [->|_]; [contradiction | reflexivity].
  - now rewrite IH.
Qed.

Lemma assign_column_by (name : string) (f : cell -> cell)
      (g : string -> pydict -> cell) (cols : list string) (recs : list pydict) :
  NoDup cols ->
  assign_column name f (frame_by g cols recs)
  = frame_by (fun c rec => if String.eqb c name then f (g c rec) else g c rec)
             cols recs.
Proof.
  intros Hnd. unfold assign_column, frame_by. simpl. f_equal.
  rewrite map_map. apply map_ext. intros rec.
  now apply (map_col_map name f (fun c => g c rec)).
Qed.

Lemma coerce_frame_records (to_datetime_ms : cell -> option Z)
      (to_numeric : cell -> f64) (recs : list pydict) :
  coerce_frame to_datetime_ms to_numeric (frame_of_records recs)
  = loaded_frame to_datetime_ms to_numeric recs.
Proof.
  unfold coerce_frame. rewrite frame_of_records_by.
  rewrite ensure_required_columns by reflexivity.
  pose proof (loaded_columns_NoDup _ (union_keys_NoDup recs)) as Hnd.
  rewrite !assign_column_by by exact Hnd.
  unfold loaded_frame, frame_by, loaded_cell. f_equal.
  apply map_ext. intros rec. apply map_ext. intros c.
  destruct (String.eqb_spec c "ProbUp") as [->|_]; [reflexivity |].
  destruct (String.eqb c "Date"); reflexivity.
Qed.



Lemma load_predictions_returns (to_datetime_ms : cell -> option Z)
      (to_numeric : cell -> f64) (fs : filesystem) (json_path : string)
      (df : DataFrame) :
  load_predictions to_datetime_ms to_numeric fs json_path = Returns df ->
  exists recs, df = loaded_frame to_datetime_ms to_numeric recs.
Proof.
  unfold load_predictions. destruct (fs json_path) as [[|raw]|] eqn:Hfs.
  - discriminate.
  - destruct (DataFrame_of (normalize_root raw)) as [df0| |] eqn:Hdf;
      try discriminate.
    intros E. injection E as <-.
    assert (Hrec : exists recs, df0 = frame_of_records recs).
    { destruct raw; simpl in Hdf; try discriminate.
      - injection Hdf as <-. now exists [].
      - destruct (as_records l) as [recs|]; [| discriminate].
        injection Hdf as <-. now exists recs.
      - rewrite as_records_dicts in Hdf. injection Hdf as <-. eauto. }
    destruct Hrec as [recs ->]. exists recs. apply coerce_frame_records.
  - intros E. injection E as <-. now exists [].
Qed.

Lemma cell_at_map (g : string -> cell) (c : string) (cols : list string) :
  In c cols -> cell_at c cols (map g cols) = Some (g c).
Proof.
  induction cols as [|c' cols IH]; simpl; [contradiction |].
  intros [->|HIn].
  - now rewrite String.eqb_refl.
  - destruct (String.eqb_spec c' c) as [->|_]; [reflexivity | now apply IH].
Qed.

(** X2.  Every frame the loader returns, from a file or for a missing one,
    has distinct column labels among which are Ticker, Date, ProbUp and
    Signal, as many rows as the root has records, and in every row one cell
    for each column. *)
Theorem load_predictions_schema :
  forall (to_datetime_ms : cell -> option Z) (to_numeric : cell -> f64)
         (fs : filesystem) (json_path : string) (df : DataFrame),
    load_predictions to_datetime_ms to_numeric fs json_path = Returns df ->
    NoDup (columns df) /\
    (forall c, In c required_columns -> In c (columns df)) /\
    (forall raw recs, fs json_path = Some (Json raw) ->
                      records_of raw = Some recs ->
                      List.length (rows df) = List.length recs) /\
    (fs json_path = None -> rows df = []) /\
    (forall r, In r (rows df) ->
       List.length r = List.length (columns df) /\
       (forall c, In c (columns df) -> exists x, cell_at c (columns df) r = Some x)).
Proof.
  intros to_dt to_num fs p df Hload.
  assert (Hrows : (forall raw recs, fs p = Some (Json raw) ->
                                    records_of raw = Some recs ->
                                    List.length (rows df) = List.length recs) /\
                  (fs p = None -> rows df = [])).
  { split.
    - intros raw recs Hfs Hrecs.
      assert (Hplain : load_predictions to_dt to_num fs p
                       = Returns (loaded_frame to_dt to_num recs)).
      { unfold load_predictions. rewrite Hfs.
        assert (Hdf : DataFrame_of (normalize_root raw)
                      = Returns (frame_of_records recs)).
        { destruct raw; simpl in Hrecs; try discriminate.
          - injection Hrecs as <-. reflexivity.
          - simpl. now rewrite Hrecs.
          - injection Hrecs as <-. simpl. now rewrite as_records_dicts. }
        rewrite Hdf. now rewrite coerce_frame_records. }
      rewrite Hplain in Hload. injection Hload as <-.
      unfold loaded_frame. cbn [rows]. apply length_map.
    - intros Hfs. unfold load_predictions in Hload. rewrite Hfs in Hload.
      injection Hload as <-. reflexivity. }
  destruct Hrows as [Hcount Hmissing].
  apply load_predictions_returns in Hload. destruct Hload as [recs ->].
  unfold loaded_frame in *. cbn [columns rows] in *.
  split; [apply loaded_columns_NoDup, union_keys_NoDup |].
  split; [intros c; apply loaded_columns_required |].
  split; [exact Hcount |]. split; [exact Hmissing |].
  intros r Hr. apply in_map_iff in Hr. destruct Hr as [rec [<- _]].
  split; [apply length_map |].
  intros c Hc. eexists. now apply cell_at_map.
Qed.

Lemma load_predictions_schema_witness :
  let df := mkFrame ["Signal"; "Ticker"; "Date"; "ProbUp"]
                    [[CObj (JStr "UP"); CNA; CTime None; CNum NaN]] in
  NoDup (columns df) /\
  (forall c, In c required_columns -> In c (columns df)).
Proof.
  intros df.
  destruct (load_predictions_schema (fun _ => None) (fun _ => NaN)
              (fun _ => Some (Json (JList [JDict [("Signal", JStr "UP")]])))
              "p" df eq_refl) as [Hnd [Hreq _]].
  split; [exact Hnd | exact Hreq].
Defined.

Lemma normalize_single_root (m : list (string * pydict)) :
  (forall tk r, In (tk, r) m -> wf_dict r /\ dict_get "Ticker" r = None) ->
  normalize_root (single_root m) = flat_single_root m.
Proof.
  intros Hm. unfold normalize_root, single_root, flat_single_root. f_equal.
  induction m as [|[tk r] m IH]; [reflexivity |].
  cbn [map flat_map fst snd entry_records app].
  destruct (Hm tk r (or_introl eq_refl)) as [Hwf Hnone].
  rewrite with_ticker_fresh by assumption. f_equal.
  apply IH. intros tk0 r0 H. apply (Hm tk0 r0). now right.
Qed.

(** X3.  A predictions file whose root maps each ticker to a single record
    object loads to the same frame as the flat list of these records with
    the ticker as their Ticker field. *)
Theorem load_predictions_single_eq_flat :
  forall (to_datetime_ms : cell -> option Z) (to_numeric : cell -> f64)
         (fs : filesystem) (single_path flat_path : string)
         (m : list (string * pydict)),
    (forall tk r, In (tk, r) m -> wf_dict r /\ dict_get "Ticker" r = None) ->
    fs single_path = Some (Json (single_root m)) ->
    fs flat_path = Some (Json (flat_single_root m)) ->
    exists df,
      load_predictions to_datetime_ms to_numeric fs single_path = Returns df /\
      load_predictions to_datetime_ms to_numeric fs flat_path = Returns df.
Proof.
  intros to_dt to_num fs p1 p2 m Hm H1 H2.
  unfold load_predictions. rewrite H1, H2.
  rewrite (normalize_single_root m Hm).
  unfold flat_single_root. simpl normalize_root. unfold DataFrame_of.
  rewrite <- (map_map (fun kv => ("Ticker", JStr (fst kv)) :: snd kv) JDict).
  rewrite as_records_dicts. eexists. split; reflexivity.
Qed.

Lemma load_predictions_single_eq_flat_witness :
  let m := [("A", [("Date", JInt 0); ("Signal", JStr "UP")]);
            ("B", [("ProbUp", JFloat (Fin (1 # 2)))])] in
  let fs := fun p => if String.eqb p "single.json"
                     then Some (Json (single_root m))
                     else Some (Json (flat_single_root m)) in
  exists df,
    load_predictions (fun _ => None) (fun _ => NaN) fs "single.json" = Returns df /\
    load_predictions (fun _ => None) (fun _ => NaN) fs "flat.json" = Returns df.
Proof.
  intros m fs.
  apply (load_predictions_single_eq_flat (fun _ => None) (fun _ => NaN) fs
           "single.json" "flat.json" m).
  - intros tk r [E|[E|[]]]; injection E as <- <-; split; try reflexivity;
      unfold wf_dict; simpl; repeat constructor; simpl; intuition discriminate.
  - reflexivity.
  - reflexivity.
Defined.

(** ** The rows the tabs show *)

Lemma filter_filter (A : Type) (p q : A -> bool) (l : list A) :
  filter p (filter q l) = filter (fun x => q x && p x) l.
Proof.
  induction l as [|x l IH]; simpl; [reflexivity |].
  destruct (q x); simpl; [destruct (p x); now rewrite IH | exact IH].
Qed.

Lemma filters_as_passes (f : filters) (df : list Row) :
  range_filter f (signal_filter f df) = filter (passes f) df.
Proof.
  unfold range_filter, signal_filter, passes.
  destruct (range_bounds f) as [pmin pmax]. apply filter_filter.
Qed.

Lemma apply_limit_length (f : filters) (t : list Row) :
  List.length (apply_limit f t) = limited (limit_option f) (List.length t).
Proof.
  unfold apply_limit, limited, head. destruct (limit_option f) as [k|];
    [| reflexivity].
  destruct (0 <=? k)%Z; rewrite length_firstn; lia.
Qed.

Lemma filter_sort_limit_length (sv : sorter) (f : filters) (df : list Row) :
  sort_values_contract sv ->
  List.length (filter_sort_limit sv f df)
  = limited (limit_option f) (List.length (filter (passes f) df)).
Proof.
  intros Hsv. unfold filter_sort_limit. rewrite apply_limit_length.
  destruct (sort_rows_contract sv f (range_filter f (signal_filter f df)) Hsv)
    as [Hperm _].
  now rewrite <- (Permutation_length Hperm), filters_as_passes.
Qed.

(** X4.  The pipeline returns rows of the table that pass both filters and
    no other row; with limit "All" it returns each of them once; the number
    of rows returned is, for a limit [n >= 0], the smaller of [n] and the
    number of passing rows, and for a negative [n] that number less [-n].
    With only "Include UP" set every row returned has the signal UP. *)
Theorem filter_sort_limit_rows :
  forall sv : sorter, sort_values_contract sv ->
  forall (f : filters) (df : list Row),
    let kept := filter (passes f) df in
    let out := filter_sort_limit sv f df in
    (forall r, In r out -> In r df /\ passes f r = true) /\
    (limit_option f = LimitAll -> Permutation kept out) /\
    List.length out = limited (limit_option f) (List.length kept) /\
    (include_up f = true -> include_down f = false ->
     forall r, In r out -> Signal_u r = Some "UP").
Proof.
  intros sv Hsv f df kept out.
  destruct (sort_rows_contract sv f (range_filter f (signal_filter f df)) Hsv)
    as [Hperm _].
  rewrite filters_as_passes in Hperm. fold kept in Hperm.
  assert (Hin : forall r, In r out -> In r df /\ passes f r = true).
  { intros r Hr. apply (In_filter_sort_limit sv f df r Hsv) in Hr.
    rewrite filters_as_passes in Hr. now apply filter_In in Hr. }
  split; [exact Hin |]. split; [| split].
  - intros Hall. unfold out, filter_sort_limit, apply_limit.
    rewrite Hall, filters_as_passes. exact Hperm.
  - now apply filter_sort_limit_length.
  - intros Hup Hdown r Hr. apply Hin in Hr. destruct Hr as [_ Hp].
    unfold passes in Hp. rewrite Hup, Hdown in Hp.
    apply andb_true_iff in Hp. destruct Hp as [Hp _].
    unfold isin in Hp. destruct (Signal_u r) as [u|]; [| discriminate].
    simpl in Hp. rewrite orb_false_r in Hp.
    apply String.eqb_eq in Hp. now subst.
Qed.

Lemma filter_sort_limit_rows_witness :
  let f := mkFilters true false (Some (Fin 0%Q, Fin 1%Q)) (LimitInt 1)
                     "Alphabetical (Ticker)" in
  let df := [sample_row 0 "B" None (1 # 2) "up";
             sample_row 1 "A" None (1 # 4) "UP";
             sample_row 2 "C" None (1 # 8) "DOWN"] in
  List.length (filter_sort_limit stable_sort_values f df) = 1%nat /\
  forall r, In r (filter_sort_limit stable_sort_values f df) ->
            Signal_u r = Some "UP".
Proof.
  intros f df.
  destruct (filter_sort_limit_rows stable_sort_values
              stable_sort_values_contract f df) as [_ [_ [Hlen Hup]]].
  split; [exact Hlen | apply Hup; reflexivity].
Defined.

Lemma NoDup_map_filter (A B : Type) (h : A -> B) (p : A -> bool) (l : list A) :
  NoDup (map h l) -> NoDup (map h (filter p l)).
Proof.
  induction l as [|x l IH]; simpl; intros H; [constructor |].
  inversion H as [|? ? Hx Hnd]; subst.
  destruct (p x); [| now apply IH]. simpl. constructor; [| now apply IH].
  intros HIn. apply Hx. apply in_map_iff in HIn.
  destruct HIn as [y [E Hy]]. apply filter_In in Hy.
  apply in_map_iff. exists y. tauto.
Qed.

Lemma NoDup_map_firstn (A B : Type) (h : A -> B) (n : nat) (l : list A) :
  NoDup (map h l) -> NoDup (map h (firstn n l)).
Proof.
  intros H. rewrite <- (firstn_skipn n l), map_app in H.
  now apply NoDup_app_remove_r in H.
Qed.

Lemma latest_df_length (sv : sorter) (pred_df : list Row) :
  sort_values_contract sv ->
  (List.length (latest_df sv pred_df) <= List.length pred_df)%nat.
Proof.
  intros Hsv. unfold latest_df.
  destruct (Hsv ByTickerDate true pred_df) as [Hperm _].
  rewrite (Permutation_length Hperm).
  set (s := sv ByTickerDate true pred_df).
  apply Nat.le_trans with (List.length (dropna_Ticker s)).
  - generalize (dropna_Ticker s). intros l.
    induction l as [|a l IH]; simpl; [lia |].
    destruct (Ticker a); [| lia].
    destruct (existsb (same_ticker a) l); simpl; lia.
  - unfold dropna_Ticker. apply filter_length_le.
Qed.

(** X5.  The rows the share tab iterates over are rows of the prediction
    table with a Ticker, no two of them with the same Ticker, and they are
    at most as many as the tickers counted in "Showing X of Y", which are at
    most as many as the rows of the table. *)
Theorem render_share_tab_distinct_tickers :
  forall sv : sorter, sort_values_contract sv ->
  forall (f : filters) (pred_df work_df : list Row),
    render_share_tab sv f pred_df = Some work_df ->
    NoDup (map Ticker work_df) /\
    (forall r, In r work_df -> In r pred_df /\ Ticker r <> None) /\
    (List.length work_df <= List.length (latest_df sv pred_df))%nat /\
    (List.length (latest_df sv pred_df) <= List.length pred_df)%nat.
Proof.
  intros sv Hsv f pred_df work_df Hrender.
  destruct pred_df as [|r0 pred_df]; [discriminate |].
  rewrite render_share_tab_reduces_first in Hrender. injection Hrender as <-.
  set (latest := latest_df sv (r0 :: pred_df)).
  destruct (latest_df_last_in_date_order sv (r0 :: pred_df) Hsv)
    as [Hnd [Hin _]].
  fold latest in Hnd, Hin.
  destruct (sort_rows_contract sv f (range_filter f (signal_filter f latest)) Hsv)
    as [Hperm _].
  assert (Hkept : NoDup (map Ticker (range_filter f (signal_filter f latest)))).
  { rewrite filters_as_passes. now apply NoDup_map_filter. }
  split; [| split; [| split]].
  - unfold filter_sort_limit, apply_limit, head.
    pose proof (Permutation_NoDup (Permutation_map Ticker Hperm) Hkept) as Hs.
    destruct (limit_option f) as [k|]; [| exact Hs].
    destruct (0 <=? k)%Z; now apply NoDup_map_firstn.
  - intros r Hr. apply (In_filter_sort_limit sv f latest r Hsv) in Hr.
    rewrite filters_as_passes in Hr. apply filter_In in Hr.
    apply Hin. tauto.
  - rewrite (filter_sort_limit_length sv f latest Hsv). pose proof (filter_length_le (passes f) latest) as Hle.
    unfold limited. destruct (limit_option f) as [k|]; [| exact Hle].
    destruct (0 <=? k)%Z; lia.
  - now apply latest_df_length.
Qed.

Lemma render_share_tab_distinct_tickers_witness :
  let pred_df := [sample_row 0 "A" (Some 1%Z) (1 # 2) "UP";
                  sample_row 1 "A" (Some 2%Z) (3 # 4) "UP";
                  sample_row 2 "B" (Some 1%Z) (1 # 4) "DOWN"] in
  let work_df := [sample_row 1 "A" (Some 2%Z) (3 # 4) "UP";
                  sample_row 2 "B" (Some 1%Z) (1 # 4) "DOWN"] in
  NoDup (map Ticker work_df).
Proof.
  intros pred_df work_df.
  destruct (render_share_tab_distinct_tickers stable_sort_values
              stable_sort_values_contract (all_rows "ProbUp descending")
              pred_df work_df eq_refl) as [Hnd _].
  exact Hnd.
Defined.

(** ** Price files *)

Section PriceIndexFacts.

Variable lower : string -> string.

Lemma index_get_app (k : string) (a b : price_index) :
  index_get k (a ++ b)
  = match index_get k a with
    | Some p => Some p
    | None => index_get k b
    end.
Proof.
  induction a as [|[k' p] a IH]; simpl; [reflexivity |].
  destruct (String.eqb k k'); [reflexivity | exact IH].
Qed.

Lemma index_get_setdefault (k key path : string) (idx : price_index) :
  index_get k (setdefault path idx key)
  = match index_get k idx with
    | Some p => Some p
    | None => if String.eqb k key then Some path else None
    end.
Proof.
  unfold setdefault. destruct (index_get key idx) as [q|] eqn:E.
  - destruct (index_get k idx) as [p|] eqn:Ek; [reflexivity |].
    destruct (String.eqb_spec k key) as [->|_]; [congruence | reflexivity].
  - rewrite index_get_app. simpl. now destruct (index_get k idx).
Qed.

Lemma index_get_setdefaults (k path : string) (keys : list string)
      (idx : price_index) :
  index_get k (fold_left (setdefault path) keys idx)
  = match index_get k idx with
    | Some p => Some p
    | None => if existsb (String.eqb k) keys then Some path else None
    end.
Proof.
  revert idx. induction keys as [|key keys IH]; simpl; intros idx.
  - now destruct (index_get k idx).
  - rewrite IH, index_get_setdefault.
    destruct (index_get k idx); [reflexivity |].
    destruct (String.eqb k key); reflexivity.
Qed.

Lemma index_get_registered (prices_dir k : string) (names : list string)
      (idx : price_index) :
  index_get k (fold_left (register lower prices_dir) names idx)
  = match index_get k idx with
    | Some p => Some p
    | None => option_map (path_join prices_dir)
                         (find (registers lower k) names)
    end.
Proof.
  revert idx. induction names as [|f names IH]; simpl; intros idx.
  - now destruct (index_get k idx).
  - rewrite IH.
    assert (Hone : index_get k (register lower prices_dir idx f)
                   = match index_get k idx with
                     | Some p => Some p
                     | None => if registers lower k f
                               then Some (path_join prices_dir f) else None
                     end).
    { unfold register, registers. destruct (is_csv lower f).
      - now rewrite index_get_setdefaults.
      - now destruct (index_get k idx). }
    rewrite Hone. destruct (index_get k idx); [reflexivity |].
    cbn [find]. destruct (registers lower k f); reflexivity.
Qed.

(** X6.  The index holds, for a key, the path of the first file of the
    listing that is a CSV file and registers the key, and nothing for a key
    no file registers; files listed later never replace an entry. *)
Theorem build_price_index_first_wins :
  forall (prices_dir k : string) (names more : list string),
    index_get k (_build_price_index lower prices_dir (Some names))
    = option_map (path_join prices_dir) (find (registers lower k) names) /\
    (forall p,
        index_get k (_build_price_index lower prices_dir (Some names)) = Some p ->
        index_get k (_build_price_index lower prices_dir (Some (names ++ more)))
        = Some p).
Proof.
  intros prices_dir k names more. unfold _build_price_index.
  split; [now rewrite index_get_registered |].
  intros p Hp. rewrite fold_left_app, index_get_registered. now rewrite Hp.
Qed.

Lemma first_hit_some (cands : list string) (idx : price_index) (p : string) :
  first_hit lower cands idx = Some p ->
  p <> "" /\ exists c, In c cands /\ index_get (lower c) idx = Some p.
Proof.
  induction cands as [|c cands IH]; simpl; [discriminate |].
  destruct (index_get (lower c) idx) as [q|] eqn:E.
  - destruct (String.eqb_spec q "") as [->|Hne].
    + intros H. destruct (IH H) as [Hp [c' [Hc' Hg]]]. eauto.
    + intros H. injection H as <-. eauto.
  - intros H. destruct (IH H) as [Hp [c' [Hc' Hg]]]. eauto.
Qed.

Lemma first_hit_none (cands : list string) (idx : price_index) :
  first_hit lower cands idx = None <->
  forall c, In c cands ->
            index_get (lower c) idx = None \/ index_get (lower c) idx = Some "".
Proof.
  induction cands as [|c cands IH]; simpl.
  - split; [intros _ c [] | reflexivity].
  - destruct (index_get (lower c) idx) as [q|] eqn:E.
    + destruct (String.eqb_spec q "") as [->|Hne].
      * rewrite IH. split.
        -- intros H c' [<-|Hc']; [now right | now apply H].
        -- intros H c' Hc'. apply H. now right.
      * split; [discriminate |]. intros H.
        destruct (H c (or_introl eq_refl)) as [H'|H']; congruence.
    + rewrite IH. split.
      * intros H c' [<-|Hc']; [now left | now apply H].
      * intros H c' Hc'. apply H. now right.
Qed.

Lemma path_join_nonempty (a b : string) : a <> "" -> path_join a b <> "".
Proof.
  intros Ha. unfold path_join.
  destruct (startswith b "/") eqn:Eb.
  - intros ->. discriminate Eb.
  - destruct (String.eqb a "" || endswith a "/");
      destruct a; try contradiction; discriminate.
Qed.

Lemma find_registers (k : string) (names : list string) (f : string) :
  find (registers lower k) names = Some f ->
  In f names /\ is_csv lower f = true /\ In k (index_keys lower f).
Proof.
  intros H. apply find_some in H. destruct H as [HIn Hreg].
  unfold registers in Hreg. apply andb_true_iff in Hreg.
  destruct Hreg as [Hcsv Hk]. repeat split; auto.
  apply existsb_exists in Hk. destruct Hk as [k' [Hk' E]].
  apply String.eqb_eq in E. now subst.
Qed.

(** X7.  A ticker resolves only to the path of a CSV file of the listing
    that registers one of the five spellings of the ticker, and it fails to
    resolve exactly when no CSV file of the listing registers any of
    them. *)
Theorem resolve_price_path_sound_complete :
  forall (prices_dir ticker : string) (names : list string),
    prices_dir <> "" ->
    let idx := _build_price_index lower prices_dir (Some names) in
    (forall p, _resolve_price_path lower ticker idx = Some p ->
       exists f c, In f names /\ is_csv lower f = true /\
                   p = path_join prices_dir f /\
                   In c (ticker_candidates ticker) /\
                   In (lower c) (index_keys lower f)) /\
    (_resolve_price_path lower ticker idx = None <->
     forall f c, In f names -> is_csv lower f = true ->
                 In c (ticker_candidates ticker) ->
                 ~ In (lower c) (index_keys lower f)).
Proof.
  intros prices_dir ticker names Hdir idx. unfold _resolve_price_path.
  assert (Hget : forall k, index_get k idx
                 = option_map (path_join prices_dir)
                              (find (registers lower k) names)).
  { intros k. unfold idx, _build_price_index. now rewrite index_get_registered. }
  split.
  - intros p Hp. apply first_hit_some in Hp.
    destruct Hp as [_ [c [Hc Hg]]]. rewrite Hget in Hg.
    destruct (find (registers lower (lower c)) names) as [f|] eqn:Ef;
      [| discriminate].
    injection Hg as <-. apply find_registers in Ef.
    exists f, c. tauto.
  - rewrite first_hit_none. split.
    + intros H f c Hf Hcsv Hc Hk.
      destruct (find (registers lower (lower c)) names) as [f'|] eqn:Ef.
      * destruct (H c Hc) as [Hn|Hn]; rewrite Hget, Ef in Hn;
          [discriminate |].
        injection Hn as Hn. now apply (path_join_nonempty prices_dir f').
      * apply (find_none _ _ Ef f) in Hf. unfold registers in Hf.
        assert (Hex : existsb (String.eqb (lower c)) (index_keys lower f) = true).
        { apply existsb_exists. exists (lower c).
          split; [exact Hk | apply String.eqb_refl]. }
        rewrite Hcsv, Hex in Hf. discriminate Hf.
    + intros H c Hc. left. rewrite Hget.
      destruct (find (registers lower (lower c)) names) as [f|] eqn:Ef;
        [| reflexivity].
      apply find_registers in Ef. destruct Ef as [Hf [Hcsv Hk]].
      exfalso. apply (H f c); assumption.
Qed.

(** X8.  Every CSV file of the listing is found under its own name: the
    ticker written as the file name without extension, or as the part of it
    before the first underscore, in any spelling that [lower] maps to the
    same string, resolves to a path; in a directory with that file alone it
    resolves to the path of the file. *)
Theorem resolve_price_path_own_name :
  forall (prices_dir ticker fname : string) (names : list string),
    prices_dir <> "" ->
    In fname names -> is_csv lower fname = true ->
    lower ticker = lower (stem_of fname) \/
    lower ticker = lower (prefix_of fname) ->
    (exists p, _resolve_price_path lower ticker
                 (_build_price_index lower prices_dir (Some names)) = Some p) /\
    _resolve_price_path lower ticker
      (_build_price_index lower prices_dir (Some [fname]))
    = Some (path_join prices_dir fname).
Proof.
  intros prices_dir ticker fname names Hdir HIn Hcsv Hname.
  assert (Hkey : existsb (String.eqb (lower ticker)) (index_keys lower fname)
                 = true).
  { apply existsb_exists. exists (lower ticker).
    split; [| apply String.eqb_refl]. unfold index_keys.
    destruct Hname as [-> | ->]; simpl; tauto. }
  assert (Hreg : registers lower (lower ticker) fname = true).
  { unfold registers. now rewrite Hcsv, Hkey. }
  split.
  - unfold _resolve_price_path, _build_price_index, ticker_candidates.
    cbn [first_hit]. rewrite index_get_registered. simpl index_get.
    destruct (find (registers lower (lower ticker)) names) as [f|] eqn:Ef.
    + simpl. pose proof (path_join_nonempty prices_dir f Hdir) as Hne.
      apply String.eqb_neq in Hne. rewrite Hne. eauto.
    + apply (find_none _ _ Ef fname) in HIn. congruence.
  - unfold _resolve_price_path, _build_price_index, ticker_candidates.
    cbn [first_hit]. rewrite index_get_registered. simpl index_get.
    simpl find. rewrite Hreg. simpl.
    pose proof (path_join_nonempty prices_dir fname Hdir) as Hne.
    apply String.eqb_neq in Hne. now rewrite Hne.
Qed.

End PriceIndexFacts.

(** Section 8.5 of the specification. *)
Example resolve_price_path_AAPL :
  let idx := _build_price_index lower_ASCII "data/prices"
                                (Some ["AAPL_US.csv"; "notes.txt"]) in
  _resolve_price_path lower_ASCII "AAPL" idx = Some "data/prices/AAPL_US.csv" /\
  _resolve_price_path lower_ASCII "aapl" idx = Some "data/prices/AAPL_US.csv" /\
  _resolve_price_path lower_ASCII "ZZZZ" idx = None /\
  _resolve_price_path lower_ASCII "AAPL" (_build_price_index lower_ASCII
                                            "data/prices" None) = None.
Proof.
  repeat split; reflexivity.
Qed.

Lemma build_price_index_first_wins_witness :
  index_get "brk" (_build_price_index lower_ASCII "d"
                     (Some ["BRK_A.csv"; "BRK_B.CSV"]))
  = Some "d/BRK_A.csv".
Proof.
  destruct (build_price_index_first_wins lower_ASCII "d" "brk"
              ["BRK_A.csv"] ["BRK_B.CSV"]) as [_ Hkeep].
  apply Hkeep. reflexivity.
Defined.

Lemma resolve_price_path_sound_complete_witness :
  _resolve_price_path lower_ASCII "MSFT"
    (_build_price_index lower_ASCII "data/prices" (Some ["AAPL_US.csv"]))
  = None.
Proof.
  destruct (resolve_price_path_sound_complete lower_ASCII "data/prices" "MSFT"
              ["AAPL_US.csv"]) as [_ Hnone]; [discriminate |].
  apply Hnone. intros f c [<-|[]] _ Hc Hk.
  simpl in Hc, Hk.
  repeat (destruct Hc as [<-|Hc];
          [repeat (destruct Hk as [Hk|Hk]; try discriminate Hk); exact Hk |]).
  exact Hc.
Defined.

Lemma resolve_price_path_own_name_witness :
  (exists p, _resolve_price_path lower_ASCII "brk.b"
               (_build_price_index lower_ASCII "data/prices"
                  (Some ["x.csv"; "BRK.B_US.csv"])) = Some p) /\
  _resolve_price_path lower_ASCII "brk.b"
    (_build_price_index lower_ASCII "data/prices" (Some ["BRK.B_US.csv"]))
  = Some (path_join "data/prices" "BRK.B_US.csv").
Proof.
  apply (resolve_price_path_own_name lower_ASCII "data/prices" "brk.b"
           "BRK.B_US.csv" ["x.csv"; "BRK.B_US.csv"]).
  - discriminate.
  - simpl. tauto.
  - reflexivity.
  - right. reflexivity.
Defined.


(** ** Sidebar callbacks *)

Lemma not_get_set_true (key : string) (session_state : pydict) :
  not_get key (dict_set key (JBool true) session_state) = false.
Proof.
  unfold not_get. now rewrite dict_get_set_same.
Qed.

(** X9.  After either callback of the two check boxes one box is ticked.
    A state with a ticked box is left as it is; when none is ticked the
    callback of "Include UP" ticks "Include DOWN" and the callback of
    "Include DOWN" ticks "Include UP", and no other key changes. *)
Theorem checkbox_callbacks_keep_one_selected :
  forall session_state : pydict,
    let up := _global_up_changed session_state in
    let down := _global_down_changed session_state in
    one_selected up = true /\ one_selected down = true /\
    (one_selected session_state = true ->
     up = session_state /\ down = session_state) /\
    (one_selected session_state = false ->
     dict_get "global_include_down" up = Some (JBool true) /\
     dict_get "global_include_up" down = Some (JBool true) /\
     (forall key, key <> "global_include_down" ->
                  dict_get key up = dict_get key session_state) /\
     (forall key, key <> "global_include_up" ->
                  dict_get key down = dict_get key session_state)).
Proof.
  intros st up down. subst up down.
  unfold _global_up_changed, _global_down_changed, one_selected.
  destruct (not_get "global_include_up" st) eqn:Eu;
    destruct (not_get "global_include_down" st) eqn:Ed; cbn [andb negb orb].
  - split; [rewrite not_get_set_true; apply orb_true_r |].
    split; [now rewrite not_get_set_true |].
    split; [discriminate |]. intros _.
    split; [apply dict_get_set_same |].
    split; [apply dict_get_set_same |].
    split; intros key Hk; now apply dict_get_set_other.
  - rewrite Eu, Ed. repeat split; try reflexivity; discriminate.
  - rewrite Eu, Ed. repeat split; try reflexivity; discriminate.
  - rewrite Eu, Ed. repeat split; try reflexivity; discriminate.
Qed.

Lemma checkbox_callbacks_keep_one_selected_witness :
  dict_get "global_include_down"
           (_global_up_changed [("global_include_up", JBool false);
                                ("global_include_down", JBool false);
                                ("global_limit", JInt 10)])
  = Some (JBool true).
Proof.
  destruct (checkbox_callbacks_keep_one_selected
              [("global_include_up", JBool false);
               ("global_include_down", JBool false);
               ("global_limit", JInt 10)]) as [_ [_ [_ H]]].
  destruct H as [H _]; [reflexivity | exact H].
Defined.

(** ** The signal of a row that is shown *)

Lemma shown_rows_signal (sv : sorter) (f : filters) (df : list Row) (r : Row) :
  sort_values_contract sv -> In r (filter_sort_limit sv f df) ->
  exists t, Signal r = CObj (JStr t) /\
            In (upper t) (signals_selected (include_up f) (include_down f)).
Proof.
  intros Hsv HIn. apply In_filter_sort_limit in HIn; [| exact Hsv].
  rewrite filters_as_passes in HIn. apply filter_In in HIn.
  destruct HIn as [_ Hp]. unfold passes in Hp.
  apply andb_true_iff in Hp. destruct Hp as [Hs _].
  unfold Signal_u in Hs. destruct (Signal r) as [v| | | |]; try discriminate Hs.
  destruct v; try discriminate Hs. exists s. split; [reflexivity |].
  unfold isin in Hs. apply existsb_exists in Hs. destruct Hs as [x [Hx E]].
  apply String.eqb_eq in E. now subst.
Qed.

Lemma signals_selected_cases (u d : bool) (s : string) :
  In s (signals_selected u d) -> s = "UP" \/ s = "DOWN".
Proof.
  destruct u, d; simpl; intuition.
Qed.

(** X10.  Every row the probability tab shows gets one of the two arrow
    labels, never its raw signal or the empty string, and it gets the label
    of a signal that is selected. *)
Theorem probability_tab_shows_arrows :
  forall sv : sorter, sort_values_contract sv ->
  forall (f : filters) (df result_df : list Row) (r : Row),
    render_probability_tab sv f df = Some result_df -> In r result_df ->
    let signals := signals_selected (include_up f) (include_down f) in
    (_sig_to_emoji (Signal r) = ArrowUp /\ In "UP" signals) \/
    (_sig_to_emoji (Signal r) = ArrowDown /\ In "DOWN" signals).
Proof.
  intros sv Hsv f df result_df r Hr HIn signals.
  unfold render_probability_tab in Hr.
  destruct df as [|r0 df]; [discriminate |]. injection Hr as <-.
  destruct (shown_rows_signal sv f (r0 :: df) r Hsv HIn) as [t [Ht Hsel]].
  rewrite Ht. unfold _sig_to_emoji.
  destruct (signals_selected_cases _ _ _ Hsel) as [E|E]; rewrite E in *.
  - left. split; [reflexivity | exact Hsel].
  - right. split; [reflexivity | exact Hsel].
Qed.

Lemma probability_tab_shows_arrows_witness :
  _sig_to_emoji (Signal (sample_row 1 "B" (Some 2%Z) (1 # 2) "up")) = ArrowUp.
Proof.
  destruct (probability_tab_shows_arrows stable_sort_values
              stable_sort_values_contract
              (mkFilters true false None LimitAll "ProbUp descending")
              [sample_row 0 "A" (Some 1%Z) (1 # 4) "Down";
               sample_row 1 "B" (Some 2%Z) (1 # 2) "up"]
              [sample_row 1 "B" (Some 2%Z) (1 # 2) "up"]
              (sample_row 1 "B" (Some 2%Z) (1 # 2) "up")
              eq_refl (or_introl eq_refl)) as [[H _]|[_ H]].
  - exact H.
  - simpl in H. destruct H as [H|[]]. discriminate H.
Defined.

(** X11.  Every share the share tab lists is headed by the green or the red
    arrow, never by the empty one of line 187, and by the arrow of a signal
    that is selected. *)
Theorem share_tab_shows_arrows :
  forall sv : sorter, sort_values_contract sv ->
  forall (f : filters) (pred_df work_df : list Row) (r : Row),
    render_share_tab sv f pred_df = Some work_df -> In r work_df ->
    let signals := signals_selected (include_up f) (include_down f) in
    (prediction_arrow r = Returns GreenUp /\ In "UP" signals) \/
    (prediction_arrow r = Returns RedDown /\ In "DOWN" signals).
Proof.
  intros sv Hsv f pred_df work_df r Hr HIn signals.
  unfold render_share_tab in Hr.
  destruct pred_df as [|r0 pred_df]; [discriminate |]. injection Hr as <-.
  destruct (shown_rows_signal sv f _ r Hsv HIn) as [t [Ht Hsel]].
  unfold prediction_arrow, signal_of, Signal_u. rewrite Ht. cbn [isna].
  destruct (signals_selected_cases _ _ _ Hsel) as [E|E]; rewrite E in *.
  - left. split; [reflexivity | exact Hsel].
  - right. split; [reflexivity | exact Hsel].
Qed.

Lemma share_tab_shows_arrows_witness :
  prediction_arrow (sample_row 0 "A" (Some 1%Z) (1 # 4) "Down") = Returns RedDown.
Proof.
  destruct (share_tab_shows_arrows stable_sort_values
              stable_sort_values_contract
              (mkFilters false true None LimitAll "ProbUp descending")
              [sample_row 0 "A" (Some 1%Z) (1 # 4) "Down";
               sample_row 1 "B" (Some 2%Z) (1 # 2) "up"]
              [sample_row 0 "A" (Some 1%Z) (1 # 4) "Down"]
              (sample_row 0 "A" (Some 1%Z) (1 # 4) "Down")
              eq_refl (or_introl eq_refl)) as [[_ H]|[H _]].
  - simpl in H. destruct H as [H|[]]. discriminate H.
  - exact H.
Defined.


(** ** The timestamp of a report name *)

Lemma timestamp_run_digits (s g rest : text) :
  run timestamp_regex s [] [] g rest ->
  exists d8 d6 : text,
    s = chars "Klassifikationsreport_" ++ d8 ++ [95%N] ++ d6
              ++ chars ".txt" ++ rest /\
    digits d8 /\ List.length d8 = 8%nat /\
    digits d6 /\ List.length d6 = 6%nat /\
    g = d8 ++ [95%N] ++ d6.
Proof.
  unfold timestamp_regex, lit, exactly. intros H.
  apply run_chars_inv in H. destruct H as [s1 [-> H]].
  inversion H as [| | |r0 s0 o0 g0 g1 rest0 H1|]; subst; clear H.
  inversion H1 as [| |cs lo hi r0 m1 s2 o0 g0 g1 rest0 Hd1 Hlo1 Hhi1 H2| |];
    subst; clear H1.
  inversion H2 as [|cs c r0 s3 o0 g0 g1 rest0 Hc H3| | |]; subst; clear H2.
  cbn [mem] in Hc. apply N.eqb_eq in Hc. subst c.
  inversion H3 as [| |cs lo hi r0 m2 s4 o0 g0 g1 rest0 Hd2 Hlo2 Hhi2 H4| |];
    subst; clear H3.
  inversion H4 as [| | | |r0 s0 o0 g0 g1 rest0 H5]; subst; clear H4.
  apply (run_chars_inv (chars ".txt") []) in H5. destruct H5 as [s5 [-> H5]].
  inversion H5; subst; clear H5.
  simpl in Hhi1, Hhi2.
  exists m1, m2. split; [reflexivity |].
  split; [exact Hd1 |]. split; [lia |].
  split; [exact Hd2 |]. split; [lia |].
  change (m1 ++ 95%N :: m2 ++ chars ".txt" ++ rest)
    with (m1 ++ [95%N] ++ m2 ++ chars ".txt" ++ rest).
  apply firstn_app3_minus.
Qed.

Lemma unchars_length (t : text) : String.length (unchars t) = List.length t.
Proof.
  unfold unchars. induction t as [|c t IH]; simpl; [reflexivity |].
  now rewrite IH.
Qed.

(** X12.  [extract_timestamp] never raises, and it is modelled exactly on
    the names of ASCII characters.  On such a name it returns the empty
    string exactly when the pattern occurs nowhere in it; otherwise it
    returns fifteen characters, eight digits, an underscore and six
    digits, which stand in the name between [Klassifikationsreport_] and
    [.txt]. *)
Theorem extract_timestamp_shape :
  forall fname : string,
    extract_timestamp fname <> Raises /\
    (extract_timestamp fname = NotModelled <-> ascii_name fname = false) /\
    (ascii_name fname = true ->
     (extract_timestamp fname = Returns "" /\
      ~ matches_in timestamp_regex (chars fname)) \/
     (exists pre d8 d6 post : text,
        chars fname = pre ++ chars "Klassifikationsreport_" ++ d8 ++ [95%N]
                          ++ d6 ++ chars ".txt" ++ post /\
        digits d8 /\ List.length d8 = 8%nat /\
        digits d6 /\ List.length d6 = 6%nat /\
        extract_timestamp fname = Returns (unchars (d8 ++ [95%N] ++ d6)) /\
        String.length (unchars (d8 ++ [95%N] ++ d6)) = 15%nat)).
Proof.
  intros fname. unfold extract_timestamp.
  destruct (ascii_name fname) eqn:Ea.
  2:{ split; [discriminate |]. split; [tauto | discriminate]. }
  split; [discriminate |]. split; [split; discriminate |]. intros _.
  unfold ascii_timestamp.
  destruct (search timestamp_regex (chars fname)) as [g|] eqn:E.
  - right. apply search_sound in E. destruct E as [pre [s' [rest [Hs Hrun]]]].
    apply timestamp_run_digits in Hrun.
    destruct Hrun as [d8 [d6 [-> [Hd8 [Hl8 [Hd6 [Hl6 ->]]]]]]].
    exists pre, d8, d6, rest. repeat split; try assumption.
    rewrite unchars_length, !length_app. cbn [List.length app].
    unfold text, char in *. lia.
  - left. split; [reflexivity |]. now apply search_none_iff.
Qed.

Lemma extract_timestamp_shape_witness :
  let fname := "old_Klassifikationsreport_20240101_120000.txt.bak" in
  ascii_name fname = true /\
  ((extract_timestamp fname = Returns "" /\
    ~ matches_in timestamp_regex (chars fname)) \/
   (exists pre d8 d6 post : text,
      chars fname = pre ++ chars "Klassifikationsreport_" ++ d8 ++ [95%N]
                        ++ d6 ++ chars ".txt" ++ post /\
      digits d8 /\ List.length d8 = 8%nat /\
      digits d6 /\ List.length d6 = 6%nat /\
      extract_timestamp fname = Returns (unchars (d8 ++ [95%N] ++ d6)) /\
      String.length (unchars (d8 ++ [95%N] ++ d6)) = 15%nat)).
Proof.
  intros fname. split; [reflexivity |].
  apply (extract_timestamp_shape fname). reflexivity.
Defined.

Example extract_timestamp_first_match :
  extract_timestamp "old_Klassifikationsreport_20240101_120000.txt.bak"
  = Returns "20240101_120000" /\
  extract_timestamp "Klassifikationsreport_2024-01-01.txt" = Returns "" /\
  extract_timestamp fullwidth_name = NotModelled.
Proof.
  repeat split; vm_compute; reflexivity.
Qed.

(** ** The outcomes of report-file selection *)

Lemma decorate_outcome (strptime : string -> option Z) (files : list string) :
  (forall f, In f files -> ascii_name f = true) ->
  (exists keyed, decorate strptime files = Returns keyed /\
                 map snd keyed = files /\
                 (forall f, In f files ->
                            ascii_timestamp f = "" \/
                            strptime (ascii_timestamp f) <> None) /\
                 (forall k f, In (k, f) keyed ->
                              k = None <-> ascii_timestamp f = "")) \/
  (decorate strptime files = Raises /\
   exists f, In f files /\ ascii_timestamp f <> "" /\
             strptime (ascii_timestamp f) = None).
Proof.
  induction files as [|f files IH]; intros Hascii; cbn [decorate].
  - left. exists []. repeat split; intros; contradiction.
  - unfold extract_timestamp, to_datetime.
    rewrite (Hascii f (or_introl eq_refl)).
    assert (Hrest : forall g, In g files -> ascii_name g = true)
      by (intros g Hg; apply Hascii; now right).
    specialize (IH Hrest).
    destruct (String.eqb_spec (ascii_timestamp f) "") as [E|Hne].
    + destruct IH as [[keyed [Hd [Hs [Hok Hkey]]]]|[Hd [g [Hg Hbad]]]]; rewrite Hd.
      * left. exists ((None, f) :: keyed). split; [reflexivity |].
        split; [cbn [map snd]; now rewrite Hs |]. split.
        -- intros g [<-|Hg]; [now left | now apply Hok].
        -- intros k g [H|H]; [injection H as <- <-; tauto | now apply Hkey].
      * right. split; [reflexivity |]. exists g. split; [now right | exact Hbad].
    + destruct (strptime (ascii_timestamp f)) as [t|] eqn:Et.
      * destruct IH as [[keyed [Hd [Hs [Hok Hkey]]]]|[Hd [g [Hg Hbad]]]]; rewrite Hd.
        -- left. exists ((Some t, f) :: keyed). split; [reflexivity |].
           split; [cbn [map snd]; now rewrite Hs |]. split.
           ++ intros g [<-|Hg]; [right; rewrite Et; discriminate | now apply Hok].
           ++ intros k g [H|H]; [| now apply Hkey].
              injection H as <- <-. split; [discriminate | contradiction].
        -- right. split; [reflexivity |]. exists g.
           split; [now right | exact Hbad].
      * right. split; [reflexivity |]. exists f.
        split; [now left |]. split; assumption.
Qed.

(** Whatever the names are, [decorate] raises only at a name whose
    timestamp pandas rejects. *)
Lemma decorate_raises (strptime : string -> option Z) (files : list string) :
  decorate strptime files = Raises ->
  exists f ts, In f files /\ extract_timestamp f = Returns ts /\
               ts <> "" /\ strptime ts = None.
Proof.
  induction files as [|f files IH]; cbn [decorate]; [discriminate |].
  destruct (extract_timestamp f) as [ts| |] eqn:Ets; [| | discriminate].
  2:{ unfold extract_timestamp in Ets. destruct (ascii_name f); discriminate. }
  unfold to_datetime. destruct (String.eqb_spec ts "") as [E|Hne].
  - destruct (decorate strptime files) as [l| |] eqn:Ed; try discriminate.
    intros _. destruct (IH eq_refl) as [g [tg [Hg H]]].
    exists g, tg. split; [now right | exact H].
  - destruct (strptime ts) as [t|] eqn:Et.
    + destruct (decorate strptime files) as [l| |] eqn:Ed; try discriminate.
      intros _. destruct (IH eq_refl) as [g [tg [Hg H]]].
      exists g, tg. split; [now right | exact H].
    + intros _. exists f, ts. split; [now left |]. repeat split; assumption.
Qed.

Lemma decorate_names (strptime : string -> option Z) (files : list string)
      (keyed : list (option Z * string)) :
  decorate strptime files = Returns keyed -> map snd keyed = files.
Proof.
  revert keyed. induction files as [|f files IH]; cbn [decorate]; intros keyed.
  - intros H. injection H as <-. reflexivity.
  - destruct (extract_timestamp f) as [ts| |]; try discriminate.
    destruct (to_datetime strptime ts) as [k| |]; try discriminate.
    destruct (decorate strptime files) as [l| |]; try discriminate.
    intros H. injection H as <-. cbn [map snd]. now rewrite (IH l eq_refl).
Qed.

Lemma py_sorted_last_In (keyed sorted_files : list (option Z * string))
      (d : option Z * string) :
  keyed <> [] -> py_sorted keyed = Returns sorted_files ->
  In (last sorted_files d) keyed.
Proof.
  intros Hne. unfold py_sorted.
  destruct (forallb (@has_key_date string) keyed || unordered_keys keyed);
    [| discriminate].
  intros H. injection H as <-.
  pose proof (insertion_sort_perm _
                (fun x y : option Z * string => negb (key_lt (fst y) (fst x)))
                keyed) as Hperm.
  apply (Permutation_in _ (Permutation_sym Hperm)). apply last_In.
  intros E. rewrite E in Hperm.
  apply Permutation_sym, Permutation_nil in Hperm. contradiction.
Qed.

Lemma py_sorted_never_raises (A : Type) (l : list (option Z * A)) :
  py_sorted l <> Raises.
Proof.
  unfold py_sorted.
  destruct (forallb (@has_key_date A) l || unordered_keys l); discriminate.
Qed.

(** [sorted] is modelled on keys that are all dates, and on keys that are
    all NaT. *)
Lemma py_sorted_returns (keyed : list (option Z * string)) :
  (forall k f, In (k, f) keyed -> k <> None) \/
  (forall k f, In (k, f) keyed -> k = None) ->
  exists sorted_files, py_sorted keyed = Returns sorted_files.
Proof.
  intros H. unfold py_sorted.
  assert (E : forallb (@has_key_date string) keyed || unordered_keys keyed = true).
  { apply orb_true_iff. destruct H as [H|H]; [left | right].
    - rewrite forallb_forall. intros [k f] Hp. unfold has_key_date. cbn [fst].
      destruct k; [reflexivity |]. now destruct (H None f Hp).
    - unfold unordered_keys. rewrite forallb_forall. intros [k f] Hp.
      rewrite forallb_forall. intros [k' f'] Hp'. cbn [fst].
      now rewrite (H k f Hp). }
  rewrite E. eexists. reflexivity.
Qed.

(** X13.  Report-file selection warns of a missing folder exactly when
    [os.listdir] raises FileNotFoundError, and every other error of the
    listing leaves the function.  On a listing it warns of missing files
    exactly when no name is a candidate; a file it selects is a candidate;
    it raises only at a candidate whose timestamp pandas rejects.  Where
    the candidates have ASCII names, it raises exactly when some candidate
    carries a timestamp that pandas rejects, one such name stopping the tab
    whatever the other names are; and where in addition the candidates all
    carry a timestamp, or none does, it selects a file unless it raises. *)
Theorem latest_report_outcomes :
  forall (strptime : string -> option Z) (listing : listdir_result),
    let outcome := report_selection strptime listing in
    (outcome = Returns NoReportsFolder <-> listing = FileNotFoundError) /\
    (listing = OtherOSError -> outcome = Raises) /\
    (forall names, listing = Listed names ->
       (outcome = Returns NoReportFiles <-> report_files names = []) /\
       (forall f, outcome = Returns (Selected f) -> In f (report_files names)) /\
       (outcome = Raises ->
        exists f ts, In f (report_files names) /\
                     extract_timestamp f = Returns ts /\
                     ts <> "" /\ strptime ts = None) /\
       ((forall f, In f (report_files names) -> ascii_name f = true) ->
        (outcome = Raises <->
         exists f, In f (report_files names) /\ ascii_timestamp f <> "" /\
                   strptime (ascii_timestamp f) = None) /\
        (report_files names <> [] -> outcome <> Raises ->
         (forall f, In f (report_files names) -> ascii_timestamp f <> "") \/
         (forall f, In f (report_files names) -> ascii_timestamp f = "") ->
         exists f, outcome = Returns (Selected f)))).
Proof.
  intros strptime [names| |] outcome; subst outcome;
    unfold report_selection, latest_report.
  2:{ split; [tauto |]. split; [discriminate |]. intros names H. discriminate H. }
  2:{ split; [split; discriminate |]. split; [reflexivity |].
      intros names H. discriminate H. }
  destruct (report_files names) as [|f0 fs] eqn:Ec.
  - split; [split; discriminate |]. split; [discriminate |].
    intros names0 H. injection H as <-. rewrite Ec.
    split; [tauto |]. split; [discriminate |]. split; [discriminate |].
    intros _. split; [split; [discriminate | intros [f [[] _]]] |].
    intros H. contradiction.
  - assert (Hnames : forall names0, Listed names = Listed names0 ->
                                    report_files names0 = f0 :: fs).
    { intros names0 H. injection H as <-. exact Ec. }
    destruct (decorate strptime (f0 :: fs)) as [keyed| |] eqn:Hd.
    + pose proof (decorate_names strptime (f0 :: fs) keyed Hd) as Hs.
      assert (Hne : keyed <> []) by (intros ->; discriminate Hs).
      destruct (py_sorted keyed) as [sorted_files| |] eqn:Hsort.
      * split; [split; discriminate |]. split; [discriminate |].
        intros names0 H. rewrite (Hnames names0 H).
        split; [split; discriminate |]. split.
        { intros f E. injection E as <-. rewrite <- Hs. apply in_map.
          now apply py_sorted_last_In. }
        split; [discriminate |]. intros Hascii. split.
        { split; [discriminate |]. intros [f [Hf [Hnon Hnone]]].
          destruct (decorate_outcome strptime (f0 :: fs) Hascii)
            as [[keyed' [Hd' [_ [Hok _]]]]|[Hd' _]];
            [| rewrite Hd in Hd'; discriminate Hd'].
          destruct (Hok f Hf) as [E|E]; contradiction. }
        intros _ _ _. eexists. reflexivity.
      * now destruct (py_sorted_never_raises string keyed).
      * split; [split; discriminate |]. split; [discriminate |].
        intros names0 H. rewrite (Hnames names0 H).
        split; [split; discriminate |]. split; [discriminate |].
        split; [discriminate |]. intros Hascii. split.
        { split; [discriminate |]. intros [f [Hf [Hnon Hnone]]].
          destruct (decorate_outcome strptime (f0 :: fs) Hascii)
            as [[keyed' [Hd' [_ [Hok _]]]]|[Hd' _]];
            [| rewrite Hd in Hd'; discriminate Hd'].
          destruct (Hok f Hf) as [E|E]; contradiction. }
        intros _ _ Hkeys. exfalso.
        destruct (decorate_outcome strptime (f0 :: fs) Hascii)
          as [[keyed' [Hd' [Hs' [_ Hkey]]]]|[Hd' _]];
          [| rewrite Hd in Hd'; discriminate Hd'].
        rewrite Hd in Hd'. injection Hd' as <-.
        destruct (py_sorted_returns keyed) as [l Hl]; [| congruence].
        assert (Hin : forall k f, In (k, f) keyed -> In f (f0 :: fs)).
        { intros k f Hp. rewrite <- Hs. apply (in_map snd) in Hp. exact Hp. }
        destruct Hkeys as [Hall|Hnone_]; [left | right]; intros k f Hp.
        -- intros Ek. apply (Hkey k f Hp) in Ek. now apply (Hall f (Hin k f Hp)).
        -- apply (Hkey k f Hp). now apply Hnone_, (Hin k f Hp).
    + split; [split; discriminate |]. split; [discriminate |].
      intros names0 H. rewrite (Hnames names0 H).
      split; [split; discriminate |]. split; [discriminate |].
      split; [intros _; now apply decorate_raises |]. intros Hascii. split.
      * split; [| reflexivity]. intros _.
        destruct (decorate_outcome strptime (f0 :: fs) Hascii)
          as [[keyed' [Hd' _]]|[_ Hbad]];
          [rewrite Hd in Hd'; discriminate Hd' | exact Hbad].
      * intros _ Hnot. contradiction.
    + split; [split; discriminate |]. split; [discriminate |].
      intros names0 H. rewrite (Hnames names0 H).
      split; [split; discriminate |]. split; [discriminate |].
      split; [discriminate |]. intros Hascii. exfalso.
      destruct (decorate_outcome strptime (f0 :: fs) Hascii)
        as [[keyed' [Hd' _]]|[Hd' _]]; rewrite Hd in Hd'; discriminate Hd'.
Qed.

Lemma latest_report_outcomes_witness :
  report_selection (fun _ => None)
                   (Listed ["Klassifikationsreport_20241340_000000.txt";
                            "Klassifikationsreport_20240101_120000.txt"])
  = Raises.
Proof.
  destruct (latest_report_outcomes (fun _ => None)
              (Listed ["Klassifikationsreport_20241340_000000.txt";
                       "Klassifikationsreport_20240101_120000.txt"]))
    as [_ [_ H]].
  destruct (H _ eq_refl) as [_ [_ [_ Hascii]]].
  destruct Hascii as [Hraise _].
  - intros f Hf. vm_compute in Hf. destruct Hf as [<-|[<-|[]]]; reflexivity.
  - apply Hraise.
    exists "Klassifikationsreport_20241340_000000.txt".
    split; [now left |]. split; [discriminate | reflexivity].
Defined.

(** The cases left open: a candidate with a full-width digit, and an
    undated candidate beside two dated ones. *)
Example report_selection_not_modelled :
  report_selection digits_key (Listed [fullwidth_name]) = NotModelled /\
  report_selection digits_key
                   (Listed ["Klassifikationsreport_20240102_000000.txt";
                            "Klassifikationsreport_20240101_000000.txt";
                            "Klassifikationsreport_old.txt"])
  = NotModelled /\
  report_selection digits_key
                   (Listed ["Klassifikationsreport_b.txt";
                            "Klassifikationsreport_a.txt"])
  = Returns (Selected "Klassifikationsreport_a.txt").
Proof.
  repeat split; vm_compute; reflexivity.
Qed.

(** ** Order and sign of the scalar metrics *)

Lemma round_half_even_nonneg (n d : Z) :
  (0 <= n)%Z -> (0 < d)%Z -> (0 <= round_half_even n d)%Z.
Proof.
  intros Hn Hd. unfold round_half_even.
  assert (H : (0 <= n / d)%Z) by (apply Z.div_pos; lia).
  destruct (2 * (n mod d) ?= d)%Z; [destruct (Z.even (n / d)) | |]; lia.
Qed.

Lemma scaled_nonneg (n d e : Z) :
  (0 <= n)%Z -> (0 < d)%Z ->
  (0 <= fst (scaled n d e))%Z /\ (0 < snd (scaled n d e))%Z.
Proof.
  intros Hn Hd. unfold scaled. destruct (0 <=? e)%Z eqn:E; cbn [fst snd].
  - apply Z.leb_le in E. split; [exact Hn |].
    apply Z.mul_pos_pos; [exact Hd | apply Z.pow_pos_nonneg; lia].
  - apply Z.leb_gt in E. split; [| exact Hd].
    apply Z.mul_nonneg_nonneg; [exact Hn | apply Z.pow_nonneg; lia].
Qed.

Lemma round_magnitude_nonneg (n d : Z) (x : Q) :
  (0 <= n)%Z -> (0 < d)%Z -> round_magnitude n d = Some x -> (0 <= x)%Q.
Proof.
  intros Hn Hd. unfold round_magnitude.
  destruct (n =? 0)%Z; [intros H; injection H as <-; discriminate |].
  set (e := Z.max (binade n d - 52) (-1074)).
  destruct (scaled_nonneg n d e Hn Hd) as [Hn' Hd'].
  destruct (scaled n d e) as [n' d']. cbn [fst snd] in Hn', Hd'.
  pose proof (round_half_even_nonneg n' d' Hn' Hd') as Hm.
  destruct (0 <=? e)%Z eqn:E.
  - destruct (2 ^ 1024 <=? round_half_even n' d' * 2 ^ e)%Z; [discriminate |].
    intros H. injection H as <-. unfold Qle, inject_Z. cbn [Qnum Qden].
    apply Z.leb_le in E.
    assert (0 <= round_half_even n' d' * 2 ^ e)%Z
      by (apply Z.mul_nonneg_nonneg; [exact Hm | apply Z.pow_nonneg; lia]).
    lia.
  - intros H. injection H as <-. unfold Qle. cbn [Qnum Qden]. lia.
Qed.

(** The rounding of [float] meets what the properties assume of it. *)
Lemma round_binary64_nonnegative : rounds_to_nonnegative round_binary64.
Proof.
  intros q Hq. unfold round_binary64.
  assert (Hn : (0 <= Qnum q)%Z).
  { unfold Qle in Hq. cbn [Qnum Qden] in Hq. lia. }
  apply Z.leb_le in Hn. rewrite Hn. apply Z.leb_le in Hn.
  destruct (round_magnitude (Qnum q) (Z.pos (Qden q))) as [x|] eqn:E;
    [right | now left].
  exists x. split; [reflexivity |].
  apply (round_magnitude_nonneg (Qnum q) (Z.pos (Qden q))); [exact Hn | lia | exact E].
Qed.

Lemma extract_metrics_keys_values (nearest_double : Q -> f64)
      (pats : list (string * regex)) (s : text) :
  (forall l p g, In (l, p) pats -> search p s = Some g ->
                 exists v, py_float nearest_double g = Returns v) ->
  exists m, extract_metrics nearest_double pats s = Returns m /\
            map fst m = map fst (filter (fun lp => found (snd lp) s) pats) /\
            forall l v, In (l, v) m ->
                        exists q, (0 <= q)%Q /\ v = nearest_double q.
Proof.
  induction pats as [|[l0 p0] pats IH]; intros Hfloat; cbn [extract_metrics].
  - exists []. repeat split. intros l v [].
  - destruct IH as [m [Hm [Hkeys Hvals]]].
    { intros l p g HIn Hs. apply (Hfloat l p g); [now right | exact Hs]. }
    cbn [filter snd]. unfold found at 1.
    destruct (search p0 s) as [g|] eqn:Es.
    + destruct (Hfloat l0 p0 g (or_introl eq_refl) Es) as [v0 Hv0].
      rewrite Hv0, Hm. exists ((l0, v0) :: m). split; [reflexivity |].
      split; [cbn [map fst]; now rewrite Hkeys |].
      intros l v [E|HIn]; [| now apply (Hvals l v)].
      injection E as _ <-. now apply (py_float_returns nearest_double g).
    + rewrite Hm. exists m. repeat split; assumption.
Qed.

Lemma metric_patterns_found (s : text) :
  map fst (filter (fun lp => found (snd lp) s) metric_patterns)
  = filter (fun label => found (pattern_of label) s) metric_labels.
Proof.
  unfold metric_patterns, metric_labels. cbn [filter snd].
  change (pattern_of "ROC-AUC")
    with (lit "ROC-AUC:" ++ [star Space] ++ number_group).
  change (pattern_of "Accuracy")
    with (lit "Accuracy" ++ [star Space] ++ lit ":" ++ [star Space]
            ++ number_group).
  change (pattern_of "Precision")
    with (lit "Precision:" ++ [star Space] ++ number_group).
  change (pattern_of "Recall")
    with (lit "Recall" ++ [star Space] ++ lit ":" ++ [star (Lit 32%N)]
            ++ number_group).
  repeat match goal with
         | |- context [found ?p s] => destruct (found p s)
         end; reflexivity.
Qed.

(** X14.  The scalar metrics come out in the order ROC-AUC, Accuracy,
    Precision, Recall, each at most once and exactly those whose pattern
    is found in the report.  Every value is [float] of a decimal that is
    not negative, the patterns capturing no sign: whatever the rounding,
    it is the rounding of such a number, and where rounding sends the
    numbers that are not negative to infinity or to a double that is not
    negative, every value is infinity or a number that is not negative. *)
Theorem extracted_metrics_order_and_sign :
  forall (nearest_double : Q -> f64) (raw_report : text),
  exists m,
    extracted_metrics nearest_double raw_report = Returns m /\
    map fst m = filter (fun label => found (pattern_of label) raw_report)
                       metric_labels /\
    (forall label value, In (label, value) m ->
                         exists q, (0 <= q)%Q /\ value = nearest_double q) /\
    (rounds_to_nonnegative nearest_double ->
     forall label value, In (label, value) m ->
                         value = PosInf \/
                         exists x, value = Fin x /\ (0 <= x)%Q).
Proof.
  intros nearest_double raw_report.
  destruct (extract_metrics_keys_values nearest_double metric_patterns raw_report)
    as [m [Hm [Hkeys Hvals]]].
  { intros l p g HIn Hs.
    destruct (metric_patterns_shape l p HIn) as [r1 [Hpf ->]].
    now apply (search_number_float nearest_double r1 raw_report g). }
  exists m. split; [exact Hm |]. split; [| split; [exact Hvals |]].
  - rewrite Hkeys. apply metric_patterns_found.
  - intros Hround label value HIn.
    destruct (Hvals label value HIn) as [q [Hq ->]]. now apply Hround.
Qed.

Lemma extracted_metrics_order_and_sign_witness :
  exists m,
    extracted_metrics round_binary64
                      (chars "Recall: 0.5 Accuracy: 1" ++ repeat 48%N 309)
    = Returns m /\
    map fst m = ["Accuracy"; "Recall"] /\
    (forall label value, In (label, value) m ->
                         value = PosInf \/
                         exists x, value = Fin x /\ (0 <= x)%Q).
Proof.
  destruct (extracted_metrics_order_and_sign round_binary64
              (chars "Recall: 0.5 Accuracy: 1" ++ repeat 48%N 309))
    as [m [Hm [Hkeys [_ Hsign]]]].
  exists m. split; [exact Hm |]. split; [exact Hkeys |].
  apply Hsign. exact round_binary64_nonnegative.
Defined.

(** A number with a sign directly after the colon is not read at all; the
    digits after a sign further on are read without it; a number of 310
    digits is read as infinity. *)
Example extracted_metrics_signed :
  (forall nearest_double : Q -> f64,
     extracted_metrics nearest_double (chars "Accuracy: -0.25") = Returns [] /\
     extracted_metrics nearest_double (chars "Recall: 1e-5")
     = Returns [("Recall", nearest_double (1 # 1)%Q)]) /\
  extracted_metrics round_binary64 (chars "Accuracy: 1" ++ repeat 48%N 309)
  = Returns [("Accuracy", PosInf)] /\
  extracted_metrics round_binary64 (chars "Accuracy: 0.75")
  = Returns [("Accuracy", Fin (6755399441055744 # 9007199254740992)%Q)].
Proof.
  split; [intros nearest_double; split; reflexivity |].
  split; vm_compute; reflexivity.
Qed.


(** ** Price tables *)

Lemma Date_order : weak_order (fun a b : Bar =>
                                 cmp_nulls_last Z.compare true
                                                (bar_Date a) (bar_Date b)).
Proof.
  apply (weak_order_on _ _ bar_Date).
  apply weak_order_nulls_last, Z_compare_weak_order.
Qed.

Lemma stable_sort_by_Date_contract : sort_by_Date_contract stable_sort_by_Date.
Proof.
  intros t. unfold stable_sort_by_Date. split.
  - apply insertion_sort_perm.
  - apply insertion_sort_sorted.
    + intros a b c. unfold Date_le, date_le_nulls_last.
      apply (wo_le_trans Date_order).
    + intros x y H. exact H.
    + intros x y H. unfold Date_le, date_le_nulls_last in *.
      destruct (wo_total Date_order x y) as [H'|H'].
      * rewrite H' in H. discriminate.
      * exact H'.
Qed.

Lemma Permutation_filter_same (A : Type) (p : A -> bool) (l l' : list A) :
  Permutation l l' -> Permutation (filter p l) (filter p l').
Proof.
  induction 1 as [|x l l' H IH|x y l|l l' l'' H1 IH1 H2 IH2]; simpl.
  - constructor.
  - destruct (p x); [now constructor | exact IH].
  - destruct (p x), (p y); try apply Permutation_refl. apply perm_swap.
  - now apply perm_trans with (filter p l').
Qed.

Lemma Date_le_by_date (a b : Bar) :
  dated a = true -> dated b = true -> Date_le a b -> by_date a b.
Proof.
  unfold dated, Date_le, by_date, date_le_nulls_last.
  destruct (bar_Date a) as [x|], (bar_Date b) as [y|]; try discriminate.
  intros _ _ H. cbn [cmp_nulls_last] in H.
  destruct (Z.compare_spec x y); [lia | lia | discriminate H].
Qed.

Lemma filter_dated_by_date (l : list Bar) :
  StronglySorted Date_le l -> StronglySorted by_date (filter dated l).
Proof.
  induction 1 as [|a l Hs IH Hall]; simpl; [constructor |].
  destruct (dated a) eqn:Ea; [| exact IH].
  constructor; [exact IH |].
  rewrite Forall_forall in *. intros x Hx. apply filter_In in Hx.
  destruct Hx as [Hx Hd]. apply Date_le_by_date; auto.
Qed.

Lemma load_prices_facts (sv : Date_sorter) (dfp : list Bar) :
  sort_by_Date_contract sv ->
  Permutation (filter dated dfp) (_load_prices sv dfp) /\
  StronglySorted by_date (_load_prices sv dfp) /\
  (forall b, In b (_load_prices sv dfp) -> dated b = true).
Proof.
  intros Hsv. destruct (Hsv dfp) as [Hperm Hsorted]. unfold _load_prices.
  split; [now apply Permutation_filter_same |].
  split; [now apply filter_dated_by_date |].
  intros b Hb. now apply filter_In in Hb.
Qed.

Lemma no_price_data_dated (prices : list Bar) :
  (forall b, In b prices -> dated b = true) ->
  (no_price_data prices = true <-> prices = []).
Proof.
  intros Hall. destruct prices as [|b prices]; [tauto |].
  cbn [no_price_data forallb]. rewrite (Hall b (or_introl eq_refl)).
  split; discriminate.
Qed.

(** X15.  The price table [_load_prices] returns holds the dated rows of
    the file, each once, in ascending order of date, and no row without a
    date.  The test that follows the call finds no price data exactly when
    no row of the file has a date: its second half, that every date is
    missing, holds of the loaded table only when it is empty. *)
Theorem load_prices_sorted_dated :
  forall sv : Date_sorter, sort_by_Date_contract sv ->
  forall dfp : list Bar,
    let prices := _load_prices sv dfp in
    Permutation (filter dated dfp) prices /\
    StronglySorted by_date prices /\
    (forall b, In b prices -> bar_Date b <> None) /\
    (no_price_data prices = true <-> prices = []) /\
    (no_price_data prices = true <-> forall b, In b dfp -> bar_Date b = None).
Proof.
  intros sv Hsv dfp prices.
  destruct (load_prices_facts sv dfp Hsv) as [Hperm [Hsorted Hdated]].
  fold prices in Hperm, Hsorted, Hdated.
  pose proof (no_price_data_dated prices Hdated) as Hempty.
  split; [exact Hperm |]. split; [exact Hsorted |].
  split.
  { intros b Hb E. apply Hdated in Hb. unfold dated in Hb.
    rewrite E in Hb. discriminate. }
  split; [exact Hempty |].
  rewrite Hempty. split.
  - intros E b Hb. destruct (bar_Date b) as [d|] eqn:Ed; [| reflexivity].
    exfalso. rewrite E in Hperm.
    apply Permutation_sym, Permutation_nil in Hperm.
    assert (HIn : In b (filter dated dfp)).
    { apply filter_In. split; [exact Hb |]. unfold dated. now rewrite Ed. }
    rewrite Hperm in HIn. contradiction.
  - intros Hnone. destruct prices as [|b rest] eqn:E; [reflexivity |].
    exfalso.
    assert (HIn : In b (filter dated dfp)).
    { apply (Permutation_in _ (Permutation_sym Hperm)). now left. }
    apply filter_In in HIn. destruct HIn as [Hb Hd].
    unfold dated in Hd. rewrite (Hnone b Hb) in Hd. discriminate.
Qed.

Lemma load_prices_sorted_dated_witness :
  let dfp := [mkBar (Some 3000%Z) NaN NaN NaN (Fin 2) NaN;
              mkBar None NaN NaN NaN (Fin 5) NaN;
              mkBar (Some 1000%Z) NaN NaN NaN (Fin 1) NaN] in
  StronglySorted by_date (_load_prices stable_sort_by_Date dfp).
Proof.
  intros dfp.
  destruct (load_prices_sorted_dated stable_sort_by_Date
              stable_sort_by_Date_contract dfp) as [_ [H _]].
  exact H.
Defined.








Section PriceWindowFacts.

Variable minus_months : Z -> Z -> option Z.
Variable minus_years : Z -> Z -> option Z.
Variable jan1 : Z -> option Z.

(** A date offset leads back in time, and the first of January of the year
    of a day is not after that day. *)
Hypothesis minus_months_le :
  forall d n x, (0 < n)%Z -> minus_months d n = Some x -> (x <= d)%Z.
Hypothesis minus_years_le :
  forall d n x, (0 < n)%Z -> minus_years d n = Some x -> (x <= d)%Z.
Hypothesis jan1_le : forall d x, jan1 d = Some x -> (x <= d)%Z.





(** A date with nanoseconds is beyond the end of its own window: a table
    of one such row leaves nothing to chart. *)
Example price_window_nanoseconds :
  price_window minus_months minus_years jan1 "Max"
               [mkBar (Some 1500%Z) NaN NaN NaN NaN NaN]
  = Returns [].
Proof.
  reflexivity.
Qed.

End PriceWindowFacts.



(** A table whose latest date is within a year of the earliest
    [Timestamp]: "1Y" raises, "Max" shows the table. *)
Example price_window_out_of_bounds :
  let first_day := (- (106751 * day))%Z in
  let prices := [mkBar (Some first_day) NaN NaN NaN (Fin 1) NaN;
                 mkBar (Some (first_day + 2 * day)%Z) NaN NaN NaN (Fin 2) NaN] in
  price_window (sample_minus_days 30) (sample_minus_days 365) sample_jan1
               "1Y" prices = Raises /\
  price_window (sample_minus_days 30) (sample_minus_days 365) sample_jan1
               "Max" prices = Returns prices.
Proof.
  split; vm_compute; reflexivity.
Qed.


(** ** Feature importances *)

Lemma digit_not_space (c : char) : is_digit c = true -> is_space c = false.
Proof.
  unfold is_digit, in_range. intros H. apply andb_true_iff in H.
  destruct H as [Hlo Hhi]. apply N.leb_le in Hlo. apply N.leb_le in Hhi.
  unfold is_space, in_range.
  repeat (apply orb_false_iff; split);
    try (apply N.eqb_neq; lia);
    apply andb_false_iff;
    try (left; apply N.leb_gt; lia); right; apply N.leb_gt; lia.
Qed.

Lemma lstrip_whitespace (ws s : text) :
  whitespace ws -> lstrip (ws ++ s) = lstrip s.
Proof.
  unfold whitespace. induction ws as [|c ws IH]; cbn [forallb app lstrip];
    intros H; [reflexivity |].
  apply andb_true_iff in H. destruct H as [Hc H]. rewrite Hc. now apply IH.
Qed.

Lemma rstrip_whitespace (s ws : text) :
  whitespace ws -> rstrip (s ++ ws) = rstrip s.
Proof.
  intros H. unfold rstrip. rewrite rev_app_distr, lstrip_whitespace;
    [reflexivity |].
  unfold whitespace in *. rewrite forallb_forall in *.
  intros c Hc. apply H. now apply in_rev.
Qed.

Lemma rstrip_nonspace (s : text) (c : char) :
  is_space c = false -> rstrip (s ++ [c]) = s ++ [c].
Proof.
  intros H. unfold rstrip. rewrite rev_app_distr. cbn [rev app lstrip].
  rewrite H. cbn [rev]. now rewrite rev_involutive.
Qed.

Lemma split_from_word (w acc s : text) :
  forallb (fun c => negb (is_space c)) w = true ->
  split_from acc (w ++ s) = split_from (acc ++ w) s.
Proof.
  revert acc. induction w as [|c w IH]; cbn [forallb app]; intros acc H.
  - now rewrite app_nil_r.
  - apply andb_true_iff in H. destruct H as [Hc H].
    apply negb_true_iff in Hc. cbn [split_from]. rewrite Hc, (IH _ H).
    now rewrite <- app_assoc.
Qed.

Lemma split_from_blank (ws s : text) :
  whitespace ws -> split_from [] (ws ++ s) = split_from [] s.
Proof.
  unfold whitespace. induction ws as [|c ws IH]; cbn [forallb app split_from];
    intros H; [reflexivity |].
  apply andb_true_iff in H. destruct H as [Hc H]. rewrite Hc. now apply IH.
Qed.

Lemma split_from_space (acc ws s : text) :
  acc <> [] -> ws <> [] -> whitespace ws ->
  split_from acc (ws ++ s) = acc :: split_from [] s.
Proof.
  intros Hacc Hws H. destruct ws as [|c ws]; [contradiction |].
  unfold whitespace in H. cbn [forallb] in H.
  apply andb_true_iff in H. destruct H as [Hc H].
  cbn [app split_from]. rewrite Hc.
  destruct acc as [|a acc]; [contradiction |].
  now rewrite (split_from_blank ws s H).
Qed.

Lemma split_from_end (w : text) : w <> [] -> split_from w [] = [w].
Proof.
  destruct w; [contradiction | reflexivity].
Qed.

Lemma split_listing (words : list text) (gap imp : text) :
  words <> [] -> Forall word words ->
  gap <> [] -> whitespace gap -> word imp ->
  split_ws (join (chars " ") words ++ gap ++ imp) = words ++ [imp].
Proof.
  intros Hne Hwords Hgap Hws [Himp Hnos]. unfold split_ws.
  induction words as [|w words IH]; [contradiction |].
  apply Forall_cons_iff in Hwords. destruct Hwords as [[Hw Hwn] Hwords].
  destruct words as [|w2 words].
  - cbn [join app]. rewrite (split_from_word w [] _ Hwn). cbn [app].
    rewrite (split_from_space w gap imp Hw Hgap Hws). f_equal.
    rewrite <- (app_nil_r imp), (split_from_word imp [] [] Hnos).
    cbn [app]. rewrite app_nil_r. now apply split_from_end.
  - change (join (chars " ") (w :: w2 :: words))
      with (w ++ chars " " ++ join (chars " ") (w2 :: words)).
    rewrite <- !app_assoc. rewrite (split_from_word w [] _ Hwn). cbn [app].
    rewrite (split_from_space w (chars " ") _ Hw); [| discriminate | reflexivity].
    cbn [app]. f_equal. apply IH; [discriminate | exact Hwords].
Qed.

(** The text of a listed line after its indent begins with the first word
    of the name and a whitespace character. *)
Lemma listing_first_word (w : text) (words : list text) (gap imp : text) :
  gap <> [] -> whitespace gap ->
  exists c s, is_space c = true /\
              join (chars " ") (w :: words) ++ gap ++ imp = w ++ c :: s.
Proof.
  intros Hgap Hws. destruct words as [|w2 words].
  - destruct gap as [|g gap]; [contradiction |].
    unfold whitespace in Hws. cbn [forallb] in Hws.
    apply andb_true_iff in Hws. destruct Hws as [Hg _].
    exists g, (gap ++ imp). split; [exact Hg | reflexivity].
  - exists 32%N, (join (chars " ") (w2 :: words) ++ gap ++ imp).
    split; [reflexivity |].
    change (join (chars " ") (w :: w2 :: words))
      with (w ++ chars " " ++ join (chars " ") (w2 :: words)).
    now rewrite <- !app_assoc.
Qed.

Lemma startswith_word (p w s : text) (c : char) :
  is_space c = true ->
  forallb (fun a => negb (is_space a)) p = true ->
  text_startswith (w ++ c :: s) p = true -> text_startswith w p = true.
Proof.
  intros Hc. revert w. induction p as [|a p IH]; intros w Hp H.
  - destruct w; reflexivity.
  - cbn [forallb] in Hp. apply andb_true_iff in Hp. destruct Hp as [Ha Hp].
    apply negb_true_iff in Ha.
    destruct w as [|b w]; cbn [app text_startswith] in H |- *.
    + apply andb_true_iff in H. destruct H as [E _].
      apply N.eqb_eq in E. subst c. congruence.
    + apply andb_true_iff in H. destruct H as [E H]. rewrite E.
      cbn [andb]. now apply IH.
Qed.

Lemma digits_no_letter (t : text) :
  digits t ->
  existsb (fun c => (c <? 128)%N && negb (is_digit c)) t = false.
Proof.
  unfold digits. induction t as [|c t IH]; cbn [forallb existsb]; intros H;
    [reflexivity |].
  apply andb_true_iff in H. destruct H as [Hc H].
  rewrite Hc, (IH H). cbn [negb]. now rewrite andb_false_r.
Qed.

Lemma digits_word (t : text) : t <> [] -> digits t -> word t.
Proof.
  intros Hne Hd. split; [exact Hne |].
  unfold digits in Hd. rewrite forallb_forall in *.
  intros c Hc. apply negb_true_iff, digit_not_space. now apply Hd.
Qed.

Lemma digit_token_digits (t : text) :
  t <> [] -> digits t -> (List.length t <= 4300)%nat ->
  digit_token t = Returns (Some (digits_value t)).
Proof.
  intros Hne Hd Hlen. unfold digit_token.
  rewrite (digits_no_letter t Hd). unfold digits in Hd. rewrite Hd.
  destruct t as [|c t]; [contradiction |].
  apply Nat.leb_le in Hlen. now rewrite Hlen.
Qed.

Lemma strip_feature_line (indent name gap imp trail : text) (c1 : char)
      (s imp' : text) (d : char) :
  whitespace indent -> whitespace trail ->
  name ++ gap ++ imp = c1 :: s -> is_space c1 = false ->
  imp = imp' ++ [d] -> is_space d = false ->
  strip (indent ++ name ++ gap ++ imp ++ trail) = name ++ gap ++ imp.
Proof.
  intros Hind Htrail Hs Hc1 Ed Hd. unfold strip.
  rewrite (lstrip_whitespace _ _ Hind).
  assert (E : name ++ gap ++ imp ++ trail = (name ++ gap ++ imp) ++ trail)
    by (now rewrite <- !app_assoc).
  rewrite E, Hs. cbn [app lstrip]. rewrite Hc1.
  change (c1 :: s ++ trail) with ((c1 :: s) ++ trail).
  rewrite (rstrip_whitespace _ _ Htrail), <- Hs, Ed, !app_assoc.
  now apply rstrip_nonspace.
Qed.

(** What the loop finds on one line of a listing. *)
Lemma listed_line_parts (x : listed) :
  well_laid x ->
  closing_line (listed_line x) = false /\
  split_ws (strip (listed_line x)) = name_words x ++ [importance x] /\
  digit_token (importance x) = Returns (Some (digits_value (importance x))).
Proof.
  intros [Hind [Hne [Hwords [Hdtype [Hgap [Hgws [Himp [Hdig [Hlen Htrail]]]]]]]]].
  destruct (name_words x) as [|w words] eqn:Ew; [contradiction |].
  pose proof Hwords as Hwords'.
  apply Forall_cons_iff in Hwords'. destruct Hwords' as [[Hw Hwn] _].
  destruct (listing_first_word w words (gap x) (importance x) Hgap Hgws)
    as [c [s [Hc Hs]]].
  destruct w as [|c1 w]; [contradiction |].
  cbn [forallb] in Hwn. apply andb_true_iff in Hwn. destruct Hwn as [Hc1 Hwn].
  apply negb_true_iff in Hc1.
  destruct (exists_last Himp) as [imp' [d Ed]].
  assert (Hd : is_space d = false).
  { apply digit_not_space. unfold digits in Hdig. rewrite forallb_forall in Hdig.
    apply Hdig. rewrite Ed. apply in_or_app. right. now left. }
  assert (Hstrip : strip (listed_line x)
                   = join (chars " ") ((c1 :: w) :: words) ++ gap x
                          ++ importance x).
  { unfold listed_line, feature_line. rewrite Ew.
    apply (strip_feature_line _ _ _ _ _ c1 (w ++ c :: s) imp' d);
      assumption. }
  assert (Hstrip' : strip (listed_line x) = (c1 :: w) ++ c :: s)
    by (rewrite Hstrip; exact Hs).
  split; [| split].
  - unfold closing_line. rewrite Hstrip'. cbn [app is_empty orb].
    destruct (text_startswith (c1 :: w ++ c :: s) (chars "dtype:")) eqn:E;
      [| reflexivity].
    apply (startswith_word (chars "dtype:") (c1 :: w) s c Hc) in E;
      [| reflexivity].
    cbn [hd] in Hdtype. congruence.
  - rewrite Hstrip. apply split_listing; try assumption;
      try discriminate. now apply digits_word.
  - now apply digit_token_digits.
Qed.

Lemma after_header_found (pre : list text) (header : text) (body : list text) :
  (forall ln, In ln pre ->
              text_contains (chars "Feature Importances") ln = false) ->
  text_contains (chars "Feature Importances") header = true ->
  after_header (pre ++ header :: body) = Some body.
Proof.
  intros Hpre Hh. induction pre as [|ln pre IH]; cbn [app after_header].
  - now rewrite Hh.
  - rewrite (Hpre ln (or_introl eq_refl)). apply IH.
    intros l Hl. apply Hpre. now right.
Qed.

Lemma importance_lines_listing (listing : list listed) (rest : list text) :
  Forall well_laid listing ->
  (rest = [] \/
   exists stop rest', rest = stop :: rest' /\ closing_line stop = true) ->
  importance_lines (map listed_line listing ++ rest)
  = Returns (map listed_row listing).
Proof.
  intros Hall Hrest. induction Hall as [|x listing Hx Hall IH]; cbn [map app].
  - destruct Hrest as [->|[stop [rest' [-> Hstop]]]]; [reflexivity |].
    cbn [importance_lines]. cbv zeta. unfold closing_line in Hstop.
    now rewrite Hstop.
  - destruct (listed_line_parts x Hx) as [Hclose [Hsplit Htoken]].
    assert (Hlen : (2 <=? List.length (name_words x ++ [importance x]))%nat
                   = true).
    { destruct Hx as [_ [Hne _]]. destruct (name_words x); [contradiction |].
      rewrite length_app. cbn [List.length]. apply Nat.leb_le. lia. }
    cbn [importance_lines]. cbv zeta. unfold closing_line in Hclose.
    rewrite Hclose, Hsplit, Hlen, last_last, removelast_last, Htoken, IH.
    reflexivity.
Qed.

(** X17.  A listing printed under the header, one feature per line as
    name, whitespace and a number, and closed by a blank line, by a
    [dtype:] line or by the end of the report, is read back entry by
    entry: the names with their words one space apart, the importances as
    the numbers their digits denote, in the order of the lines. *)
Theorem feature_importances_round_trip :
  forall (pre : list text) (header : text) (listing : list listed)
         (rest : list text),
    (forall ln, In ln pre ->
                text_contains (chars "Feature Importances") ln = false) ->
    text_contains (chars "Feature Importances") header = true ->
    Forall well_laid listing ->
    (rest = [] \/
     exists stop rest', rest = stop :: rest' /\ closing_line stop = true) ->
    feature_importances (pre ++ header :: map listed_line listing ++ rest)
    = Returns (map listed_row listing).
Proof.
  intros pre header listing rest Hpre Hheader Hall Hrest.
  unfold feature_importances. rewrite (after_header_found _ _ _ Hpre Hheader).
  now apply importance_lines_listing.
Qed.

Lemma feature_importances_round_trip_witness :
  feature_importances
    ([chars "ROC-AUC: 0.81"]
       ++ chars "Top Feature Importances:"
       :: map listed_line
            [mkListed (chars "  ") [chars "rsi"; chars "14"] (chars "    ")
                      (chars "120") [];
             mkListed [] [chars "volume"] [9%N] (chars "007") (chars " ")]
       ++ [chars "dtype: int64"; chars "ignored 5"])
  = Returns [(chars "rsi 14", 120%Z); (chars "volume", 7%Z)].
Proof.
  apply (feature_importances_round_trip
           [chars "ROC-AUC: 0.81"] (chars "Top Feature Importances:")
           [mkListed (chars "  ") [chars "rsi"; chars "14"] (chars "    ")
                     (chars "120") [];
            mkListed [] [chars "volume"] [9%N] (chars "007") (chars " ")]
           [chars "dtype: int64"; chars "ignored 5"]).
  - intros ln [<-|[]]. reflexivity.
  - reflexivity.
  - repeat constructor; try discriminate; cbn [List.length]; lia.
  - right. exists (chars "dtype: int64"), [chars "ignored 5"].
    split; reflexivity.
Defined.

Lemma split_from_words (s acc : text) :
  acc = [] \/ word acc -> Forall word (split_from acc s).
Proof.
  revert acc. induction s as [|c s IH]; intros acc Hacc; cbn [split_from].
  - destruct acc as [|a acc]; [constructor |].
    destruct Hacc as [E|Hw]; [discriminate |].
    constructor; [exact Hw | constructor].
  - destruct (is_space c) eqn:Ec.
    + destruct acc as [|a acc].
      * apply IH. now left.
      * destruct Hacc as [E|Hw]; [discriminate |].
        constructor; [exact Hw | apply IH; now left].
    + apply IH. right. split.
      * intros E. apply app_eq_nil in E. destruct E as [_ E]. discriminate.
      * rewrite forallb_app. cbn [forallb]. rewrite Ec. cbn [negb andb].
        destruct Hacc as [->|[_ Hw]]; [reflexivity | now rewrite Hw].
Qed.

Lemma In_removelast (A : Type) (l : list A) (x : A) :
  In x (removelast l) -> In x l.
Proof.
  induction l as [|a l IH]; [tauto |].
  destruct l as [|b l]; [intros [] |].
  change (removelast (a :: b :: l)) with (a :: removelast (b :: l)).
  intros [->|H]; [now left | right; now apply IH].
Qed.

Lemma digit_token_value (t : text) (v : Z) :
  digit_token t = Returns (Some v) -> (0 <= v)%Z.
Proof.
  unfold digit_token.
  destruct (existsb (fun c => (c <? 128)%N && negb (is_digit c)) t);
    [discriminate |].
  destruct (forallb is_digit t) eqn:Hd; [| discriminate].
  destruct t as [|c t]; [discriminate |].
  destruct (List.length (c :: t) <=? 4300)%nat; [| discriminate].
  intros H. injection H as <-. unfold digits_value.
  apply digits_value_from; [exact Hd | lia].
Qed.

Lemma importance_lines_rows (lines : list text) (rows : list (text * Z)) :
  importance_lines lines = Returns rows ->
  forall name v, In (name, v) rows ->
    (0 <= v)%Z /\
    exists words, words <> [] /\ Forall word words /\
                  name = join (chars " ") words.
Proof.
  revert rows. induction lines as [|line lines IH]; intros rows;
    cbn [importance_lines]; cbv zeta.
  - intros H. injection H as <-. intros name v [].
  - destruct (is_empty (strip line)
              || text_startswith (strip line) (chars "dtype:")).
    + intros H. injection H as <-. intros name v [].
    + destruct (2 <=? List.length (split_ws (strip line)))%nat eqn:Elen;
        [| apply IH].
      destruct (digit_token (last (split_ws (strip line)) []))
        as [[v0|]| |] eqn:Et; try discriminate; [| apply IH].
      destruct (importance_lines lines) as [l| |]; try discriminate.
      intros H. injection H as <-.
      intros name v [E|HIn]; [| now apply (IH l eq_refl)].
      injection E as <- <-. split; [now apply (digit_token_value _ _ Et) |].
      exists (removelast (split_ws (strip line))).
      split; [| split; [| reflexivity]].
      * destruct (split_ws (strip line)) as [|a [|b l']];
          try discriminate Elen. discriminate.
      * apply Forall_forall. intros t Ht. apply In_removelast in Ht.
        revert t Ht. apply Forall_forall. apply split_from_words. now left.
Qed.

(** X18.  Whatever the report holds, every entry read from the listing has
    an importance that is not negative and a name of one word or more,
    one space apart, with no whitespace at either end. *)
Theorem feature_importances_rows :
  forall (lines : list text) (rows : list (text * Z)),
    feature_importances lines = Returns rows ->
    forall name v, In (name, v) rows ->
      (0 <= v)%Z /\
      exists words, words <> [] /\ Forall word words /\
                    name = join (chars " ") words.
Proof.
  intros lines rows. unfold feature_importances.
  destruct (after_header lines) as [body|].
  - apply importance_lines_rows.
  - intros H. injection H as <-. intros name v [].
Qed.

Lemma feature_importances_rows_witness :
  (0 <= 120)%Z /\
  exists words, words <> [] /\ Forall word words /\
                chars "rsi 14" = join (chars " ") words.
Proof.
  apply (feature_importances_rows
           [chars "Feature Importances"; chars "  rsi   14    120 ";
            chars "no number here"; chars "-5"; chars ""; chars "late 5"]
           [(chars "rsi 14", 120%Z)] eq_refl
           (chars "rsi 14") 120%Z (or_introl eq_refl)).
Defined.
